(** * Feed.fm Javascript SDK: the session / player state machine

    A shallow embedding of [feed/session], [feed/player] and of the part of
    [feed/speaker] the player drives (all bundled in [src/speaker.js]),
    followed by the properties of the playback state machine.

    Conventions of the embedding.

    - The page is single threaded: every handler runs to completion.  A
      handler is a computation in the monad [JS]: it reads and writes the
      [World] (the session's [config], the player's [state], the speaker's
      [outstandingPlays]) and either returns or throws.  A JavaScript
      exception does not roll back the assignments made before it, so a
      thrown computation still yields a world.
    - Everything a handler hands to the outside is appended to the world's
      [trace]: events passed to [trigger], requests passed to [_signedAjax]
      (each carries the arguments bound into its [done]/[fail]
      continuation), timers given to [_.delay] / [_.defer] / [setTimeout],
      and commands to the audio engine.
    - What comes back from the outside is an [Input]: a response to a
      request, a timer firing, an audio engine callback, or a call of the
      public API.
    - JavaScript compares plays and ajax option objects by reference
      ([===]); a play and an ajax object therefore carry the identity of the
      object, and [===] compares identities.
    - Durations and positions are integral milliseconds ([Z]); an argument
      that may be [undefined] is an [option].
    - Request signing, clock synchronisation and the SoundManager internals
      are transport and are not modelled; a promise that is already resolved
      runs its [then] callback at once. *)

From Stdlib Require Import String ZArith List Bool Lia.
From Stdlib Require DecimalString DecimalZ DecimalPos.
Import ListNotations.

Local Open Scope string_scope.
Local Open Scope Z_scope.
Local Open Scope list_scope.

Set Implicit Arguments.

(** ** Data model *)

Definition ObjId := nat.

(** A play as delivered by [POST /play]; [play_obj] is the identity of the
    JavaScript object, [liked] is absent until the listener votes and
    [startPosition] is only set on a play restored by [unsuspend]. *)
Record Play := {
  play_obj : ObjId;
  play_id : string;
  audio_file_url : string;
  liked : option bool;
  startPosition : option Z
}.

Record Placement := { placement_id : string }.
Record Station := { station_id : string }.

(** [config.current] *)
Record Current := {
  cur_play : Play;
  cur_started : bool;
  cur_canSkip : bool;
  cur_retryCount : nat
}.

(** The options object of a [POST /play] request. *)
Record Ajax := {
  ajax_obj : ObjId;
  data_formats : string;
  data_client_id : option string;
  data_max_bitrate : Z;
  data_secure : bool;
  data_placement_id : option string;
  data_station_id : option string
}.

(** [config.pendingRequest] *)
Record PendingRequest := {
  req_ajax : Ajax;
  req_retryCount : nat
}.

(** [session.config] (without the transport settings). *)
Record Config := {
  token : option string;
  secret : option string;
  placementId : option string;
  placement : option Placement;
  stationId : option string;
  stations : list Station;
  clientId : option string;
  secure : bool;
  formats : string;
  maxBitrate : Z;
  current : option Current;
  pendingRequest : option PendingRequest;
  pendingPlay : option Play
}.

(** A [Sound] of the speaker: its [_.uniqueId], its url, the start position
    given in the options, and the play id bound into its four callbacks. *)
Record Sound := {
  sound_id : ObjId;
  sound_url : string;
  sound_startPosition : option Z;
  sound_playId : string
}.

(** [player.state.activePlay] *)
Record ActivePlay := {
  ap_id : string;
  ap_sound : Sound;
  startReportedToServer : bool;
  soundCompleted : bool;
  soundCompletedWithError : bool;
  playStarted : bool;
  previousPosition : Z
}.

(** [player.state] *)
Record PlayerState := {
  paused : bool;
  suspended : bool;
  activePlay : option ActivePlay
}.

(** The object returned by [Session.suspend]. *)
Record Saved := {
  saved_placementId : option string;
  saved_stationId : option string;
  saved_placement : option Placement;
  saved_stations : list Station;
  saved_play : option Play;
  saved_canSkip : bool
}.

(** *** Responses of the remote service *)

(** A rejected request: the HTTP status and, when [responseText] parses to
    an object with an [error] member, its [code] and [message]. *)
Record XHR := {
  status : Z;
  xhr_error : option (Z * string)
}.

Inductive PlayResponse :=
| play_success (play : Play)
| play_failure (error_code : option Z).

Record StartResponse := { start_success : bool; can_skip : bool }.

Record PlacementInformation := {
  info_success : bool;
  info_placement : option Placement;
  info_stations : list Station
}.

Record ClientResponse := { client_success : bool; client_id : string }.

(** *** What the session and the player hand to the outside *)

Inductive SessionEvent :=
| placement_changed (id : option string)
| station_changed (id : option string)
| placement_event (p : option Placement)
| stations_event (l : list Station)
| play_active (play : Play)
| play_started (play : Play)
| play_completed (play : Play)
| plays_exhausted
| skip_denied
| not_in_us (message : string)
| invalid_credentials.

Inductive PlayerEvent :=
| play_paused
| play_resumed
| play_liked
| play_unliked
| play_disliked
| suspend_event.

(** A request given to [_signedAjax], with the arguments bound into its
    continuations. *)
Inductive Request :=
| GET_placement_default (delay : option Z)
| GET_placement (id : string) (delay : option Z)
| POST_client (delay : option Z)
| POST_play (ajax : Ajax) (delay : option Z)
| POST_start (play : Play)
| POST_elapse (playId : string) (seconds : Z)
| POST_complete (playId : string)
| POST_skip (play : Play)
| POST_invalidate (play : Play) (delay : option Z)
| POST_like (playId : string)
| DELETE_like (playId : string)
| POST_dislike (playId : string).

(** A function handed to [_.delay], [_.defer] or [setTimeout]. *)
Inductive Callback :=
| Cb_getDefaultPlacementInformation (delay : Z)
| Cb_getPlacementInformation (delay : Z)
| Cb_requestClientId (delay : Z)
| Cb_requestNextPlay (delay : Z)
| Cb_startPlay (play : Play)
| Cb_sendInvalidate (play : Play)
| Cb_requestInvalidate
| Cb_reportPlayCompleted.

Inductive Effect :=
| Trigger (e : SessionEvent)
| PlayerTrigger (e : PlayerEvent)
| SignedAjax (r : Request)
| Delay (cb : Callback) (ms : Z)
| Defer (cb : Callback)
| SpeakerCreate (s : Sound)
| SoundPlay (s : Sound)
| SoundPause (s : Sound)
| SoundResume (s : Sound)
| SoundDestroy (s : Sound)
| InitializeForMobile.

(** [session.clientPromise], with the delays of the [_requestNextPlay]
    calls waiting on it. *)
Inductive ClientPromise :=
| NotCreated
| Pending (waiting : list (option Z))
| Resolved.

(** ** The world and the monad of handlers *)

Record World := {
  config : Config;
  clientPromise : ClientPromise;
  storedCid : option string;
  state : PlayerState;
  outstandingPlays : list ObjId;
  heap : ObjId;
  trace : list Effect
}.

Inductive Outcome (A : Type) :=
| Return (a : A)
| Throw (message : string).

Arguments Throw {A} message.

Definition JS (A : Type) : Type := World -> Outcome A * World.

Definition ret {A} (a : A) : JS A := fun w => (Return a, w).

Definition bind {A B} (m : JS A) (k : A -> JS B) : JS B :=
  fun w =>
    match m w with
    | (Return a, w') => k a w'
    | (Throw msg, w') => (Throw msg, w')
    end.

Definition throw {A} (msg : string) : JS A := fun w => (Throw msg, w).

Declare Scope js_scope.
Delimit Scope js_scope with js.
Notation "x <- m ;; k" := (bind m (fun x => k))
  (at level 61, m at next level, right associativity) : js_scope.
Notation "m ;; k" := (bind m (fun _ => k))
  (at level 61, right associativity) : js_scope.
Local Open Scope js_scope.

(** The world a handler leaves behind, whether it returned or threw. *)
Definition exec {A} (m : JS A) (w : World) : World := snd (m w).

Definition returns {A} (m : JS A) (w : World) : Prop :=
  exists a, fst (m w) = Return a.

Definition throws {A} (m : JS A) (w : World) : Prop :=
  exists msg, fst (m w) = Throw msg.

(** *** Field updates *)

Definition set_current (v : option Current) (c : Config) : Config :=
  {| token := token c; secret := secret c; placementId := placementId c;
     placement := placement c; stationId := stationId c;
     stations := stations c; clientId := clientId c; secure := secure c;
     formats := formats c; maxBitrate := maxBitrate c;
     current := v; pendingRequest := pendingRequest c;
     pendingPlay := pendingPlay c |}.

Definition set_pendingRequest (v : option PendingRequest) (c : Config) : Config :=
  {| token := token c; secret := secret c; placementId := placementId c;
     placement := placement c; stationId := stationId c;
     stations := stations c; clientId := clientId c; secure := secure c;
     formats := formats c; maxBitrate := maxBitrate c;
     current := current c; pendingRequest := v;
     pendingPlay := pendingPlay c |}.

Definition set_pendingPlay (v : option Play) (c : Config) : Config :=
  {| token := token c; secret := secret c; placementId := placementId c;
     placement := placement c; stationId := stationId c;
     stations := stations c; clientId := clientId c; secure := secure c;
     formats := formats c; maxBitrate := maxBitrate c;
     current := current c; pendingRequest := pendingRequest c;
     pendingPlay := v |}.

(** The identity and station settings, which never touch the three play
    slots. *)
Definition set_identity (tok sec pid : option string) (pl : option Placement)
    (sid : option string) (sts : list Station) (cid : option string)
    (fmt : string) (rate : Z) (c : Config) : Config :=
  {| token := tok; secret := sec; placementId := pid; placement := pl;
     stationId := sid; stations := sts; clientId := cid; secure := secure c;
     formats := fmt; maxBitrate := rate;
     current := current c; pendingRequest := pendingRequest c;
     pendingPlay := pendingPlay c |}.

Definition set_credentials (tok sec : option string) (c : Config) : Config :=
  set_identity tok sec (placementId c) (placement c) (stationId c)
    (stations c) (clientId c) (formats c) (maxBitrate c) c.

Definition set_placementId (v : option string) (c : Config) : Config :=
  set_identity (token c) (secret c) v (placement c) (stationId c)
    (stations c) (clientId c) (formats c) (maxBitrate c) c.

Definition set_placement (v : option Placement) (c : Config) : Config :=
  set_identity (token c) (secret c) (placementId c) v (stationId c)
    (stations c) (clientId c) (formats c) (maxBitrate c) c.

Definition set_stationId (v : option string) (c : Config) : Config :=
  set_identity (token c) (secret c) (placementId c) (placement c) v
    (stations c) (clientId c) (formats c) (maxBitrate c) c.

Definition set_stations (v : list Station) (c : Config) : Config :=
  set_identity (token c) (secret c) (placementId c) (placement c)
    (stationId c) v (clientId c) (formats c) (maxBitrate c) c.

Definition set_clientId (v : option string) (c : Config) : Config :=
  set_identity (token c) (secret c) (placementId c) (placement c)
    (stationId c) (stations c) v (formats c) (maxBitrate c) c.

Definition set_formats (v : string) (c : Config) : Config :=
  set_identity (token c) (secret c) (placementId c) (placement c)
    (stationId c) (stations c) (clientId c) v (maxBitrate c) c.

Definition set_maxBitrate (v : Z) (c : Config) : Config :=
  set_identity (token c) (secret c) (placementId c) (placement c)
    (stationId c) (stations c) (clientId c) (formats c) v c.

Definition with_config (f : Config -> Config) (w : World) : World :=
  {| config := f (config w); clientPromise := clientPromise w;
     storedCid := storedCid w; state := state w;
     outstandingPlays := outstandingPlays w; heap := heap w;
     trace := trace w |}.

Definition with_clientPromise (v : ClientPromise) (w : World) : World :=
  {| config := config w; clientPromise := v; storedCid := storedCid w;
     state := state w; outstandingPlays := outstandingPlays w;
     heap := heap w; trace := trace w |}.

Definition with_storedCid (v : option string) (w : World) : World :=
  {| config := config w; clientPromise := clientPromise w; storedCid := v;
     state := state w; outstandingPlays := outstandingPlays w;
     heap := heap w; trace := trace w |}.

Definition with_state (f : PlayerState -> PlayerState) (w : World) : World :=
  {| config := config w; clientPromise := clientPromise w;
     storedCid := storedCid w; state := f (state w);
     outstandingPlays := outstandingPlays w; heap := heap w;
     trace := trace w |}.

Definition with_outstandingPlays (f : list ObjId -> list ObjId) (w : World) : World :=
  {| config := config w; clientPromise := clientPromise w;
     storedCid := storedCid w; state := state w;
     outstandingPlays := f (outstandingPlays w); heap := heap w;
     trace := trace w |}.

Definition with_heap (v : ObjId) (w : World) : World :=
  {| config := config w; clientPromise := clientPromise w;
     storedCid := storedCid w; state := state w;
     outstandingPlays := outstandingPlays w; heap := v; trace := trace w |}.

Definition with_trace (f : list Effect -> list Effect) (w : World) : World :=
  {| config := config w; clientPromise := clientPromise w;
     storedCid := storedCid w; state := state w;
     outstandingPlays := outstandingPlays w; heap := heap w;
     trace := f (trace w) |}.

(** *** Primitive computations *)

Definition getConfig : JS Config := fun w => (Return (config w), w).
Definition getState : JS PlayerState := fun w => (Return (state w), w).
Definition getClientPromise : JS ClientPromise :=
  fun w => (Return (clientPromise w), w).
Definition getStoredCid : JS (option string) :=
  fun w => (Return (storedCid w), w).

Definition modifyConfig (f : Config -> Config) : JS unit :=
  fun w => (Return tt, with_config f w).
Definition modifyState (f : PlayerState -> PlayerState) : JS unit :=
  fun w => (Return tt, with_state f w).
Definition setClientPromise (v : ClientPromise) : JS unit :=
  fun w => (Return tt, with_clientPromise v w).
Definition setStoredCid (v : option string) : JS unit :=
  fun w => (Return tt, with_storedCid v w).

(** Appends to the trace. *)
Definition emit (e : Effect) : JS unit :=
  fun w => (Return tt, with_trace (fun t => t ++ [e]) w).

(** Allocation of a new object (a literal, [_.clone], [_.uniqueId]). *)
Definition fresh : JS ObjId :=
  fun w => (Return (heap w), with_heap (S (heap w)) w).

(** Assignments to a member of [config.current] and of
    [state.activePlay]; they throw when the object is missing. *)
Definition set_started (v : bool) (c : Current) : Current :=
  {| cur_play := cur_play c; cur_started := v; cur_canSkip := cur_canSkip c;
     cur_retryCount := cur_retryCount c |}.

Definition set_canSkip (v : bool) (c : Current) : Current :=
  {| cur_play := cur_play c; cur_started := cur_started c; cur_canSkip := v;
     cur_retryCount := cur_retryCount c |}.

Definition set_retryCount (v : nat) (c : Current) : Current :=
  {| cur_play := cur_play c; cur_started := cur_started c;
     cur_canSkip := cur_canSkip c; cur_retryCount := v |}.

Definition set_liked (v : option bool) (c : Current) : Current :=
  {| cur_play := {| play_obj := play_obj (cur_play c);
                    play_id := play_id (cur_play c);
                    audio_file_url := audio_file_url (cur_play c);
                    liked := v;
                    startPosition := startPosition (cur_play c) |};
     cur_started := cur_started c; cur_canSkip := cur_canSkip c;
     cur_retryCount := cur_retryCount c |}.

Definition modifyCurrent (f : Current -> Current) : JS unit :=
  fun w =>
    match current (config w) with
    | Some c => (Return tt, with_config (set_current (Some (f c))) w)
    | None => (Throw "TypeError: this.config.current is null", w)
    end.

Definition set_activePlay (v : option ActivePlay) (s : PlayerState)
  : PlayerState :=
  {| paused := paused s; suspended := suspended s; activePlay := v |}.

Definition set_startReportedToServer (v : bool) (a : ActivePlay) : ActivePlay :=
  {| ap_id := ap_id a; ap_sound := ap_sound a; startReportedToServer := v;
     soundCompleted := soundCompleted a;
     soundCompletedWithError := soundCompletedWithError a;
     playStarted := playStarted a; previousPosition := previousPosition a |}.

Definition set_soundCompleted (v : bool) (a : ActivePlay) : ActivePlay :=
  {| ap_id := ap_id a; ap_sound := ap_sound a;
     startReportedToServer := startReportedToServer a; soundCompleted := v;
     soundCompletedWithError := soundCompletedWithError a;
     playStarted := playStarted a; previousPosition := previousPosition a |}.

Definition set_soundCompletedWithError (v : bool) (a : ActivePlay)
  : ActivePlay :=
  {| ap_id := ap_id a; ap_sound := ap_sound a;
     startReportedToServer := startReportedToServer a;
     soundCompleted := soundCompleted a; soundCompletedWithError := v;
     playStarted := playStarted a; previousPosition := previousPosition a |}.

Definition set_playStarted (v : bool) (a : ActivePlay) : ActivePlay :=
  {| ap_id := ap_id a; ap_sound := ap_sound a;
     startReportedToServer := startReportedToServer a;
     soundCompleted := soundCompleted a;
     soundCompletedWithError := soundCompletedWithError a;
     playStarted := v; previousPosition := previousPosition a |}.

Definition set_previousPosition (v : Z) (a : ActivePlay) : ActivePlay :=
  {| ap_id := ap_id a; ap_sound := ap_sound a;
     startReportedToServer := startReportedToServer a;
     soundCompleted := soundCompleted a;
     soundCompletedWithError := soundCompletedWithError a;
     playStarted := playStarted a; previousPosition := v |}.

Definition modifyActivePlay (f : ActivePlay -> ActivePlay) : JS unit :=
  fun w =>
    match activePlay (state w) with
    | Some a => (Return tt, with_state (set_activePlay (Some (f a))) w)
    | None => (Throw "TypeError: this.state.activePlay is undefined", w)
    end.

(** JavaScript truthiness of a string that may be [undefined]. *)
Definition truthy (s : option string) : bool :=
  match s with
  | Some s => negb (String.eqb s "")
  | None => false
  end.

(** Truthiness of a number that may be [undefined]. *)
Definition truthyZ (d : option Z) : bool :=
  match d with
  | Some d => negb (d =? 0)
  | None => false
  end.

(** [a === b] on plays and on ajax objects. *)
Definition same_play (a b : Play) : bool := Nat.eqb (play_obj a) (play_obj b).
Definition same_ajax (a b : Ajax) : bool := Nat.eqb (ajax_obj a) (ajax_obj b).

(** [response.status === st] with [fullResponse.error.code === code]. *)
Definition has_error (st code : Z) (r : XHR) : option string :=
  if status r =? st then
    match xhr_error r with
    | Some (c, msg) => if c =? code then Some msg else None
    | None => None
    end
  else None.

(** ** feed/session *)

Module Session.
Section Listeners.

(** The callbacks registered with [session.on]. *)
Variable listeners : SessionEvent -> JS unit.

Definition trigger (e : SessionEvent) : JS unit :=
  emit (Trigger e) ;; listeners e.

Definition _signedAjax (r : Request) : JS unit := emit (SignedAjax r).

Definition setCredentials (tok sec : string) : JS unit :=
  modifyConfig (set_credentials (Some tok) (Some sec)).

Definition getActivePlacement : JS (option Placement) :=
  cfg <- getConfig ;; ret (placement cfg).

Definition getActivePlay : JS (option Play) :=
  cfg <- getConfig ;;
  match current cfg with
  | Some c => ret (Some (cur_play c))
  | None => ret None
  end.

Definition isTuned : JS bool :=
  cfg <- getConfig ;;
  match current cfg, pendingRequest cfg with
  | None, None => ret false
  | _, _ => ret true
  end.

Definition hasActivePlayStarted : JS bool :=
  cfg <- getConfig ;;
  match current cfg with
  | Some c => ret (cur_started c)
  | None => ret false
  end.

Definition maybeCanSkip : JS bool :=
  cfg <- getConfig ;;
  match current cfg with
  | Some c => ret (cur_started c && cur_canSkip c)
  | None => ret false
  end.

(** start playing the given song *)
Definition _assignCurrentPlay (play : option Play) (waitingIfEmpty : bool)
  : JS unit :=
  cfg <- getConfig ;;
  (match current cfg with
   | Some c =>
       trigger (play_completed (cur_play c)) ;;
       modifyConfig (set_current None)
   | None => ret tt
   end) ;;
  match play with
  | None =>
      if waitingIfEmpty then ret tt else trigger plays_exhausted
  | Some p =>
      modifyConfig (set_current (Some {| cur_play := p;
                                         cur_canSkip := false;
                                         cur_started := false;
                                         cur_retryCount := 0 |})) ;;
      trigger (play_active p)
  end.

(** The function [_requestNextPlay] passes to [_getClientId().then]. *)
Definition _requestNextPlay_then (delay : option Z) : JS unit :=
  cfg <- getConfig ;;
  match pendingRequest cfg with
  | Some pr =>
      match delay with
      | Some d =>
          if d =? 0 then ret tt
          else if 60000 <? d then
            modifyConfig (set_pendingRequest None) ;;
            cfg <- getConfig ;;
            match current cfg with
            | None => _assignCurrentPlay None false
            | Some _ => ret tt
            end
          else
            modifyConfig (set_pendingRequest
              (Some {| req_ajax := req_ajax pr;
                       req_retryCount := S (req_retryCount pr) |})) ;;
            _signedAjax (POST_play (req_ajax pr) delay)
      | None => ret tt
      end
  | None =>
      o <- fresh ;;
      let ajax :=
        {| ajax_obj := o;
           data_formats := formats cfg;
           data_client_id := clientId cfg;
           data_max_bitrate := maxBitrate cfg;
           data_secure := secure cfg;
           data_placement_id :=
             if truthy (placementId cfg) then placementId cfg else None;
           data_station_id :=
             if truthy (stationId cfg) then stationId cfg else None |} in
      modifyConfig (set_pendingRequest
        (Some {| req_ajax := ajax; req_retryCount := 0 |})) ;;
      _signedAjax (POST_play ajax delay)
  end.

Fixpoint resolve_with (waiting : list (option Z)) : JS unit :=
  match waiting with
  | [] => ret tt
  | delay :: rest => _requestNextPlay_then delay ;; resolve_with rest
  end.

(** The callback [_getClientId] gives to [_requestClientId]. *)
Definition saveClientId (cid : string) : JS unit :=
  modifyConfig (set_clientId (Some cid)) ;;
  setStoredCid (Some cid) ;;
  p <- getClientPromise ;;
  match p with
  | Pending waiting => setClientPromise Resolved ;; resolve_with waiting
  | _ => ret tt
  end.

Definition repeatAfter (delay : option Z) (max : Z) (cb : Z -> Callback)
  : JS unit :=
  let delay := if truthyZ delay
               then match delay with Some d => 2 * d | None => 200 end
               else 200 in
  let delay := if max <? delay then max else delay in
  emit (Delay (cb delay) delay).

Definition _requestClientId (delay : option Z) : JS unit :=
  cid <- getStoredCid ;;
  match cid with
  | Some c => if truthy cid then saveClientId c
              else _signedAjax (POST_client delay)
  | None => _signedAjax (POST_client delay)
  end.

Definition _receiveClientId (delay : option Z) (response : ClientResponse)
  : JS unit :=
  if client_success response then saveClientId (client_id response)
  else repeatAfter delay 2000 Cb_requestClientId.

Definition _failedClientId (delay : option Z) (response : XHR) : JS unit :=
  match has_error 403 19 response with
  | Some message => trigger (not_in_us message)
  | None => repeatAfter delay 2000 Cb_requestClientId
  end.

Definition _getClientId : JS unit :=
  p <- getClientPromise ;;
  match p with
  | NotCreated => setClientPromise (Pending []) ;; _requestClientId None
  | _ => ret tt
  end.

Definition _requestNextPlay (delay : option Z) : JS unit :=
  _getClientId ;;
  p <- getClientPromise ;;
  match p with
  | Resolved => _requestNextPlay_then delay
  | Pending waiting => setClientPromise (Pending (waiting ++ [delay]))
  | NotCreated => ret tt
  end.

(** we received a song to play from the server *)
Definition _receiveNextPlay (ajax : Ajax) (response : PlayResponse)
  : JS unit :=
  cfg <- getConfig ;;
  match pendingRequest cfg with
  | Some pr =>
      if same_ajax (req_ajax pr) ajax then
        modifyConfig (set_pendingRequest None) ;;
        match response with
        | play_success play =>
            match current cfg with
            | Some _ => modifyConfig (set_pendingPlay (Some play))
            | None => _assignCurrentPlay (Some play) false
            end
        | play_failure (Some 9) =>
            match current cfg with
            | Some _ => modifyConfig (set_pendingPlay None)
            | None => trigger plays_exhausted
            end
        | play_failure _ => ret tt
        end
      else ret tt
  | None => ret tt
  end.

(** server returned an error when we requested the next song *)
Definition _failedNextPlay (delay : option Z) (ajax : Ajax) (response : XHR)
  : JS unit :=
  cfg <- getConfig ;;
  match pendingRequest cfg with
  | Some pr =>
      if same_ajax (req_ajax pr) ajax then
        match has_error 403 19 response with
        | Some message => trigger (not_in_us message)
        | None =>
            let delay := if truthyZ delay
                         then match delay with Some d => d * 2 | None => 500 end
                         else 500 in
            emit (Delay (Cb_requestNextPlay delay) delay)
        end
      else ret tt
  | None => ret tt
  end.

Definition _receiveStartPlay (play : Play) (response : StartResponse)
  : JS unit :=
  if start_success response then
    cfg <- getConfig ;;
    match current cfg with
    | Some c =>
        if same_play (cur_play c) play then
          modifyCurrent (set_canSkip (can_skip response)) ;;
          modifyCurrent (set_started true) ;;
          trigger (play_started play) ;;
          _requestNextPlay None
        else ret tt
    | None => ret tt
    end
  else ret tt.

Definition _startPlay (play : Play) : JS unit :=
  cfg <- getConfig ;;
  match current cfg with
  | None => throw "TypeError: this.config.current is null"
  | Some c =>
      if Nat.ltb 2 (cur_retryCount c) then
        _receiveStartPlay play {| start_success := true; can_skip := true |}
      else _signedAjax (POST_start play)
  end.

Definition _failStartPlay (play : Play) (response : XHR) : JS unit :=
  cfg <- getConfig ;;
  match current cfg with
  | Some c =>
      if same_play (cur_play c) play then
        match has_error 403 20 response with
        | Some _ =>
            _receiveStartPlay play
              {| start_success := true; can_skip := true |}
        | None =>
            modifyCurrent (set_retryCount (S (cur_retryCount c))) ;;
            emit (Delay (Cb_startPlay play) 1000)
        end
      else ret tt
  | None => ret tt
  end.

Definition _getDefaultPlacementInformation (delay : option Z) : JS unit :=
  cfg <- getConfig ;;
  let cached :=
    match placementId cfg, placement cfg with
    | Some id, Some p => truthy (Some id) && String.eqb (placement_id p) id
    | _, _ => false
    end in
  if cached then ret tt
  else _signedAjax (GET_placement_default delay).

Definition first_station (l : list Station) : JS unit :=
  cfg <- getConfig ;;
  match stationId cfg, l with
  | None, s :: _ =>
      modifyConfig (set_stationId (Some (station_id s))) ;;
      trigger (station_changed (Some (station_id s)))
  | _, _ => ret tt
  end.

Definition _receiveDefaultPlacementInformation
  (placementInformation : PlacementInformation) : JS unit :=
  match info_success placementInformation,
        info_placement placementInformation with
  | true, Some p =>
      modifyConfig (set_placement (Some p)) ;;
      modifyConfig (set_stations (info_stations placementInformation)) ;;
      modifyConfig (set_placementId (Some (placement_id p))) ;;
      trigger (placement_changed (Some (placement_id p))) ;;
      trigger (placement_event (Some p)) ;;
      first_station (info_stations placementInformation) ;;
      trigger (stations_event (info_stations placementInformation)) ;;
      _requestNextPlay None
  | _, _ => ret tt
  end.

Definition _failedDefaultPlacementInformation (delay : option Z)
  (response : XHR) : JS unit :=
  match has_error 401 5 response with
  | Some _ => trigger invalid_credentials
  | None =>
      let delay := if truthyZ delay
                   then match delay with Some d => d * 2 | None => 500 end
                   else 500 in
      emit (Delay (Cb_getDefaultPlacementInformation delay) delay)
  end.

Definition _getPlacementInformation (delay : option Z) : JS unit :=
  cfg <- getConfig ;;
  match placementId cfg with
  | Some id =>
      if truthy (Some id) then
        match placement cfg with
        | Some p =>
            if String.eqb (placement_id p) id then _requestNextPlay None
            else _signedAjax (GET_placement id delay)
        | None => _signedAjax (GET_placement id delay)
        end
      else throw "no placementId set"
  | None => throw "no placementId set"
  end.

Definition _receivePlacementInformation
  (placementInformation : PlacementInformation) : JS unit :=
  match info_success placementInformation,
        info_placement placementInformation with
  | true, Some p =>
      modifyConfig (set_placement (Some p)) ;;
      modifyConfig (set_stations (info_stations placementInformation)) ;;
      trigger (placement_event (Some p)) ;;
      first_station (info_stations placementInformation) ;;
      trigger (stations_event (info_stations placementInformation)) ;;
      _requestNextPlay None
  | _, _ => ret tt
  end.

Definition _failedPlacementInformation (delay : option Z) : JS unit :=
  let delay := if truthyZ delay
               then match delay with Some d => d * 2 | None => 500 end
               else 500 in
  emit (Delay (Cb_getPlacementInformation delay) delay).

Definition tune : JS unit :=
  cfg <- getConfig ;;
  if negb (truthy (token cfg)) then
    throw "no token set with setCredentials()"
  else if negb (truthy (secret cfg)) then
    throw "no secret set with setCredentials()"
  else
    modifyConfig (set_pendingRequest None) ;;
    modifyConfig (set_pendingPlay None) ;;
    _assignCurrentPlay None true ;;
    if negb (truthy (placementId cfg))
    then _getDefaultPlacementInformation None
    else _getPlacementInformation None.

Definition _retune : JS unit :=
  tuned <- isTuned ;;
  if tuned then tune else ret tt.

Definition setPlacementId (id : string) : JS unit :=
  modifyConfig (set_placementId (Some id)) ;;
  trigger (placement_changed (Some id)) ;;
  _retune.

Definition setStationId (id : string) : JS unit :=
  modifyConfig (set_stationId (Some id)) ;;
  trigger (station_changed (Some id)) ;;
  _retune.

Definition setFormats (f : string) : JS unit :=
  modifyConfig (set_formats f) ;;
  _retune.

Definition setMaxBitrate (rate : Z) : JS unit :=
  modifyConfig (set_maxBitrate rate).

Definition reportPlayStarted : JS unit :=
  cfg <- getConfig ;;
  match current cfg with
  | None =>
      throw "attempt to report a play started, but there is no active play"
  | Some c => _startPlay (cur_play c)
  end.

Definition reportPlayElapsed (seconds : Z) : JS unit :=
  cfg <- getConfig ;;
  match current cfg with
  | None =>
      throw "attempt to report elapsed play time, but the play hasn't started"
  | Some c => _signedAjax (POST_elapse (play_id (cur_play c)) seconds)
  end.

Definition reportPlayCompleted : JS unit :=
  cfg <- getConfig ;;
  match current cfg with
  | Some c =>
      if cur_started c
      then _signedAjax (POST_complete (play_id (cur_play c)))
      else throw "no active or playing song"
  | None => throw "no active or playing song"
  end.

Definition _receivePlayCompleted : JS unit :=
  cfg <- getConfig ;;
  match pendingRequest cfg with
  | None =>
      let pendingPlay := pendingPlay cfg in
      modifyConfig (set_pendingPlay None) ;;
      _assignCurrentPlay pendingPlay false
  | Some _ => _assignCurrentPlay None true
  end.

Definition requestSkip : JS unit :=
  cfg <- getConfig ;;
  match current cfg with
  | None => throw "No song being played"
  | Some c =>
      if negb (cur_started c) then throw "No song has been started"
      else if negb (cur_canSkip c) then trigger skip_denied
      else _signedAjax (POST_skip (cur_play c))
  end.

Definition _sendInvalidate (play : Play) (delay : option Z) : JS unit :=
  _signedAjax (POST_invalidate play delay).

Definition requestInvalidate : JS unit :=
  cfg <- getConfig ;;
  match current cfg with
  | None => throw "No active song to invalidate!"
  | Some c => _sendInvalidate (cur_play c) None
  end.

Definition _failInvalidate (delay : option Z) (play : Play) : JS unit :=
  let delay := if truthyZ delay
               then match delay with Some d => d * 2 | None => 200 end
               else 200 in
  if delay <? 3000 then emit (Delay (Cb_sendInvalidate play) delay)
  else ret tt.

Definition _receiveInvalidate (play : Play) (success : bool) : JS unit :=
  cfg <- getConfig ;;
  match current cfg with
  | None => ret tt
  | Some c =>
      if negb (same_play (cur_play c) play) then ret tt
      else if negb success then ret tt
      else
        match pendingPlay cfg with
        | Some pendingPlay =>
            modifyConfig (set_pendingPlay None) ;;
            _assignCurrentPlay (Some pendingPlay) false
        | None =>
            _assignCurrentPlay None true ;;
            cfg <- getConfig ;;
            match pendingRequest cfg with
            | None => _requestNextPlay None
            | Some _ => ret tt
            end
        end
  end.

Definition _failSkip (play : Play) : JS unit :=
  cfg <- getConfig ;;
  match current cfg with
  | None => ret tt
  | Some c =>
      if negb (same_play (cur_play c) play) then ret tt
      else trigger skip_denied
  end.

Definition _receiveSkip (play : Play) (success : bool) : JS unit :=
  cfg <- getConfig ;;
  match current cfg with
  | None => ret tt
  | Some c =>
      if negb (same_play (cur_play c) play) then ret tt
      else if negb success then trigger skip_denied
      else
        match pendingPlay cfg, pendingRequest cfg with
        | Some pendingPlay, _ =>
            modifyConfig (set_pendingPlay None) ;;
            _assignCurrentPlay (Some pendingPlay) false
        | None, Some _ => _assignCurrentPlay None true
        | None, None => _assignCurrentPlay None false
        end
  end.

(** [current.play.liked = v] when the current play has the given id. *)
Definition mark_liked (playId : string) (v : option bool) : JS unit :=
  cfg <- getConfig ;;
  match current cfg with
  | Some c =>
      if String.eqb (play_id (cur_play c)) playId
      then modifyCurrent (set_liked v)
      else ret tt
  | None => ret tt
  end.

Definition likePlay (playId : string) : JS unit :=
  _signedAjax (POST_like playId) ;; mark_liked playId (Some true).

Definition unlikePlay (playId : string) : JS unit :=
  _signedAjax (DELETE_like playId) ;; mark_liked playId None.

Definition dislikePlay (playId : string) : JS unit :=
  _signedAjax (POST_dislike playId) ;; mark_liked playId (Some false).

(** Save the current state of the session; [startPosition] is the
    playback offset of the active play in milliseconds. *)
Definition suspend (startPosition : Z) : JS Saved :=
  cfg <- getConfig ;;
  let pid := if truthy (placementId cfg) then placementId cfg else None in
  let sid := if truthy (stationId cfg) then stationId cfg else None in
  match current cfg with
  | Some c =>
      if cur_started c then
        o <- fresh ;;
        ret {| saved_placementId := pid;
               saved_stationId := sid;
               saved_placement := placement cfg;
               saved_stations := stations cfg;
               saved_play :=
                 Some {| play_obj := o;
                         play_id := play_id (cur_play c);
                         audio_file_url := audio_file_url (cur_play c);
                         liked := liked (cur_play c);
                         startPosition := Some startPosition |};
               saved_canSkip := cur_canSkip c |}
      else
        ret {| saved_placementId := pid; saved_stationId := sid;
               saved_placement := None; saved_stations := [];
               saved_play := None; saved_canSkip := false |}
  | None =>
      ret {| saved_placementId := pid; saved_stationId := sid;
             saved_placement := None; saved_stations := [];
             saved_play := None; saved_canSkip := false |}
  end.

(** Restore a saved session; returns the restored play, if any. *)
Definition unsuspend (saved : Saved) : JS (option Play) :=
  active <- getActivePlay ;;
  match active with
  | Some _ => throw "You cannot unsuspend after running tune()"
  | None =>
      (match saved_placementId saved with
       | Some id =>
           modifyConfig (set_placementId (Some id)) ;;
           trigger (placement_changed (Some id))
       | None => ret tt
       end) ;;
      (match saved_stationId saved with
       | Some id =>
           modifyConfig (set_stationId (Some id)) ;;
           trigger (station_changed (Some id))
       | None => ret tt
       end) ;;
      match saved_play saved with
      | Some play =>
          modifyConfig (set_placement (saved_placement saved)) ;;
          modifyConfig (set_stations (saved_stations saved)) ;;
          trigger (placement_event (saved_placement saved)) ;;
          trigger (stations_event (saved_stations saved)) ;;
          _assignCurrentPlay (Some play) false ;;
          _receiveStartPlay play
            {| start_success := true; can_skip := saved_canSkip saved |} ;;
          ret (Some play)
      | None => tune ;; ret None
      end
  end.

End Listeners.
End Session.

(** ** feed/speaker: the part the player drives *)

Module Speaker.

(** [speaker.create(url, callbacks)] *)
Definition create (url : string) (startPosition : option Z)
  (playId : string) : JS Sound :=
  id <- fresh ;;
  let sound := {| sound_id := id; sound_url := url;
                  sound_startPosition := startPosition;
                  sound_playId := playId |} in
  (fun w => (Return tt, with_outstandingPlays (fun l => l ++ [id]) w)) ;;
  emit (SpeakerCreate sound) ;;
  ret sound.

Definition forget (s : Sound) : JS unit :=
  fun w => (Return tt,
            with_outstandingPlays
              (filter (fun id => negb (Nat.eqb id (sound_id s)))) w).

(** [sound.destroy()] *)
Definition destroy (s : Sound) : JS unit :=
  forget s ;; emit (SoundDestroy s).

Definition play (s : Sound) : JS unit := emit (SoundPlay s).
Definition pause (s : Sound) : JS unit := emit (SoundPause s).
Definition resume (s : Sound) : JS unit := emit (SoundResume s).

(** Where [Sound.play] starts playback: it seeks to [startPosition] when
    that is set and truthy, and plays from the beginning otherwise. *)
Definition start_offset (s : Sound) : Z :=
  if truthyZ (sound_startPosition s)
  then match sound_startPosition s with Some p => p | None => 0 end
  else 0.

End Speaker.

(** ** feed/player *)

Module Player.

Definition set_paused (v : bool) (s : PlayerState) : PlayerState :=
  {| paused := v; suspended := suspended s; activePlay := activePlay s |}.

Definition set_suspended (v : bool) (s : PlayerState) : PlayerState :=
  {| paused := paused s; suspended := v; activePlay := activePlay s |}.

Definition trigger (e : PlayerEvent) : JS unit := emit (PlayerTrigger e).

(** [state.activePlay] when it is the binding of [playId]. *)
Definition binding_of (playId : string) (s : PlayerState)
  : option ActivePlay :=
  match activePlay s with
  | Some ap => if String.eqb (ap_id ap) playId then Some ap else None
  | None => None
  end.

Definition _onPlayActive (play : Play) : JS unit :=
  sound <- Speaker.create (audio_file_url play)
             (if truthyZ (startPosition play) then startPosition play
              else None)
             (play_id play) ;;
  modifyState (set_activePlay
    (Some {| ap_id := play_id play;
             ap_sound := sound;
             startReportedToServer := false;
             soundCompleted := false;
             soundCompletedWithError := false;
             playStarted := false;
             previousPosition := 0 |})) ;;
  st <- getState ;;
  if negb (paused st) then Speaker.play sound else ret tt.

Definition _onPlayStarted (play : Play) : JS unit :=
  st <- getState ;;
  match binding_of (play_id play) st with
  | None => ret tt
  | Some ap =>
      modifyActivePlay (set_startReportedToServer true) ;;
      if soundCompleted ap then
        if soundCompletedWithError ap
        then emit (Defer Cb_requestInvalidate)
        else emit (Defer Cb_reportPlayCompleted)
      else ret tt
  end.

Definition _onPlayCompleted (play : Play) : JS unit :=
  st <- getState ;;
  match binding_of (play_id play) st with
  | None => ret tt
  | Some ap =>
      Speaker.destroy (ap_sound ap) ;;
      modifyState (set_activePlay None) ;;
      modifyState (set_paused false)
  end.

Definition _onPlaysExhausted : JS unit := modifyState (set_paused false).

(** The callbacks the constructor registers on its session; the
    [all] callback comes last and is not recorded in the trace. *)
Definition listeners (e : SessionEvent) : JS unit :=
  match e with
  | play_active play => _onPlayActive play
  | play_started play => _onPlayStarted play
  | play_completed play => _onPlayCompleted play
  | plays_exhausted => _onPlaysExhausted
  | _ => ret tt
  end.

Definition session_trigger := Session.trigger listeners.
Definition session_tune := Session.tune listeners.

Definition setPlacementId (id : string) : JS unit :=
  Session.setPlacementId listeners id.

Definition setStationId (id : string) : JS unit :=
  Session.setStationId listeners id.

Definition getActivePlay : JS (option Play) := Session.getActivePlay.
Definition hasActivePlayStarted : JS bool := Session.hasActivePlayStarted.
Definition maybeCanSkip : JS bool := Session.maybeCanSkip.

Definition _onSoundPlay (playId : string) : JS unit :=
  st <- getState ;;
  match binding_of playId st with
  | None => ret tt
  | Some ap =>
      modifyState (set_paused false) ;;
      modifyActivePlay (set_playStarted true) ;;
      if negb (startReportedToServer ap)
      then Session.reportPlayStarted listeners
      else trigger play_resumed
  end.

Definition _onSoundPause (playId : string) : JS unit :=
  st <- getState ;;
  match binding_of playId st with
  | None => ret tt
  | Some _ =>
      modifyState (set_paused true) ;;
      trigger play_paused
  end.

Definition _onSoundFinish (playId : string) (withError : bool) : JS unit :=
  st <- getState ;;
  match binding_of playId st with
  | None => ret tt
  | Some ap =>
      modifyActivePlay (set_soundCompleted true) ;;
      (if withError then modifyActivePlay (set_soundCompletedWithError true)
       else ret tt) ;;
      if negb (playStarted ap) then Session.requestInvalidate
      else if negb (startReportedToServer ap) then ret tt
      else if withError then Session.requestInvalidate
      else Session.reportPlayCompleted
  end.

(** [position] is what [sound.position()] returns. *)
Definition _onSoundElapse (playId : string) (position : Z) : JS unit :=
  st <- getState ;;
  match binding_of playId st with
  | None => ret tt
  | Some ap =>
      let interval := 30 * 1000 in
      let previousCount := previousPosition ap / interval in
      let currentCount := position / interval in
      modifyActivePlay (set_previousPosition position) ;;
      if negb (currentCount =? previousCount)
      then Session.reportPlayElapsed (position / 1000)
      else ret tt
  end.

Definition isPaused : JS bool :=
  tuned <- Session.isTuned ;;
  st <- getState ;;
  ret (tuned && paused st).

(** The body run once the speaker is initialised. *)
Definition tune : JS unit :=
  tuned <- Session.isTuned ;;
  if negb tuned then session_tune else ret tt.

Definition play : JS unit :=
  emit InitializeForMobile ;;
  tuned <- Session.isTuned ;;
  if negb tuned then
    modifyState (set_paused false) ;;
    session_tune
  else
    active <- Session.getActivePlay ;;
    st <- getState ;;
    match active, activePlay st with
    | Some _, Some ap =>
        if paused st then
          if playStarted ap then Speaker.resume (ap_sound ap)
          else Speaker.play (ap_sound ap)
        else ret tt
    | _, _ => ret tt
    end.

Definition pause : JS unit :=
  started <- Session.hasActivePlayStarted ;;
  st <- getState ;;
  match activePlay st with
  | Some ap =>
      if negb started || paused st then ret tt
      else Speaker.pause (ap_sound ap)
  | None => ret tt
  end.

Definition active_id : JS string :=
  st <- getState ;;
  match activePlay st with
  | Some ap => ret (ap_id ap)
  | None => throw "TypeError: this.state.activePlay is undefined"
  end.

Definition like : JS unit :=
  started <- Session.hasActivePlayStarted ;;
  if negb started then ret tt
  else
    id <- active_id ;;
    Session.likePlay id ;;
    trigger play_liked.

Definition unlike : JS unit :=
  started <- Session.hasActivePlayStarted ;;
  if negb started then ret tt
  else
    id <- active_id ;;
    Session.unlikePlay id ;;
    trigger play_unliked.

Definition skip : JS unit :=
  started <- Session.hasActivePlayStarted ;;
  if negb started then ret tt
  else Session.requestSkip listeners.

Definition dislike : JS unit :=
  started <- Session.hasActivePlayStarted ;;
  if negb started then ret tt
  else
    id <- active_id ;;
    Session.dislikePlay id ;;
    trigger play_disliked ;;
    skip.

Inductive CurrentState := st_suspended | st_idle | st_paused | st_playing.

Definition getCurrentState : JS CurrentState :=
  st <- getState ;;
  started <- Session.hasActivePlayStarted ;;
  if suspended st then ret st_suspended
  else if negb started then ret st_idle
  else if paused st then ret st_paused
  else ret st_playing.

(** [position] is what [sound.position()] returns for the active sound. *)
Definition suspend (position : Z) : JS Saved :=
  st <- getState ;;
  saved <- Session.suspend
             (match activePlay st with Some _ => position | None => 0 end) ;;
  pause ;;
  modifyState (set_suspended true) ;;
  trigger suspend_event ;;
  ret saved.

Definition unsuspend (saved : Saved) (startPlayback : bool) : JS unit :=
  Session.unsuspend listeners saved ;;
  if startPlayback then play else ret tt.

End Player.

(** ** The page: a player, its session and the speaker *)

(** What a [Sound] passes to the callbacks given in its options. *)
Inductive SoundCallback :=
| on_play
| on_pause
| on_finish (withError : bool)
| on_elapse (position : Z).

(** Calls of the public interface of the player and of its session. *)
Inductive Api :=
| player_setPlacementId (id : string)
| player_setStationId (id : string)
| player_tune
| player_play
| player_pause
| player_like
| player_unlike
| player_dislike
| player_skip
| player_suspend (position : Z)
| player_unsuspend (saved : Saved) (startPlayback : bool)
| session_setCredentials (tok sec : string)
| session_setFormats (f : string)
| session_setMaxBitrate (rate : Z)
| session_tune
| session_reportPlayStarted
| session_reportPlayElapsed (seconds : Z)
| session_reportPlayCompleted
| session_requestSkip
| session_requestInvalidate
| session_likePlay (playId : string)
| session_unlikePlay (playId : string)
| session_dislikePlay (playId : string)
| session_suspend (startPosition : Z)
| session_unsuspend (saved : Saved).

Inductive Input :=
| placement_default_done (info : PlacementInformation)
| placement_default_fail (delay : option Z) (response : XHR)
| placement_done (info : PlacementInformation)
| placement_fail (delay : option Z)
| client_done (delay : option Z) (response : ClientResponse)
| client_fail (delay : option Z) (response : XHR)
| play_done (ajax : Ajax) (response : PlayResponse)
| play_fail (delay : option Z) (ajax : Ajax) (response : XHR)
| start_done (play : Play) (response : StartResponse)
| start_fail (play : Play) (response : XHR)
| complete_always
| skip_done (play : Play) (success : bool)
| skip_fail (play : Play)
| invalidate_done (play : Play) (success : bool)
| invalidate_fail (delay : option Z) (play : Play)
| timer (cb : Callback)
| sound (s : Sound) (e : SoundCallback)
| call (c : Api).

Definition ignore {A} (m : JS A) : JS unit := m ;; ret tt.

Definition fire (cb : Callback) : JS unit :=
  match cb with
  | Cb_getDefaultPlacementInformation delay =>
      Session._getDefaultPlacementInformation (Some delay)
  | Cb_getPlacementInformation delay =>
      Session._getPlacementInformation Player.listeners (Some delay)
  | Cb_requestClientId delay =>
      Session._requestClientId Player.listeners (Some delay)
  | Cb_requestNextPlay delay =>
      Session._requestNextPlay Player.listeners (Some delay)
  | Cb_startPlay play => Session._startPlay Player.listeners play
  | Cb_sendInvalidate play => Session._sendInvalidate play None
  | Cb_requestInvalidate => Session.requestInvalidate
  | Cb_reportPlayCompleted => Session.reportPlayCompleted
  end.

(** The callbacks [_createAndAssignSM2Sound] installs: [onfinish] forgets
    the sound before it reports the finish; a failed load or a data error
    reports a finish with the error flag and then destroys the sound.  A
    sound that is no longer outstanding has no engine object left to call
    back. *)
Definition engine (s : Sound) (e : SoundCallback) : JS unit :=
  fun w =>
    if existsb (Nat.eqb (sound_id s)) (outstandingPlays w) then
      match e with
      | on_play => Player._onSoundPlay (sound_playId s) w
      | on_pause => Player._onSoundPause (sound_playId s) w
      | on_finish false =>
          (Speaker.forget s ;;
           Player._onSoundFinish (sound_playId s) false) w
      | on_finish true =>
          (Player._onSoundFinish (sound_playId s) true ;;
           Speaker.destroy s) w
      | on_elapse position =>
          Player._onSoundElapse (sound_playId s) position w
      end
    else (Return tt, w).

Definition api (c : Api) : JS unit :=
  match c with
  | player_setPlacementId id => Player.setPlacementId id
  | player_setStationId id => Player.setStationId id
  | player_tune => Player.tune
  | player_play => Player.play
  | player_pause => Player.pause
  | player_like => Player.like
  | player_unlike => Player.unlike
  | player_dislike => Player.dislike
  | player_skip => Player.skip
  | player_suspend position => ignore (Player.suspend position)
  | player_unsuspend saved startPlayback =>
      Player.unsuspend saved startPlayback
  | session_setCredentials tok sec => Session.setCredentials tok sec
  | session_setFormats f => Session.setFormats Player.listeners f
  | session_setMaxBitrate rate => Session.setMaxBitrate rate
  | session_tune => Session.tune Player.listeners
  | session_reportPlayStarted => Session.reportPlayStarted Player.listeners
  | session_reportPlayElapsed seconds => Session.reportPlayElapsed seconds
  | session_reportPlayCompleted => Session.reportPlayCompleted
  | session_requestSkip => Session.requestSkip Player.listeners
  | session_requestInvalidate => Session.requestInvalidate
  | session_likePlay id => Session.likePlay id
  | session_unlikePlay id => Session.unlikePlay id
  | session_dislikePlay id => Session.dislikePlay id
  | session_suspend startPosition => ignore (Session.suspend startPosition)
  | session_unsuspend saved =>
      ignore (Session.unsuspend Player.listeners saved)
  end.

(** The handler an input runs. *)
Definition handler (i : Input) : JS unit :=
  match i with
  | placement_default_done info =>
      Session._receiveDefaultPlacementInformation Player.listeners info
  | placement_default_fail delay response =>
      Session._failedDefaultPlacementInformation Player.listeners delay
        response
  | placement_done info =>
      Session._receivePlacementInformation Player.listeners info
  | placement_fail delay => Session._failedPlacementInformation delay
  | client_done delay response =>
      Session._receiveClientId Player.listeners delay response
  | client_fail delay response =>
      Session._failedClientId Player.listeners delay response
  | play_done ajax response =>
      Session._receiveNextPlay Player.listeners ajax response
  | play_fail delay ajax response =>
      Session._failedNextPlay Player.listeners delay ajax response
  | start_done play response =>
      Session._receiveStartPlay Player.listeners play response
  | start_fail play response =>
      Session._failStartPlay Player.listeners play response
  | complete_always => Session._receivePlayCompleted Player.listeners
  | skip_done play success =>
      Session._receiveSkip Player.listeners play success
  | skip_fail play => Session._failSkip Player.listeners play
  | invalidate_done play success =>
      Session._receiveInvalidate Player.listeners play success
  | invalidate_fail delay play => Session._failInvalidate delay play
  | timer cb => fire cb
  | sound s e => engine s e
  | call c => api c
  end.

Definition step (i : Input) (w : World) : World := exec (handler i) w.

Fixpoint run (inputs : list Input) (w : World) : World :=
  match inputs with
  | [] => w
  | i :: rest => run rest (step i w)
  end.

(** [new Session(token, secret, options)] *)
Definition new_Session (tok sec : option string) (options_secure : bool)
  : Config :=
  let both := truthy tok && truthy sec in
  {| token := if both then tok else None;
     secret := if both then sec else None;
     placementId := None; placement := None; stationId := None;
     stations := []; clientId := None; secure := options_secure;
     formats := "mp3,aac"; maxBitrate := 128;
     current := None; pendingRequest := None; pendingPlay := None |}.

(** [new Player(token, secret, options)], in a page whose local storage
    holds [cid]. *)
Definition new_Player (tok sec : option string) (options_secure : bool)
  (cid : option string) : World :=
  {| config := new_Session tok sec options_secure;
     clientPromise := NotCreated;
     storedCid := cid;
     state := {| paused := true; suspended := false; activePlay := None |};
     outstandingPlays := [];
     heap := 0%nat;
     trace := [] |}.

(** * Specification vocabulary *)

(** A handler respects a preorder on worlds when the world it leaves,
    returning or throwing, is related to the one it started from. *)
Definition respects (R : World -> World -> Prop) {A} (m : JS A) : Prop :=
  forall w, R w (exec m w).

(** ** The invariant *)

(** [replay open t] follows the [play-active] and [play-completed] events of
    a trace from a session whose active play is [open] (an object identity);
    it fails when a play becomes active while another still is, or when a
    completion names a play that is not the active one. *)
Fixpoint replay (open : option ObjId) (t : list Effect)
  : option (option ObjId) :=
  match t with
  | [] => Some open
  | Trigger (play_active p) :: t' =>
      match open with
      | None => replay (Some (play_obj p)) t'
      | Some _ => None
      end
  | Trigger (play_completed p) :: t' =>
      match open with
      | Some o => if Nat.eqb o (play_obj p) then replay None t' else None
      | None => None
      end
  | _ :: t' => replay open t'
  end.

(** The identity of the current play. *)
Definition current_obj (w : World) : option ObjId :=
  match current (config w) with
  | Some c => Some (play_obj (cur_play c))
  | None => None
  end.

(** The announcements of the session alternate and end with the current
    play; the player binds a play exactly when the session has a current
    one, and it is that one; the speaker holds at most the sound of the
    binding. *)
Record Inv (w : World) : Prop := {
  inv_trace : replay None (trace w) = Some (current_obj w);
  inv_binding :
    match current (config w), activePlay (state w) with
    | None, None => True
    | Some c, Some ap => ap_id ap = play_id (cur_play c)
    | _, _ => False
    end;
  inv_sounds :
    match activePlay (state w) with
    | None => outstandingPlays w = []
    | Some ap => outstandingPlays w = [] \/
                 outstandingPlays w = [sound_id (ap_sound ap)]
    end
}.

(** Keeping the invariant. *)
Definition R_inv (w w' : World) : Prop := Inv w -> Inv w'.

Abbreviation preserves := (respects R_inv).

(** ** Which inputs move the pending play into the current slot *)

(** A handler frames the play slots when it leaves the pending play and the
    identity of the current play as they were. *)
Definition R_frame (w w' : World) : Prop :=
  pendingPlay (config w') = pendingPlay (config w) /\
  current_obj w' = current_obj w.

Abbreviation frames := (respects R_frame).

(** The pending play of [w] is the current play of [w'], and was not
    current before. *)
Definition promotes (w w' : World) : Prop :=
  exists q,
    pendingPlay (config w) = Some q /\
    pendingPlay (config w') = None /\
    current_obj w' = Some (play_obj q) /\
    current_obj w <> current_obj w'.

(** The inputs that retire the current play: the reply to a completion
    report, a granted skip and an acknowledged invalidation. *)
Definition retires (i : Input) : bool :=
  match i with
  | complete_always => true
  | skip_done _ true => true
  | invalidate_done _ true => true
  | _ => false
  end.

(** Ways in which a step cannot be a promotion. *)
Definition harmless (w w' : World) : Prop :=
  pendingPlay (config w') = pendingPlay (config w) \/
  pendingPlay (config w') <> None \/
  current_obj w' = current_obj w \/
  current_obj w' = None.

(** Keeping the pending play. *)
Definition R_pp (w w' : World) : Prop :=
  pendingPlay (config w') = pendingPlay (config w).

(** Ending with no current play, or framing the slots. *)
Definition R_tune (w w' : World) : Prop :=
  current_obj w' = None \/ R_frame w w'.

(** ** Handlers that leave the two play slots alone *)

(** The current record and the pending play are as they were. *)
Definition R_slots (w w' : World) : Prop :=
  current (config w') = current (config w) /\
  pendingPlay (config w') = pendingPlay (config w).

(** ** Handlers that add no effect of a given kind to the trace *)

(** No effect selected by [sel] was added to the trace. *)
Definition R_quiet (sel : Effect -> bool) (w w' : World) : Prop :=
  filter sel (trace w') = filter sel (trace w).

(** Requests and timers of the start acknowledgment, and the
    [play-started] event. *)
Definition is_start (e : Effect) : bool :=
  match e with
  | SignedAjax (POST_start _) => true
  | Delay (Cb_startPlay _) _ => true
  | Trigger (play_started _) => true
  | _ => false
  end.

(** The [play-started] event, and completion and invalidation, reported at
    once or deferred. *)
Definition is_report (e : Effect) : bool :=
  match e with
  | Trigger (play_started _) => true
  | SignedAjax (POST_complete _) => true
  | SignedAjax (POST_invalidate _ _) => true
  | Defer _ => true
  | _ => false
  end.

(** Requests and timers of the next-play request, and the announcement
    that nothing is left to play. *)
Definition is_next (e : Effect) : bool :=
  match e with
  | SignedAjax (POST_play _ _) => true
  | Delay (Cb_requestNextPlay _) _ => true
  | Trigger plays_exhausted => true
  | _ => false
  end.

(** ** The start-acknowledgment race (C3) *)

(** The binding after its sound finished before the start was
    acknowledged. *)
Definition after_finish (withError : bool) (ap : ActivePlay) : ActivePlay :=
  if withError
  then set_soundCompletedWithError true (set_soundCompleted true ap)
  else set_soundCompleted true ap.

(** The report [_onPlayStarted] defers for a binding whose sound has
    finished. *)
Definition deferred_report (ap : ActivePlay) : Callback :=
  if soundCompletedWithError ap then Cb_requestInvalidate
  else Cb_reportPlayCompleted.

(** The record [_assignCurrentPlay] makes for a play that becomes current. *)
Definition new_current (play : Play) : Current :=
  {| cur_play := play; cur_started := false; cur_canSkip := false;
     cur_retryCount := 0 |}.

(** ** Elapsed-time reports (C7) *)

(** The world after [_onSoundElapse] for the active binding [ap] when the
    sound is at [position]. *)
Definition after_elapse (ap : ActivePlay) (c : Current) (position : Z)
  (w : World) : World :=
  let w1 := with_state
              (set_activePlay (Some (set_previousPosition position ap))) w in
  if position / 30000 =? previousPosition ap / 30000 then w1
  else with_trace
         (fun t => t ++ [SignedAjax (POST_elapse (play_id (cur_play c))
                                       (position / 1000))]) w1.

(** Feeds the positions of successive elapse callbacks to the player. *)
Definition elapse_all (playId : string) (positions : list Z) (w : World)
  : World :=
  fold_left (fun w position => exec (Player._onSoundElapse playId position) w)
    positions w.

(** The reports expected for a sequence of positions, given the position
    recorded before it. *)
Fixpoint elapse_reports (playId : string) (previous : Z) (positions : list Z)
  : list Effect :=
  match positions with
  | [] => []
  | position :: rest =>
      (if position / 30000 =? previous / 30000 then []
       else [SignedAjax (POST_elapse playId (position / 1000))])
      ++ elapse_reports playId position rest
  end.

(** ** Completion with a stranded pending play (C6) *)

Module Stranded.

Definition play_a : Play :=
  {| play_obj := 100%nat; play_id := "a"; audio_file_url := "a.mp3";
     liked := None; startPosition := None |}.

Definition play_b : Play :=
  {| play_obj := 101%nat; play_id := "b"; audio_file_url := "b.mp3";
     liked := None; startPosition := None |}.

Definition info : PlacementInformation :=
  {| info_success := true;
     info_placement := Some {| placement_id := "p" |};
     info_stations := [ {| station_id := "s" |} ] |}.

(** The options object of the n-th allocation. *)
Definition ajax (n : ObjId) : Ajax :=
  {| ajax_obj := n; data_formats := "mp3,aac";
     data_client_id := Some "cid"; data_max_bitrate := 128;
     data_secure := false; data_placement_id := Some "p";
     data_station_id := Some "s" |}.

Definition sound_a : Sound :=
  {| sound_id := 1%nat; sound_url := "a.mp3"; sound_startPosition := None;
     sound_playId := "a" |}.

Definition granted : StartResponse :=
  {| start_success := true; can_skip := true |}.

(** Play starts, is paused and resumed before the first start report is
    acknowledged, so two start reports are in flight; the prefetched play
    arrives between their acknowledgments, and the second acknowledgment
    requests yet another play.  Then the song ends. *)
Definition inputs : list Input :=
  [ call player_play;
    placement_default_done info;
    play_done (ajax 0%nat) (play_success play_a);
    sound sound_a on_play;
    sound sound_a on_pause;
    sound sound_a on_play;
    start_done play_a granted;
    play_done (ajax 2%nat) (play_success play_b);
    start_done play_a granted;
    sound sound_a (on_finish false);
    complete_always ].

Definition before : World :=
  run (removelast inputs)
    (new_Player (Some "token") (Some "secret") false (Some "cid")).

Definition after : World := step complete_always before.

End Stranded.

(** The [play-active] events. *)
Definition is_play_active (e : Effect) : bool :=
  match e with
  | Trigger (play_active _) => true
  | _ => false
  end.

(** ** Rejecting the start report (C5) *)

(** What the page handed to the outside last. *)
Definition last_effect (w : World) : option Effect :=
  match rev (trace w) with
  | e :: _ => Some e
  | [] => None
  end.

(** The start report that was just sent is rejected with [response], and
    the timer this sets, if any, is let to fire. *)
Definition reject_start (response : XHR) (w : World) : World :=
  match last_effect w with
  | Some (SignedAjax (POST_start play)) =>
      let w1 := step (start_fail play response) w in
      match last_effect w1 with
      | Some (Delay cb _) => step (timer cb) w1
      | _ => w1
      end
  | _ => w
  end.

(** ** Retrying the next-play request (C2) *)

(** [delay ? delay * 2 : 500] *)
Definition backoff (delay : option Z) : Z :=
  if truthyZ delay then match delay with Some d => d * 2 | None => 500 end
  else 500.

(** [pendingRequest.retryCount++] *)
Definition retried (pr : PendingRequest) : PendingRequest :=
  {| req_ajax := req_ajax pr; req_retryCount := S (req_retryCount pr) |}.

(** The next-play request that was just sent is rejected with [response],
    and the timer this sets, if any, is let to fire. *)
Definition reject_next (response : XHR) (w : World) : World :=
  match last_effect w with
  | Some (SignedAjax (POST_play ajax delay)) =>
      let w1 := step (play_fail delay ajax response) w in
      match last_effect w1 with
      | Some (Delay cb _) => step (timer cb) w1
      | _ => w1
      end
  | _ => w
  end.

(** Every response in turn rejects the request that is in flight. *)
Definition reject_all (responses : list XHR) (w : World) : World :=
  fold_left (fun w response => reject_next response w) responses w.

(** The timers and retries of [n] failed attempts, the first of which
    waits [d] milliseconds. *)
Fixpoint backoff_trace (ajax : Ajax) (d : Z) (n : nat) : list Effect :=
  match n with
  | O => []
  | S n =>
      Delay (Cb_requestNextPlay d) d
      :: SignedAjax (POST_play ajax (Some d))
      :: backoff_trace ajax (d * 2) n
  end.

(** The delay of the [n]-th retry after a first one of [d]. *)
Fixpoint nth_delay (d : Z) (n : nat) : Z :=
  match n with
  | O => d
  | S n => nth_delay (d * 2) n
  end.

(** The first [n] delays, starting from [d], stay within the cap. *)
Fixpoint within_cap (d : Z) (n : nat) : Prop :=
  match n with
  | O => True
  | S n => d <= 60000 /\ within_cap (d * 2) n
  end.

(** The world after [_requestNextPlay] gave up on its pending request. *)
Definition idle_world (w : World) : World :=
  match current (config w) with
  | None =>
      with_state (Player.set_paused false)
        (with_trace (fun t => t ++ [Trigger plays_exhausted])
           (with_config (set_pendingRequest None) w))
  | Some _ => with_config (set_pendingRequest None) w
  end.

(** What giving up announces: [plays-exhausted] unless a play is current. *)
Definition announces_idle (w : World) : list Effect :=
  match current (config w) with
  | None => [Trigger plays_exhausted]
  | Some _ => []
  end.

(** ** Suspending and restoring (C8) *)

(** The events [play-active] and [play-started]. *)
Definition is_activation (e : Effect) : bool :=
  match e with
  | Trigger (play_active _) => true
  | Trigger (play_started _) => true
  | _ => false
  end.

(** The sounds the player asks the speaker to create. *)
Definition is_create (e : Effect) : bool :=
  match e with
  | SpeakerCreate _ => true
  | _ => false
  end.

(** The sound [_onPlayActive] creates for a play when the next free object
    identity is [id]. *)
Definition sound_for (id : ObjId) (play : Play) : Sound :=
  {| sound_id := id;
     sound_url := audio_file_url play;
     sound_startPosition :=
       if truthyZ (startPosition play) then startPosition play else None;
     sound_playId := play_id play |}.

(** The world after a play became active in a session that had none. *)
Definition activated (play : Play) (w : World) : World :=
  let s := sound_for (heap w) play in
  let w1 :=
    with_state
      (set_activePlay
         (Some {| ap_id := play_id play; ap_sound := s;
                  startReportedToServer := false; soundCompleted := false;
                  soundCompletedWithError := false; playStarted := false;
                  previousPosition := 0 |}))
      (with_trace (fun t => t ++ [SpeakerCreate s])
         (with_outstandingPlays (fun l => l ++ [heap w])
            (with_heap (S (heap w))
               (with_trace (fun t => t ++ [Trigger (play_active play)])
                  (with_config (set_current (Some (new_current play))) w))))) in
  if paused (state w) then w1
  else with_trace (fun t => t ++ [SoundPlay s]) w1.

(** The world in which a restored play has been announced as started. *)
Definition restored (play : Play) (canSkip : bool) (w : World) : World :=
  with_state
    (fun s => set_activePlay
                (option_map (set_startReportedToServer true) (activePlay s)) s)
    (with_trace (fun t => t ++ [Trigger (play_started play)])
       (with_config
          (set_current
             (Some (set_started true (set_canSkip canSkip (new_current play)))))
          (activated play w))).

(** Restoring the identity of the session announces placement and station
    but no play. *)
Definition restore_identity (saved : Saved) : JS unit :=
  (match saved_placementId saved with
   | Some id =>
       modifyConfig (set_placementId (Some id)) ;;
       Session.trigger Player.listeners (placement_changed (Some id))
   | None => ret tt
   end) ;;
  (match saved_stationId saved with
   | Some id =>
       modifyConfig (set_stationId (Some id)) ;;
       Session.trigger Player.listeners (station_changed (Some id))
   | None => ret tt
   end) ;;
  modifyConfig (set_placement (saved_placement saved)) ;;
  modifyConfig (set_stations (saved_stations saved)) ;;
  Session.trigger Player.listeners (placement_event (saved_placement saved)) ;;
  Session.trigger Player.listeners (stations_event (saved_stations saved)).

(** ** A page that plays *)

Module Playing.

Definition fresh_page : World :=
  new_Player (Some "token") (Some "secret") false (Some "cid").

(** The page was told to play and has asked for its first play. *)
Definition requested : World :=
  run [ call player_play; placement_default_done Stranded.info ] fresh_page.

(** The first play has begun to sound; its start report is in flight. *)
Definition began : World :=
  run [ call player_play;
        placement_default_done Stranded.info;
        play_done (Stranded.ajax 0%nat) (play_success Stranded.play_a);
        sound Stranded.sound_a on_play ] fresh_page.

(** The start was acknowledged; the next play has been requested. *)
Definition acknowledged : World :=
  step (start_done Stranded.play_a Stranded.granted) began.

(** The next play has arrived and waits. *)
Definition prefetched : World :=
  step (play_done (Stranded.ajax 2%nat) (play_success Stranded.play_b))
    acknowledged.

(** The first play sounds to its end while the next one waits. *)
Definition script : list Input :=
  [ call player_play;
    placement_default_done Stranded.info;
    play_done (Stranded.ajax 0%nat) (play_success Stranded.play_a);
    sound Stranded.sound_a on_play;
    start_done Stranded.play_a Stranded.granted;
    play_done (Stranded.ajax 2%nat) (play_success Stranded.play_b);
    sound Stranded.sound_a (on_finish false) ].

Definition binding_a : ActivePlay :=
  {| ap_id := "a"; ap_sound := Stranded.sound_a;
     startReportedToServer := false; soundCompleted := false;
     soundCompletedWithError := false; playStarted := true;
     previousPosition := 0 |}.

Definition current_a : Current :=
  set_started true (set_canSkip true (new_current Stranded.play_a)).

Definition server_error : XHR := {| status := 500; xhr_error := None |}.

End Playing.

(** ** Two acknowledgments of one start (C3) *)


(** * Further vocabulary *)


(** The trace of [w'] extends the trace of [w]. *)
Definition R_ext (w w' : World) : Prop :=
  exists rest, trace w' = trace w ++ rest.


(** ** Requests that fail again and again *)

(** The request that was just sent fails, which is reported by the input
    [failure] gives for it, and the timer this sets, if any, is let to
    fire. *)
Definition reject_last (failure : Request -> option Input) (w : World)
  : World :=
  match last_effect w with
  | Some (SignedAjax r) =>
      match failure r with
      | Some i =>
          let w1 := step i w in
          match last_effect w1 with
          | Some (Delay cb _) => step (timer cb) w1
          | _ => w1
          end
      | None => w
      end
  | _ => w
  end.

Definition client_failure (response : XHR) (r : Request) : option Input :=
  match r with
  | POST_client delay => Some (client_fail delay response)
  | _ => None
  end.

Definition invalidate_failure (r : Request) : option Input :=
  match r with
  | POST_invalidate play delay => Some (invalidate_fail delay play)
  | _ => None
  end.


(** [n] rounds of a timer of [d] milliseconds and the request sent when it
    fires, where [next] gives the delay of the following round. *)
Fixpoint retry_trace (cb : Z -> Callback) (request : Z -> Request)
    (next : Z -> Z) (d : Z) (n : nat) : list Effect :=
  match n with
  | O => []
  | S n =>
      Delay (cb d) d :: SignedAjax (request d)
      :: retry_trace cb request next (next d) n
  end.


(** A page without a stored client id that was told to play: the default
    placement has arrived and the client id has been asked for. *)
Definition anonymous_page : World :=
  run [ call player_play; placement_default_done Stranded.info ]
    (new_Player (Some "token") (Some "secret") false None).


(** The options object [_requestNextPlay] builds for a new request, [o]
    being the identity of the object. *)
Definition play_request (o : ObjId) (cfg : Config) : Ajax :=
  {| ajax_obj := o;
     data_formats := formats cfg;
     data_client_id := clientId cfg;
     data_max_bitrate := maxBitrate cfg;
     data_secure := secure cfg;
     data_placement_id :=
       if truthy (placementId cfg) then placementId cfg else None;
     data_station_id :=
       if truthy (stationId cfg) then stationId cfg else None |}.


(** ** Placement information *)

(** The announcements of a change of station. *)
Definition is_station_changed (e : Effect) : bool :=
  match e with
  | Trigger (station_changed _) => true
  | _ => false
  end.

(** The station and its announcements are as they were. *)
Definition R_station (w w' : World) : Prop :=
  stationId (config w') = stationId (config w) /\
  filter is_station_changed (trace w') = filter is_station_changed (trace w).


(** ** What holds after every event *)

(** A suspended player stays suspended. *)
Definition R_suspended (w w' : World) : Prop :=
  suspended (state w) = true -> suspended (state w') = true.

(** The client id is known once its promise is resolved, and every request
    for a play, pending or sent, carries one. *)
Record Identified (w : World) : Prop := {
  id_known : clientPromise w = Resolved -> clientId (config w) <> None;
  id_pending :
    forall pr, pendingRequest (config w) = Some pr ->
               data_client_id (req_ajax pr) <> None;
  id_sent :
    forall ajax delay,
      In (SignedAjax (POST_play ajax delay)) (trace w) ->
      data_client_id ajax <> None
}.

Definition R_identified (w w' : World) : Prop := Identified w -> Identified w'.


(** The requests for a play. *)
Definition is_play_request (e : Effect) : bool :=
  match e with
  | SignedAjax (POST_play _ _) => true
  | _ => false
  end.

(** The promise of a client id is as it was. *)
Definition R_promise (w w' : World) : Prop :=
  clientPromise w' = clientPromise w.



(** ** Helpers of the page: [feed/util] and the player view *)

(** [util.addProtocol(url, secure)]: [secure] is compared with [===] against
    [true] and [false]; every other value (the argument left out, as in
    [Session.setBaseUrl]) takes the third branch, which reads
    [window.location.protocol]. *)
Inductive Secure : Type :=
| secure_true
| secure_false
| secure_unset.

Definition addProtocol (location_protocol url : string) (secure : Secure) : string :=
  if String.eqb (substring 0 2 url) "//" then
    match secure with
    | secure_true => ("https:" ++ url)%string
    | secure_false => ("http:" ++ url)%string
    | secure_unset =>
        if String.eqb (substring 0 4 location_protocol) "http"
        then (location_protocol ++ url)%string
        else "http"
    end
  else url.

(** Number to string conversion of an integer, as [+] with a string operand
    performs it. *)
Definition toString (n : Z) : string :=
  DecimalString.NilZero.string_of_int (Z.to_int n).

(** [formatTime(millis)] of the player view, on an integer number of
    milliseconds below [2 ^ 53].  The source divides doubles; on that range
    the integers are exact and the rounded quotient never reaches the next
    integer, so that [Math.floor] of the quotient is [Z.div].  The remainder
    operator [%] is [Z.rem]. *)
Definition formatTime (millis : Z) : string :=
  let asSeconds := millis / 1000 in
  let secondsPart := Z.rem asSeconds 60 in
  let minutesPart := asSeconds / 60 in
  let secondsPart :=
    if secondsPart <? 10 then ("0" ++ toString secondsPart)%string
    else toString secondsPart in
  (toString minutesPart ++ ":" ++ secondsPart)%string.

(** The decimal digit [d] as a one-character string. *)
Definition digit (d : Z) : string :=
  String (Ascii.ascii_of_nat (48 + Z.to_nat d)) EmptyString.

(** ** The sound object of [feed/speaker] *)

Module SoundObject.

(** The events a sound triggers, and the SoundManager callbacks that
    [_createAndAssignSM2Sound] installs and that trigger one. *)
Inductive Event : Type :=
| ev_play
| ev_pause
| ev_finish
| ev_elapse.

Inductive Callback : Type :=
| onfinish
| onresume
| onplay
| onpause
| onload (success : bool)
| ondataerror
| whileplaying.

Definition event_eqb (a b : Event) : bool :=
  match a, b with
  | ev_play, ev_play | ev_pause, ev_pause
  | ev_finish, ev_finish | ev_elapse, ev_elapse => true
  | _, _ => false
  end.

(** [lastTrigger] is undefined on a new sound; [sm2Sound] is set to null by
    [destroy]; [triggered] lists the calls of [trigger], oldest first, with
    the error flag that the failure callbacks pass along. *)
Record State : Type := mkState {
  lastTrigger : option Event;
  sm2Sound : bool;
  triggered : list (Event * bool)
}.

Definition created : State :=
  {| lastTrigger := None; sm2Sound := true; triggered := [] |}.

Definition trigger (event : Event) (failed : bool) (s : State) : State :=
  {| lastTrigger := lastTrigger s;
     sm2Sound := sm2Sound s;
     triggered := triggered s ++ [(event, failed)] |}.

Definition _nonRepeatTrigger (event : Event) (failed : bool) (s : State) : State :=
  match lastTrigger s with
  | Some last =>
      if event_eqb last event then s
      else trigger event failed
             {| lastTrigger := Some event; sm2Sound := sm2Sound s;
                triggered := triggered s |}
  | None =>
      trigger event failed
        {| lastTrigger := Some event; sm2Sound := sm2Sound s;
           triggered := triggered s |}
  end.

Definition destroy (s : State) : State :=
  {| lastTrigger := lastTrigger s; sm2Sound := false; triggered := triggered s |}.

Definition callback (cb : Callback) (s : State) : State :=
  match cb with
  | onfinish => _nonRepeatTrigger ev_finish false s
  | onresume => _nonRepeatTrigger ev_play false s
  | onplay => _nonRepeatTrigger ev_play false s
  | onpause => _nonRepeatTrigger ev_pause false s
  | onload success =>
      if success then s
      else destroy (_nonRepeatTrigger ev_finish true s)
  | ondataerror => destroy (_nonRepeatTrigger ev_finish true s)
  | whileplaying => trigger ev_elapse false s
  end.

Definition callbacks (cbs : list Callback) (s : State) : State :=
  fold_left (fun s cb => callback cb s) cbs s.

(** The triggered events other than [elapse], in order. *)
Definition transitions (s : State) : list Event :=
  filter (fun e => negb (event_eqb e ev_elapse)) (map fst (triggered s)).

Fixpoint no_repeat (l : list Event) : Prop :=
  match l with
  | a :: (b :: _) as rest => a <> b /\ no_repeat rest
  | _ => True
  end.

(** The number of [elapse] events triggered, and of [whileplaying]
    callbacks received. *)
Definition elapses (s : State) : nat :=
  length (filter (fun e => event_eqb e ev_elapse) (map fst (triggered s))).

Definition is_whileplaying (cb : Callback) : bool :=
  match cb with
  | whileplaying => true
  | _ => false
  end.

(** What [lastTrigger] remembers: the last triggered event that is not
    [elapse], when the sound triggered one. *)
Definition remembers (s : State) : Prop :=
  match lastTrigger s with
  | Some e => forall d, last (transitions s) d = e
  | None => transitions s = []
  end.

End SoundObject.

(** * Properties *)

(** ** Reasoning about handlers *)

Lemma exec_bind A B (m : JS A) (k : A -> JS B) w :
  exec (bind m k) w =
  match fst (m w) with
  | Return a => exec (k a) (exec m w)
  | Throw _ => exec m w
  end.
Proof.
  unfold exec, bind. destruct (m w) as [[a|msg] w']; reflexivity.
Qed.

Section Respects.

Variable R : World -> World -> Prop.

Hypothesis R_refl : forall w, R w w.

Hypothesis R_trans : forall a b c, R a b -> R b c -> R a c.

Lemma respects_ret A (a : A) : respects R (ret a).
Proof. intro w. apply R_refl. Qed.

Lemma respects_throw A msg : respects R (@throw A msg).
Proof. intro w. apply R_refl. Qed.

Lemma respects_bind A B (m : JS A) (k : A -> JS B) :
  respects R m -> (forall a, respects R (k a)) -> respects R (bind m k).
Proof.
  intros Hm Hk w. rewrite exec_bind.
  destruct (fst (m w)); [eapply R_trans; [apply Hm | apply Hk] | apply Hm].
Qed.

Lemma respects_getConfig : respects R getConfig.
Proof. intro w. apply R_refl. Qed.

Lemma respects_getState : respects R getState.
Proof. intro w. apply R_refl. Qed.

Lemma respects_getClientPromise : respects R getClientPromise.
Proof. intro w. apply R_refl. Qed.

Lemma respects_getStoredCid : respects R getStoredCid.
Proof. intro w. apply R_refl. Qed.

Lemma respects_ignore A (m : JS A) : respects R m -> respects R (ignore m).
Proof.
  intro H. unfold ignore. apply respects_bind; [exact H | intro; apply respects_ret].
Qed.

End Respects.

(** ** The invariant is kept by every handler *)

Lemma replay_app t1 t2 o :
  replay o (t1 ++ t2) =
  match replay o t1 with
  | Some o' => replay o' t2
  | None => None
  end.
Proof.
  revert o. induction t1 as [|e t1 IH]; intro o; simpl; [reflexivity|].
  destruct e as [ev| | | | | | | | | |]; try apply IH.
  destruct ev; try apply IH.
  - destruct o; [reflexivity | apply IH].
  - destruct o as [o|]; [|reflexivity].
    destruct (Nat.eqb o (play_obj play)); [apply IH | reflexivity].
Qed.

Lemma R_inv_refl w : R_inv w w.
Proof. intro H; exact H. Qed.

Lemma R_inv_trans a b c : R_inv a b -> R_inv b c -> R_inv a c.
Proof. unfold R_inv; auto. Qed.

Create HintDb inv discriminated.

Ltac world w :=
  destruct w as [[tok sec pid pl sid sts cid secu fmt rate cur preq pp]
                 cp scid [pa su ap] ops hp tr].

Ltac inv_intro :=
  let w := fresh "w" in
  let H := fresh "H" in
  intros w H; world w; destruct H as [Ht Hb Hs]; cbn in Ht, Hb, Hs |- *.

Ltac inv_split :=
  constructor; cbn;
  rewrite ?replay_app; cbn; rewrite ?Nat.eqb_refl; cbn; auto.

Lemma preserves_emit e :
  match e with
  | Trigger (play_active _) | Trigger (play_completed _) => False
  | _ => True
  end ->
  preserves (emit e).
Proof.
  intros He. inv_intro. constructor; cbn; auto.
  rewrite replay_app. unfold current_obj in *; cbn in *. rewrite Ht.
  destruct e as [ev| | | | | | | | | |]; try reflexivity.
  destruct ev; try reflexivity; contradiction.
Qed.

Lemma preserves_modifyConfig f :
  (forall c, current (f c) = current c) -> preserves (modifyConfig f).
Proof.
  intro Hf. intros w H. destruct H as [Ht Hb Hs].
  unfold exec, modifyConfig, current_obj in *; cbn in *.
  constructor; unfold current_obj; cbn; rewrite ?Hf; auto.
Qed.

Lemma preserves_setClientPromise v : preserves (setClientPromise v).
Proof. inv_intro. constructor; cbn; auto. Qed.

Lemma preserves_setStoredCid v : preserves (setStoredCid v).
Proof. inv_intro. constructor; cbn; auto. Qed.

Lemma preserves_fresh : preserves fresh.
Proof. inv_intro. constructor; cbn; auto. Qed.

Lemma preserves_set_paused v : preserves (modifyState (Player.set_paused v)).
Proof. inv_intro. constructor; cbn; auto. Qed.

Lemma preserves_set_suspended v : preserves (modifyState (Player.set_suspended v)).
Proof. inv_intro. constructor; cbn; auto. Qed.

#[export] Hint Resolve preserves_setClientPromise preserves_setStoredCid
  preserves_fresh preserves_set_paused preserves_set_suspended : inv.

#[export] Hint Extern 1 (respects R_inv (modifyConfig _)) =>
  (apply preserves_modifyConfig; intro; reflexivity) : inv.

Lemma preserves_emit_SignedAjax r : preserves (emit (SignedAjax r)).
Proof. apply preserves_emit; exact I. Qed.

Lemma preserves_emit_Delay cb ms : preserves (emit (Delay cb ms)).
Proof. apply preserves_emit; exact I. Qed.

Lemma preserves_emit_Defer cb : preserves (emit (Defer cb)).
Proof. apply preserves_emit; exact I. Qed.

Lemma preserves_emit_PlayerTrigger e : preserves (emit (PlayerTrigger e)).
Proof. apply preserves_emit; exact I. Qed.

Lemma preserves_emit_SoundPlay s : preserves (emit (SoundPlay s)).
Proof. apply preserves_emit; exact I. Qed.

Lemma preserves_emit_SoundPause s : preserves (emit (SoundPause s)).
Proof. apply preserves_emit; exact I. Qed.

Lemma preserves_emit_SoundResume s : preserves (emit (SoundResume s)).
Proof. apply preserves_emit; exact I. Qed.

Lemma preserves_emit_Init : preserves (emit InitializeForMobile).
Proof. apply preserves_emit; exact I. Qed.

#[export] Hint Resolve preserves_emit_SignedAjax preserves_emit_Delay
  preserves_emit_Defer preserves_emit_PlayerTrigger preserves_emit_SoundPlay
  preserves_emit_SoundPause preserves_emit_SoundResume preserves_emit_Init : inv.

(** Takes a composite handler apart along its binds and branches and
    closes the leaves with the given tactic. *)
Ltac respects_with R_refl R_trans leaf :=
  cbv zeta;
  repeat first
    [ solve [leaf]
    | match goal with
      | |- respects _ (ret _) => apply (@respects_ret _ R_refl)
      | |- respects _ (throw _) => apply (@respects_throw _ R_refl)
      | |- respects _ getConfig => apply (@respects_getConfig _ R_refl)
      | |- respects _ getState => apply (@respects_getState _ R_refl)
      | |- respects _ getClientPromise =>
          apply (@respects_getClientPromise _ R_refl)
      | |- respects _ getStoredCid => apply (@respects_getStoredCid _ R_refl)
      | |- respects _ (ignore _) => apply (@respects_ignore _ R_refl R_trans)
      | |- respects _ (bind _ _) =>
          apply (@respects_bind _ R_trans); [ | intros ? ]
      | |- respects _ (match ?x with _ => _ end) => destruct x
      end ].

Ltac preserves_tac := respects_with R_inv_refl R_inv_trans ltac:(auto with inv nocore).

Lemma preserves_trigger_other e :
  match e with
  | play_active _ | play_completed _ | play_started _ => False
  | _ => True
  end ->
  preserves (Session.trigger Player.listeners e).
Proof.
  intro He. unfold Session.trigger.
  apply (@respects_bind _ R_inv_trans).
  - apply preserves_emit. destruct e; auto.
  - intros _. destruct e; try contradiction; unfold Player.listeners;
      try apply (@respects_ret _ R_inv_refl).
    unfold Player._onPlaysExhausted. auto with inv.
Qed.

Lemma preserves_modifyCurrent f :
  (forall c, play_obj (cur_play (f c)) = play_obj (cur_play c) /\
             play_id (cur_play (f c)) = play_id (cur_play c)) ->
  preserves (modifyCurrent f).
Proof.
  intro Hf. inv_intro. unfold modifyCurrent, exec, current_obj in *; cbn in *.
  destruct cur as [c|]; cbn; [|constructor; cbn; auto].
  destruct (Hf c) as [Ho Hi].
  constructor; cbn; [rewrite Ho; exact Ht | | exact Hs].
  destruct ap; [congruence | exact Hb].
Qed.

Lemma preserves_modifyActivePlay f :
  (forall a, ap_id (f a) = ap_id a /\ ap_sound (f a) = ap_sound a) ->
  preserves (modifyActivePlay f).
Proof.
  intro Hf. inv_intro. unfold modifyActivePlay, exec, current_obj in *; cbn in *.
  destruct ap as [a|]; cbn; [|constructor; cbn; auto].
  destruct (Hf a) as [Hi Hsnd].
  constructor; cbn; [exact Ht | | rewrite Hsnd; exact Hs].
  destruct cur; [congruence | exact Hb].
Qed.

#[export] Hint Extern 1 (respects R_inv (modifyCurrent _)) =>
  (apply preserves_modifyCurrent; intro; split; reflexivity) : inv.
#[export] Hint Extern 1 (respects R_inv (modifyActivePlay _)) =>
  (apply preserves_modifyActivePlay; intro; split; reflexivity) : inv.

Lemma preserves_onPlayStarted play : preserves (Player._onPlayStarted play).
Proof. unfold Player._onPlayStarted. preserves_tac. Qed.

Lemma preserves_trigger_play_started play :
  preserves (Session.trigger Player.listeners (play_started play)).
Proof.
  unfold Session.trigger. apply (@respects_bind _ R_inv_trans).
  - apply preserves_emit. exact I.
  - intros _. apply preserves_onPlayStarted.
Qed.

Lemma preserves_assignCurrentPlay play waitingIfEmpty :
  preserves (Session._assignCurrentPlay Player.listeners play waitingIfEmpty).
Proof.
  inv_intro.
  unfold Session._assignCurrentPlay, Session.trigger, Player.listeners,
    Player._onPlayCompleted, Player._onPlayActive, Player._onPlaysExhausted,
    Player.binding_of, Speaker.create, Speaker.destroy, Speaker.forget,
    Speaker.play, exec, bind, current_obj in *; cbn in *.
  destruct cur as [c|]; destruct ap as [a|]; try contradiction; cbn.
  - rewrite Hb, String.eqb_refl; cbn.
    assert (Hf : filter (fun id => negb (Nat.eqb id (sound_id (ap_sound a)))) ops = []).
    { destruct Hs as [-> | ->]; cbn; [reflexivity|].
      rewrite Nat.eqb_refl; reflexivity. }
    destruct play as [p|]; [|destruct waitingIfEmpty]; cbn;
      try (destruct pa; cbn);
      (constructor; cbn;
       [ rewrite ?replay_app, ?Ht; cbn; rewrite ?Nat.eqb_refl; cbn;
         rewrite ?replay_app; cbn; reflexivity
       | auto | rewrite ?Hf; cbn; auto ]).
  - destruct play as [p|]; [|destruct waitingIfEmpty]; cbn;
      try (destruct pa; cbn);
      (constructor; cbn;
       [ rewrite ?replay_app, ?Ht; cbn; reflexivity
       | auto | rewrite ?Hs; cbn; auto ]).
Qed.

#[export] Hint Resolve preserves_assignCurrentPlay preserves_trigger_play_started : inv.
#[export] Hint Extern 1 (respects R_inv (Session.trigger Player.listeners _)) =>
  (apply preserves_trigger_other; exact I) : inv.

Lemma preserves_requestNextPlay_then delay :
  preserves (Session._requestNextPlay_then Player.listeners delay).
Proof.
  unfold Session._requestNextPlay_then, Session._signedAjax. preserves_tac.
Qed.

#[export] Hint Resolve preserves_requestNextPlay_then : inv.

Lemma preserves_resolve_with waiting :
  preserves (Session.resolve_with Player.listeners waiting).
Proof.
  induction waiting as [|d rest IH]; cbn [Session.resolve_with]; preserves_tac.
Qed.
#[export] Hint Resolve preserves_resolve_with : inv.

Ltac preserves_def f := unfold f; preserves_tac.

Lemma preserves_signedAjax r : preserves (Session._signedAjax r).
Proof. preserves_def Session._signedAjax. Qed.
#[export] Hint Resolve preserves_signedAjax : inv.

Lemma preserves_saveClientId cid :
  preserves (Session.saveClientId Player.listeners cid).
Proof. preserves_def Session.saveClientId. Qed.
#[export] Hint Resolve preserves_saveClientId : inv.

Lemma preserves_repeatAfter delay max cb :
  preserves (Session.repeatAfter delay max cb).
Proof. preserves_def Session.repeatAfter. Qed.
#[export] Hint Resolve preserves_repeatAfter : inv.

Lemma preserves_requestClientId delay :
  preserves (Session._requestClientId Player.listeners delay).
Proof. preserves_def Session._requestClientId. Qed.
#[export] Hint Resolve preserves_requestClientId : inv.

Lemma preserves_receiveClientId delay r :
  preserves (Session._receiveClientId Player.listeners delay r).
Proof. preserves_def Session._receiveClientId. Qed.

Lemma preserves_failedClientId delay r :
  preserves (Session._failedClientId Player.listeners delay r).
Proof. preserves_def Session._failedClientId. Qed.

Lemma preserves_getClientId : preserves (Session._getClientId Player.listeners).
Proof. preserves_def Session._getClientId. Qed.
#[export] Hint Resolve preserves_getClientId : inv.

Lemma preserves_requestNextPlay delay :
  preserves (Session._requestNextPlay Player.listeners delay).
Proof. preserves_def Session._requestNextPlay. Qed.
#[export] Hint Resolve preserves_requestNextPlay : inv.

Lemma preserves_receiveNextPlay ajax r :
  preserves (Session._receiveNextPlay Player.listeners ajax r).
Proof. preserves_def Session._receiveNextPlay. Qed.

Lemma preserves_failedNextPlay delay ajax r :
  preserves (Session._failedNextPlay Player.listeners delay ajax r).
Proof. preserves_def Session._failedNextPlay. Qed.

Lemma preserves_receiveStartPlay play r :
  preserves (Session._receiveStartPlay Player.listeners play r).
Proof. preserves_def Session._receiveStartPlay. Qed.
#[export] Hint Resolve preserves_receiveStartPlay : inv.

Lemma preserves_startPlay play :
  preserves (Session._startPlay Player.listeners play).
Proof. preserves_def Session._startPlay. Qed.
#[export] Hint Resolve preserves_startPlay : inv.

Lemma preserves_failStartPlay play r :
  preserves (Session._failStartPlay Player.listeners play r).
Proof. preserves_def Session._failStartPlay. Qed.

Lemma preserves_getDefaultPlacementInformation delay :
  preserves (Session._getDefaultPlacementInformation delay).
Proof. preserves_def Session._getDefaultPlacementInformation. Qed.
#[export] Hint Resolve preserves_getDefaultPlacementInformation : inv.

Lemma preserves_first_station l :
  preserves (Session.first_station Player.listeners l).
Proof. preserves_def Session.first_station. Qed.
#[export] Hint Resolve preserves_first_station : inv.

Lemma preserves_receiveDefaultPlacementInformation info :
  preserves (Session._receiveDefaultPlacementInformation Player.listeners info).
Proof. preserves_def Session._receiveDefaultPlacementInformation. Qed.

Lemma preserves_failedDefaultPlacementInformation delay r :
  preserves (Session._failedDefaultPlacementInformation Player.listeners delay r).
Proof. preserves_def Session._failedDefaultPlacementInformation. Qed.

Lemma preserves_getPlacementInformation delay :
  preserves (Session._getPlacementInformation Player.listeners delay).
Proof. preserves_def Session._getPlacementInformation. Qed.
#[export] Hint Resolve preserves_getPlacementInformation : inv.

Lemma preserves_receivePlacementInformation info :
  preserves (Session._receivePlacementInformation Player.listeners info).
Proof. preserves_def Session._receivePlacementInformation. Qed.

Lemma preserves_failedPlacementInformation delay :
  preserves (Session._failedPlacementInformation delay).
Proof. preserves_def Session._failedPlacementInformation. Qed.

Lemma preserves_tune : preserves (Session.tune Player.listeners).
Proof. preserves_def Session.tune. Qed.
#[export] Hint Resolve preserves_tune : inv.

Lemma preserves_isTuned : preserves Session.isTuned.
Proof. preserves_def Session.isTuned. Qed.

Lemma preserves_hasActivePlayStarted : preserves Session.hasActivePlayStarted.
Proof. preserves_def Session.hasActivePlayStarted. Qed.

Lemma preserves_getActivePlay : preserves Session.getActivePlay.
Proof. preserves_def Session.getActivePlay. Qed.
#[export] Hint Resolve preserves_isTuned preserves_hasActivePlayStarted
  preserves_getActivePlay : inv.

Lemma preserves_retune : preserves (Session._retune Player.listeners).
Proof. preserves_def Session._retune. Qed.
#[export] Hint Resolve preserves_retune : inv.

Lemma preserves_setPlacementId id :
  preserves (Session.setPlacementId Player.listeners id).
Proof. preserves_def Session.setPlacementId. Qed.

Lemma preserves_setStationId id :
  preserves (Session.setStationId Player.listeners id).
Proof. preserves_def Session.setStationId. Qed.

Lemma preserves_setFormats f :
  preserves (Session.setFormats Player.listeners f).
Proof. preserves_def Session.setFormats. Qed.

Lemma preserves_reportPlayStarted :
  preserves (Session.reportPlayStarted Player.listeners).
Proof. preserves_def Session.reportPlayStarted. Qed.

Lemma preserves_reportPlayElapsed seconds :
  preserves (Session.reportPlayElapsed seconds).
Proof. preserves_def Session.reportPlayElapsed. Qed.

Lemma preserves_reportPlayCompleted : preserves Session.reportPlayCompleted.
Proof. preserves_def Session.reportPlayCompleted. Qed.

Lemma preserves_receivePlayCompleted :
  preserves (Session._receivePlayCompleted Player.listeners).
Proof. preserves_def Session._receivePlayCompleted. Qed.

Lemma preserves_requestSkip : preserves (Session.requestSkip Player.listeners).
Proof. preserves_def Session.requestSkip. Qed.

Lemma preserves_sendInvalidate play delay :
  preserves (Session._sendInvalidate play delay).
Proof. preserves_def Session._sendInvalidate. Qed.

Lemma preserves_requestInvalidate : preserves Session.requestInvalidate.
Proof.
  unfold Session.requestInvalidate, Session._sendInvalidate. preserves_tac.
Qed.

Lemma preserves_failInvalidate delay play :
  preserves (Session._failInvalidate delay play).
Proof. preserves_def Session._failInvalidate. Qed.

Lemma preserves_receiveInvalidate play success :
  preserves (Session._receiveInvalidate Player.listeners play success).
Proof. preserves_def Session._receiveInvalidate. Qed.

Lemma preserves_failSkip play :
  preserves (Session._failSkip Player.listeners play).
Proof. preserves_def Session._failSkip. Qed.

Lemma preserves_receiveSkip play success :
  preserves (Session._receiveSkip Player.listeners play success).
Proof. preserves_def Session._receiveSkip. Qed.

Lemma preserves_mark_liked id v : preserves (Session.mark_liked id v).
Proof. preserves_def Session.mark_liked. Qed.

Lemma preserves_likePlay id : preserves (Session.likePlay id).
Proof. unfold Session.likePlay, Session.mark_liked. preserves_tac. Qed.

Lemma preserves_unlikePlay id : preserves (Session.unlikePlay id).
Proof. unfold Session.unlikePlay, Session.mark_liked. preserves_tac. Qed.

Lemma preserves_dislikePlay id : preserves (Session.dislikePlay id).
Proof. unfold Session.dislikePlay, Session.mark_liked. preserves_tac. Qed.

Lemma preserves_session_suspend p : preserves (Session.suspend p).
Proof. preserves_def Session.suspend. Qed.

Lemma preserves_session_unsuspend saved :
  preserves (Session.unsuspend Player.listeners saved).
Proof. preserves_def Session.unsuspend. Qed.

#[export] Hint Resolve preserves_setPlacementId preserves_setStationId
  preserves_setFormats preserves_reportPlayStarted preserves_reportPlayElapsed
  preserves_reportPlayCompleted preserves_receivePlayCompleted
  preserves_requestSkip preserves_sendInvalidate preserves_requestInvalidate
  preserves_failInvalidate preserves_receiveInvalidate preserves_failSkip
  preserves_receiveSkip preserves_likePlay preserves_unlikePlay
  preserves_dislikePlay preserves_session_suspend preserves_session_unsuspend
  preserves_receiveClientId preserves_failedClientId preserves_receiveNextPlay
  preserves_failedNextPlay preserves_failStartPlay
  preserves_receiveDefaultPlacementInformation
  preserves_failedDefaultPlacementInformation
  preserves_receivePlacementInformation preserves_failedPlacementInformation
  : inv.

(** The player's own handlers. *)

Ltac preserves_player :=
  unfold Player._onSoundPlay, Player._onSoundPause, Player._onSoundFinish,
    Player._onSoundElapse, Player.tune, Player.play, Player.pause,
    Player.like, Player.unlike, Player.skip, Player.dislike, Player.suspend,
    Player.unsuspend, Player.setPlacementId, Player.setStationId,
    Player.session_tune, Player.active_id, Player.trigger, Player.pause,
    Speaker.play, Speaker.pause, Speaker.resume;
  preserves_tac.

Lemma preserves_onSoundPlay id : preserves (Player._onSoundPlay id).
Proof. preserves_player. Qed.

Lemma preserves_onSoundPause id : preserves (Player._onSoundPause id).
Proof. preserves_player. Qed.

Lemma preserves_onSoundFinish id e : preserves (Player._onSoundFinish id e).
Proof. preserves_player. Qed.

Lemma preserves_onSoundElapse id p : preserves (Player._onSoundElapse id p).
Proof. preserves_player. Qed.

Lemma preserves_player_tune : preserves Player.tune.
Proof. preserves_player. Qed.

Lemma preserves_player_play : preserves Player.play.
Proof. preserves_player. Qed.

Lemma preserves_player_pause : preserves Player.pause.
Proof. preserves_player. Qed.

Lemma preserves_player_like : preserves Player.like.
Proof. preserves_player. Qed.

Lemma preserves_player_unlike : preserves Player.unlike.
Proof. preserves_player. Qed.

Lemma preserves_player_skip : preserves Player.skip.
Proof. preserves_player. Qed.

Lemma preserves_player_dislike : preserves Player.dislike.
Proof.
  unfold Player.dislike, Player.active_id, Player.trigger. preserves_tac.
  apply preserves_player_skip.
Qed.

Lemma preserves_player_suspend p : preserves (Player.suspend p).
Proof. preserves_player. Qed.

Lemma preserves_player_unsuspend saved b : preserves (Player.unsuspend saved b).
Proof.
  unfold Player.unsuspend. preserves_tac. apply preserves_player_play.
Qed.

#[export] Hint Resolve preserves_onSoundPlay preserves_onSoundPause
  preserves_onSoundFinish preserves_onSoundElapse preserves_player_tune
  preserves_player_play preserves_player_pause preserves_player_like
  preserves_player_unlike preserves_player_skip preserves_player_dislike
  preserves_player_suspend preserves_player_unsuspend : inv.

(** Forgetting a sound keeps the invariant: the outstanding sounds can
    only shrink. *)
Lemma preserves_forget s : preserves (Speaker.forget s).
Proof.
  inv_intro. unfold Speaker.forget, exec; cbn.
  constructor; cbn; auto.
  destruct ap as [a|].
  - destruct Hs as [-> | ->]; cbn; auto.
    destruct (Nat.eqb (sound_id (ap_sound a)) (sound_id s)); cbn; auto.
  - rewrite Hs. reflexivity.
Qed.

Lemma preserves_destroy s : preserves (Speaker.destroy s).
Proof.
  unfold Speaker.destroy. apply (@respects_bind _ R_inv_trans).
  - apply preserves_forget.
  - intros _. apply preserves_emit. exact I.
Qed.

#[export] Hint Resolve preserves_forget preserves_destroy : inv.

Lemma preserves_engine s e : preserves (engine s e).
Proof.
  intros w H. unfold engine, exec.
  destruct (existsb (Nat.eqb (sound_id s)) (outstandingPlays w)); [|exact H].
  destruct e as [| |[|]|p].
  - apply preserves_onSoundPlay; exact H.
  - apply preserves_onSoundPause; exact H.
  - revert w H. change (preserves (Player._onSoundFinish (sound_playId s) true ;; Speaker.destroy s)). preserves_tac.
  - revert w H. change (preserves (Speaker.forget s ;; Player._onSoundFinish (sound_playId s) false)). preserves_tac.
  - apply preserves_onSoundElapse; exact H.
Qed.

Lemma preserves_fire cb : preserves (fire cb).
Proof. destruct cb; cbn [fire]; preserves_tac. Qed.

Lemma preserves_api c : preserves (api c).
Proof.
  destruct c; cbn [api]; unfold Player.setPlacementId, Player.setStationId,
    Session.setCredentials, Session.setMaxBitrate; preserves_tac.
Qed.

Lemma preserves_handler i : preserves (handler i).
Proof.
  destruct i; cbn [handler];
    try apply preserves_engine; try apply preserves_fire;
    try apply preserves_api; preserves_tac.
Qed.

Lemma Inv_new_Player tok sec secure cid : Inv (new_Player tok sec secure cid).
Proof. constructor; cbn; auto. Qed.

Lemma Inv_step i w : Inv w -> Inv (step i w).
Proof. intro H. unfold step. apply (preserves_handler i). exact H. Qed.

Lemma Inv_run inputs w : Inv w -> Inv (run inputs w).
Proof.
  revert w. induction inputs as [|i rest IH]; intros w H; cbn [run].
  - exact H.
  - apply IH, Inv_step, H.
Qed.

(** ** Handlers that frame the play slots *)

Lemma R_frame_refl w : R_frame w w.
Proof. split; reflexivity. Qed.

Lemma R_frame_trans a b c : R_frame a b -> R_frame b c -> R_frame a c.
Proof. unfold R_frame. intros [H1 H2] [H3 H4]. split; congruence. Qed.

Create HintDb frame discriminated.

Ltac frames_tac :=
  respects_with R_frame_refl R_frame_trans ltac:(auto with frame nocore).

Lemma frames_config_untouched A (m : JS A) :
  (forall w, config (exec m w) = config w) -> frames m.
Proof.
  intros H w. unfold R_frame, current_obj. rewrite H. split; reflexivity.
Qed.

Lemma frames_emit e : frames (emit e).
Proof. apply frames_config_untouched. reflexivity. Qed.

Lemma frames_modifyState f : frames (modifyState f).
Proof. apply frames_config_untouched. reflexivity. Qed.

Lemma frames_modifyActivePlay f : frames (modifyActivePlay f).
Proof.
  apply frames_config_untouched. intro w. unfold exec, modifyActivePlay.
  destruct (activePlay (state w)); reflexivity.
Qed.

Lemma frames_setClientPromise v : frames (setClientPromise v).
Proof. apply frames_config_untouched. reflexivity. Qed.

Lemma frames_setStoredCid v : frames (setStoredCid v).
Proof. apply frames_config_untouched. reflexivity. Qed.

Lemma frames_fresh : frames fresh.
Proof. apply frames_config_untouched. reflexivity. Qed.

Lemma frames_forget s : frames (Speaker.forget s).
Proof. apply frames_config_untouched. reflexivity. Qed.

Lemma frames_modifyConfig f :
  (forall c, current (f c) = current c /\ pendingPlay (f c) = pendingPlay c) ->
  frames (modifyConfig f).
Proof.
  intros Hf w. unfold R_frame, current_obj, exec, modifyConfig; cbn.
  destruct (Hf (config w)) as [-> ->]. split; reflexivity.
Qed.

Lemma frames_modifyCurrent f :
  (forall c, play_obj (cur_play (f c)) = play_obj (cur_play c)) ->
  frames (modifyCurrent f).
Proof.
  intros Hf w. unfold R_frame, current_obj, exec, modifyCurrent.
  destruct (current (config w)) as [c|] eqn:E; cbn; rewrite ?E, ?Hf;
    split; reflexivity.
Qed.

#[export] Hint Resolve frames_emit frames_modifyState frames_modifyActivePlay
  frames_setClientPromise frames_setStoredCid frames_fresh frames_forget
  : frame.
#[export] Hint Extern 1 (respects R_frame (modifyConfig _)) =>
  (apply frames_modifyConfig; intro; split; reflexivity) : frame.
#[export] Hint Extern 1 (respects R_frame (modifyCurrent _)) =>
  (apply frames_modifyCurrent; intro; reflexivity) : frame.

Ltac frames_def f := unfold f; frames_tac.

Lemma frames_create url p id : frames (Speaker.create url p id).
Proof.
  unfold Speaker.create. frames_tac.
Qed.

Lemma frames_destroy s : frames (Speaker.destroy s).
Proof. frames_def Speaker.destroy. Qed.

Lemma frames_speaker_play s : frames (Speaker.play s).
Proof. frames_def Speaker.play. Qed.

Lemma frames_speaker_pause s : frames (Speaker.pause s).
Proof. frames_def Speaker.pause. Qed.

Lemma frames_speaker_resume s : frames (Speaker.resume s).
Proof. frames_def Speaker.resume. Qed.

#[export] Hint Resolve frames_create frames_destroy frames_speaker_play
  frames_speaker_pause frames_speaker_resume : frame.

Lemma frames_listeners e : frames (Player.listeners e).
Proof.
  destruct e; cbn [Player.listeners];
    unfold Player._onPlayActive, Player._onPlayStarted,
      Player._onPlayCompleted, Player._onPlaysExhausted; frames_tac.
Qed.
#[export] Hint Resolve frames_listeners : frame.

Lemma frames_trigger e : frames (Session.trigger Player.listeners e).
Proof. frames_def Session.trigger. Qed.

Lemma frames_signedAjax r : frames (Session._signedAjax r).
Proof. frames_def Session._signedAjax. Qed.

#[export] Hint Resolve frames_trigger frames_signedAjax : frame.

(** Giving up on the pending request only announces that nothing is
    playing: it is reached with no current play. *)
Lemma frames_idle :
  frames (cfg <- getConfig ;;
          match current cfg with
          | None => Session._assignCurrentPlay Player.listeners None false
          | Some _ => ret tt
          end).
Proof.
  intro w. unfold exec, bind, getConfig; cbn.
  destruct (current (config w)) as [c|] eqn:E; [apply R_frame_refl|].
  unfold Session._assignCurrentPlay, bind, getConfig; cbn. rewrite E.
  change (R_frame w (exec (Session.trigger Player.listeners plays_exhausted) w)).
  apply frames_trigger.
Qed.
#[export] Hint Resolve frames_idle : frame.

Lemma frames_requestNextPlay_then delay :
  frames (Session._requestNextPlay_then Player.listeners delay).
Proof. frames_def Session._requestNextPlay_then. Qed.
#[export] Hint Resolve frames_requestNextPlay_then : frame.

Lemma frames_resolve_with waiting :
  frames (Session.resolve_with Player.listeners waiting).
Proof.
  induction waiting as [|d rest IH]; cbn [Session.resolve_with]; frames_tac.
Qed.
#[export] Hint Resolve frames_resolve_with : frame.

Lemma frames_saveClientId cid :
  frames (Session.saveClientId Player.listeners cid).
Proof. frames_def Session.saveClientId. Qed.
#[export] Hint Resolve frames_saveClientId : frame.

Lemma frames_repeatAfter delay max cb : frames (Session.repeatAfter delay max cb).
Proof. frames_def Session.repeatAfter. Qed.
#[export] Hint Resolve frames_repeatAfter : frame.

Lemma frames_requestClientId delay :
  frames (Session._requestClientId Player.listeners delay).
Proof. frames_def Session._requestClientId. Qed.
#[export] Hint Resolve frames_requestClientId : frame.

Lemma frames_receiveClientId delay r :
  frames (Session._receiveClientId Player.listeners delay r).
Proof. frames_def Session._receiveClientId. Qed.

Lemma frames_failedClientId delay r :
  frames (Session._failedClientId Player.listeners delay r).
Proof. frames_def Session._failedClientId. Qed.

Lemma frames_getClientId : frames (Session._getClientId Player.listeners).
Proof. frames_def Session._getClientId. Qed.
#[export] Hint Resolve frames_getClientId : frame.

Lemma frames_requestNextPlay delay :
  frames (Session._requestNextPlay Player.listeners delay).
Proof. frames_def Session._requestNextPlay. Qed.
#[export] Hint Resolve frames_requestNextPlay : frame.

Lemma frames_failedNextPlay delay ajax r :
  frames (Session._failedNextPlay Player.listeners delay ajax r).
Proof. frames_def Session._failedNextPlay. Qed.

Lemma frames_receiveStartPlay play r :
  frames (Session._receiveStartPlay Player.listeners play r).
Proof. frames_def Session._receiveStartPlay. Qed.
#[export] Hint Resolve frames_receiveStartPlay : frame.

Lemma frames_startPlay play : frames (Session._startPlay Player.listeners play).
Proof. frames_def Session._startPlay. Qed.
#[export] Hint Resolve frames_startPlay : frame.

Lemma frames_failStartPlay play r :
  frames (Session._failStartPlay Player.listeners play r).
Proof. frames_def Session._failStartPlay. Qed.

Lemma frames_getDefaultPlacementInformation delay :
  frames (Session._getDefaultPlacementInformation delay).
Proof. frames_def Session._getDefaultPlacementInformation. Qed.
#[export] Hint Resolve frames_getDefaultPlacementInformation : frame.

Lemma frames_first_station l : frames (Session.first_station Player.listeners l).
Proof. frames_def Session.first_station. Qed.
#[export] Hint Resolve frames_first_station : frame.

Lemma frames_receiveDefaultPlacementInformation info :
  frames (Session._receiveDefaultPlacementInformation Player.listeners info).
Proof. frames_def Session._receiveDefaultPlacementInformation. Qed.

Lemma frames_failedDefaultPlacementInformation delay r :
  frames (Session._failedDefaultPlacementInformation Player.listeners delay r).
Proof. frames_def Session._failedDefaultPlacementInformation. Qed.

Lemma frames_getPlacementInformation delay :
  frames (Session._getPlacementInformation Player.listeners delay).
Proof. frames_def Session._getPlacementInformation. Qed.
#[export] Hint Resolve frames_getPlacementInformation : frame.

Lemma frames_receivePlacementInformation info :
  frames (Session._receivePlacementInformation Player.listeners info).
Proof. frames_def Session._receivePlacementInformation. Qed.

Lemma frames_failedPlacementInformation delay :
  frames (Session._failedPlacementInformation delay).
Proof. frames_def Session._failedPlacementInformation. Qed.

Lemma frames_isTuned : frames Session.isTuned.
Proof. frames_def Session.isTuned. Qed.

Lemma frames_hasActivePlayStarted : frames Session.hasActivePlayStarted.
Proof. frames_def Session.hasActivePlayStarted. Qed.

Lemma frames_getActivePlay : frames Session.getActivePlay.
Proof. frames_def Session.getActivePlay. Qed.

Lemma frames_reportPlayStarted : frames (Session.reportPlayStarted Player.listeners).
Proof. frames_def Session.reportPlayStarted. Qed.

Lemma frames_reportPlayElapsed seconds : frames (Session.reportPlayElapsed seconds).
Proof. frames_def Session.reportPlayElapsed. Qed.

Lemma frames_reportPlayCompleted : frames Session.reportPlayCompleted.
Proof. frames_def Session.reportPlayCompleted. Qed.

Lemma frames_requestSkip : frames (Session.requestSkip Player.listeners).
Proof. frames_def Session.requestSkip. Qed.

Lemma frames_sendInvalidate play delay : frames (Session._sendInvalidate play delay).
Proof. frames_def Session._sendInvalidate. Qed.
#[export] Hint Resolve frames_sendInvalidate : frame.

Lemma frames_requestInvalidate : frames Session.requestInvalidate.
Proof. frames_def Session.requestInvalidate. Qed.

Lemma frames_failInvalidate delay play : frames (Session._failInvalidate delay play).
Proof. frames_def Session._failInvalidate. Qed.

Lemma frames_failSkip play : frames (Session._failSkip Player.listeners play).
Proof. frames_def Session._failSkip. Qed.

Lemma frames_mark_liked id v : frames (Session.mark_liked id v).
Proof. frames_def Session.mark_liked. Qed.
#[export] Hint Resolve frames_mark_liked : frame.

Lemma frames_likePlay id : frames (Session.likePlay id).
Proof. frames_def Session.likePlay. Qed.

Lemma frames_unlikePlay id : frames (Session.unlikePlay id).
Proof. frames_def Session.unlikePlay. Qed.

Lemma frames_dislikePlay id : frames (Session.dislikePlay id).
Proof. frames_def Session.dislikePlay. Qed.

Lemma frames_session_suspend p : frames (Session.suspend p).
Proof. frames_def Session.suspend. Qed.

#[export] Hint Resolve frames_receiveClientId frames_failedClientId
  frames_failedNextPlay frames_failStartPlay
  frames_receiveDefaultPlacementInformation
  frames_failedDefaultPlacementInformation
  frames_receivePlacementInformation frames_failedPlacementInformation
  frames_isTuned frames_hasActivePlayStarted frames_getActivePlay
  frames_reportPlayStarted frames_reportPlayElapsed frames_reportPlayCompleted
  frames_requestSkip frames_requestInvalidate frames_failInvalidate
  frames_failSkip frames_likePlay frames_unlikePlay frames_dislikePlay
  frames_session_suspend : frame.

Ltac frames_player :=
  unfold Player._onSoundPlay, Player._onSoundPause, Player._onSoundFinish,
    Player._onSoundElapse, Player.pause, Player.like, Player.unlike,
    Player.skip, Player.suspend, Player.active_id, Player.trigger,
    Player.pause;
  frames_tac.

Lemma frames_onSoundPlay id : frames (Player._onSoundPlay id).
Proof. frames_player. Qed.

Lemma frames_onSoundPause id : frames (Player._onSoundPause id).
Proof. frames_player. Qed.

Lemma frames_onSoundFinish id e : frames (Player._onSoundFinish id e).
Proof. frames_player. Qed.

Lemma frames_onSoundElapse id p : frames (Player._onSoundElapse id p).
Proof. frames_player. Qed.

Lemma frames_player_pause : frames Player.pause.
Proof. frames_player. Qed.

Lemma frames_player_like : frames Player.like.
Proof. frames_player. Qed.

Lemma frames_player_unlike : frames Player.unlike.
Proof. frames_player. Qed.

Lemma frames_player_skip : frames Player.skip.
Proof. frames_player. Qed.

Lemma frames_player_dislike : frames Player.dislike.
Proof.
  unfold Player.dislike, Player.active_id, Player.trigger. frames_tac.
  apply frames_player_skip.
Qed.

Lemma frames_player_suspend p : frames (Player.suspend p).
Proof. frames_player. Qed.

#[export] Hint Resolve frames_onSoundPlay frames_onSoundPause
  frames_onSoundFinish frames_onSoundElapse frames_player_pause
  frames_player_like frames_player_unlike frames_player_skip
  frames_player_dislike frames_player_suspend : frame.

Lemma frames_engine s e : frames (engine s e).
Proof.
  intros w. unfold engine, exec.
  destruct (existsb (Nat.eqb (sound_id s)) (outstandingPlays w));
    [|apply R_frame_refl].
  destruct e as [| |[|]|p].
  - apply frames_onSoundPlay.
  - apply frames_onSoundPause.
  - revert w. change (frames (Player._onSoundFinish (sound_playId s) true ;; Speaker.destroy s)). frames_tac.
  - revert w. change (frames (Speaker.forget s ;; Player._onSoundFinish (sound_playId s) false)). frames_tac.
  - apply frames_onSoundElapse.
Qed.

Lemma frames_fire cb : frames (fire cb).
Proof. destruct cb; cbn [fire]; frames_tac. Qed.

(** ** Only an input that retires the current play promotes the pending one *)

Lemma harmless_not_promotes w w' : harmless w w' -> ~ promotes w w'.
Proof.
  intros H [q (Hq & Hn & Hc & Hd)].
  destruct H as [H | [H | [H | H]]]; congruence.
Qed.

Lemma R_pp_refl w : R_pp w w.
Proof. reflexivity. Qed.

Lemma R_pp_trans a b c : R_pp a b -> R_pp b c -> R_pp a c.
Proof. unfold R_pp. congruence. Qed.

Lemma frames_R_pp A (m : JS A) : frames m -> respects R_pp m.
Proof. intros H w. apply H. Qed.

Ltac pp_leaf :=
  first [ apply frames_R_pp; solve [auto with frame nocore]
        | apply frames_R_pp; apply frames_modifyConfig; intro; split; reflexivity ].

Lemma R_pp_set_current v : respects R_pp (modifyConfig (set_current v)).
Proof. intro w. reflexivity. Qed.

Lemma R_pp_set_pendingRequest v :
  respects R_pp (modifyConfig (set_pendingRequest v)).
Proof. intro w. reflexivity. Qed.

Lemma R_pp_assignCurrentPlay play waitingIfEmpty :
  respects R_pp (Session._assignCurrentPlay Player.listeners play waitingIfEmpty).
Proof.
  unfold Session._assignCurrentPlay.
  respects_with R_pp_refl R_pp_trans
    ltac:(first [apply R_pp_set_current | pp_leaf]).
Qed.

Lemma R_tune_refl w : R_tune w w.
Proof. right. apply R_frame_refl. Qed.

Lemma R_tune_trans a b c : R_tune a b -> R_tune b c -> R_tune a c.
Proof.
  intros [H1 | H1] [H2 | H2].
  - left; exact H2.
  - left. destruct H2 as [_ H2]. congruence.
  - left; exact H2.
  - right. eapply R_frame_trans; eassumption.
Qed.

Lemma frames_R_tune A (m : JS A) : frames m -> respects R_tune m.
Proof. intros H w. right. apply H. Qed.

Lemma exec_bind_cases A B (m : JS A) (k : A -> JS B) (P : World -> Prop) w :
  P (exec m w) -> (forall a, P (exec (k a) (exec m w))) ->
  P (exec (bind m k) w).
Proof.
  intros H1 H2. rewrite exec_bind. destruct (fst (m w)); auto.
Qed.

Lemma exec_bind_returns A B (m : JS A) (k : A -> JS B) w a :
  fst (m w) = Return a -> exec (bind m k) w = exec (k a) (exec m w).
Proof. intro H. rewrite exec_bind, H. reflexivity. Qed.

Lemma trigger_returns e w :
  fst (Session.trigger Player.listeners e w) = Return tt.
Proof.
  world w.
  unfold Session.trigger, Player.listeners, Player._onPlayActive,
    Player._onPlayStarted, Player._onPlayCompleted, Player._onPlaysExhausted,
    Player.binding_of, Speaker.create, Speaker.destroy, Speaker.forget,
    Speaker.play, modifyActivePlay, bind, fresh, emit, modifyState, getState.
  destruct e; cbn; try reflexivity.
  - destruct pa; reflexivity.
  - destruct ap as [a|]; cbn; [|reflexivity].
    destruct (String.eqb (ap_id a) (play_id play)); cbn; [|reflexivity].
    destruct (soundCompleted a); [destruct (soundCompletedWithError a)|];
      reflexivity.
  - destruct ap as [a|]; cbn; [|reflexivity].
    destruct (String.eqb (ap_id a) (play_id play)); reflexivity.
Qed.

Lemma assign_none_idle waitingIfEmpty w :
  current_obj
    (exec (Session._assignCurrentPlay Player.listeners None waitingIfEmpty) w)
  = None.
Proof.
  unfold Session._assignCurrentPlay.
  rewrite (@exec_bind_returns _ _ getConfig _ w (config w) eq_refl).
  change (exec getConfig w) with w.
  assert (H : forall w', current_obj w' = None ->
            current_obj (exec (if waitingIfEmpty then ret tt
                               else Session.trigger Player.listeners plays_exhausted) w') = None).
  { intros w' Hw'. destruct waitingIfEmpty; [exact Hw'|].
    destruct (frames_trigger plays_exhausted w') as [_ ->]. exact Hw'. }
  destruct (current (config w)) as [c|] eqn:E.
  - apply exec_bind_cases.
    + rewrite (@exec_bind_returns _ _ _ _ w tt (trigger_returns _ w)).
      reflexivity.
    + intros _. apply H.
      rewrite (@exec_bind_returns _ _ _ _ w tt (trigger_returns _ w)).
      reflexivity.
  - apply exec_bind_cases.
    + unfold current_obj. cbn. rewrite E. reflexivity.
    + intros _. apply H. unfold current_obj. cbn. rewrite E. reflexivity.
Qed.

Lemma R_tune_tune : respects R_tune (Session.tune Player.listeners).
Proof.
  intro w. unfold Session.tune.
  rewrite (@exec_bind_returns _ _ getConfig _ w (config w) eq_refl).
  change (exec getConfig w) with w.
  destruct (negb (truthy (token (config w)))); [apply R_tune_refl|].
  destruct (negb (truthy (secret (config w)))); [apply R_tune_refl|].
  left.
  rewrite (@exec_bind_returns _ _ (modifyConfig _) _ w tt eq_refl).
  set (w1 := exec (modifyConfig (set_pendingRequest None)) w).
  rewrite (@exec_bind_returns _ _ (modifyConfig _) _ w1 tt eq_refl).
  set (w2 := exec (modifyConfig (set_pendingPlay None)) w1).
  apply exec_bind_cases; [apply assign_none_idle|].
  intros _.
  set (w3 := exec (Session._assignCurrentPlay Player.listeners None true) w2).
  assert (H3 : current_obj w3 = None) by apply assign_none_idle.
  destruct (negb (truthy (placementId (config w)))).
  - destruct (frames_getDefaultPlacementInformation None w3) as [_ ->].
    exact H3.
  - destruct (frames_getPlacementInformation None w3) as [_ ->].
    exact H3.
Qed.

Ltac tune_leaf :=
  first [ apply R_tune_tune
        | apply frames_R_tune; solve [auto with frame nocore]
        | apply frames_R_tune; apply frames_modifyConfig; intro; split;
          reflexivity ].

Ltac tune_tac := respects_with R_tune_refl R_tune_trans ltac:(tune_leaf).

Lemma R_tune_retune : respects R_tune (Session._retune Player.listeners).
Proof. unfold Session._retune. tune_tac. Qed.

Lemma R_tune_api c :
  match c with
  | player_unsuspend _ _ | session_unsuspend _ => False
  | _ => True
  end ->
  respects R_tune (api c).
Proof.
  destruct c; intro Hc; try contradiction; cbn [api];
    unfold Player.setPlacementId, Player.setStationId, Session.setPlacementId,
      Session.setStationId, Session.setFormats, Session.setCredentials,
      Session.setMaxBitrate, Player.tune, Player.play, Player.session_tune,
      Speaker.resume, Speaker.play;
    respects_with R_tune_refl R_tune_trans
      ltac:(first [apply R_tune_retune | tune_leaf]).
Qed.

Lemma harmless_of_tune w w' : R_tune w w' -> harmless w w'.
Proof.
  intros [H | [H _]]; unfold harmless; auto.
Qed.

Lemma harmless_of_pp w w' : R_pp w w' -> harmless w w'.
Proof. intro H. left. exact H. Qed.

Lemma unsuspend_cases saved w :
  let w' := exec (Session.unsuspend Player.listeners saved) w in
  R_pp w w' \/ R_tune w w'.
Proof.
  destruct saved as [pid sid pl sts [play|] can].
  - left. revert w.
    change (respects R_pp
              (Session.unsuspend Player.listeners
                 (Build_Saved pid sid pl sts (Some play) can))).
    unfold Session.unsuspend; cbn [saved_placementId saved_stationId
      saved_play saved_placement saved_stations saved_canSkip].
    respects_with R_pp_refl R_pp_trans
      ltac:(first [apply R_pp_assignCurrentPlay | pp_leaf]).
  - right. revert w.
    change (respects R_tune
              (Session.unsuspend Player.listeners
                 (Build_Saved pid sid pl sts None can))).
    unfold Session.unsuspend; cbn [saved_placementId saved_stationId
      saved_play saved_placement saved_stations saved_canSkip].
    tune_tac.
Qed.

Lemma harmless_session_unsuspend saved w :
  harmless w (exec (Session.unsuspend Player.listeners saved) w).
Proof.
  destruct (unsuspend_cases saved w) as [H | H];
    [apply harmless_of_pp | apply harmless_of_tune]; exact H.
Qed.

Lemma harmless_player_unsuspend saved startPlayback w :
  harmless w (exec (Player.unsuspend saved startPlayback) w).
Proof.
  unfold Player.unsuspend. apply exec_bind_cases.
  - apply harmless_session_unsuspend.
  - intros _.
    set (w1 := exec (Session.unsuspend Player.listeners saved) w).
    assert (H2 : R_tune w1 (exec (if startPlayback then Player.play else ret tt) w1)).
    { destruct startPlayback; [|apply R_tune_refl].
      apply (@R_tune_api player_play I). }
    destruct (unsuspend_cases saved w) as [H1 | H1]; fold w1 in H1.
    + destruct H2 as [H2 | [H2 _]]; unfold harmless, R_pp in *.
      * auto.
      * left. congruence.
    + apply harmless_of_tune. eapply R_tune_trans; eassumption.
Qed.

Lemma harmless_receiveNextPlay ajax response w :
  harmless w (exec (Session._receiveNextPlay Player.listeners ajax response) w).
Proof.
  unfold Session._receiveNextPlay.
  rewrite (@exec_bind_returns _ _ getConfig _ w (config w) eq_refl).
  change (exec getConfig w) with w.
  destruct (pendingRequest (config w)) as [pr|]; [|left; reflexivity].
  destruct (same_ajax (req_ajax pr) ajax); [|left; reflexivity].
  rewrite (@exec_bind_returns _ _ (modifyConfig _) _ w tt eq_refl).
  set (w1 := exec (modifyConfig (set_pendingRequest None)) w).
  assert (H1 : R_frame w w1) by (split; reflexivity).
  destruct response as [play | [code|]].
  - destruct (current (config w)) as [c|] eqn:E.
    + right; left. cbn. discriminate.
    + left. rewrite (R_pp_assignCurrentPlay (Some play) false w1).
      reflexivity.
  - assert (H9 : forall m : JS unit, frames m ->
              harmless w (exec (match current (config w) with
                                | Some _ => modifyConfig (set_pendingPlay None)
                                | None => m
                                end) w1)).
    { intros m Hm. destruct (current (config w)) as [c|] eqn:E.
      - right; right; left. unfold current_obj. cbn. reflexivity.
      - left. destruct (Hm w1) as [-> _]. reflexivity. }
    destruct code as [|p|p]; try (left; reflexivity).
    do 4 (destruct p as [p|p|]; try (left; reflexivity)).
    apply H9. apply frames_trigger.
  - left. reflexivity.
Qed.

Lemma frames_receiveSkip_denied play :
  frames (Session._receiveSkip Player.listeners play false).
Proof. unfold Session._receiveSkip. cbn [negb]. frames_tac. Qed.

Lemma frames_receiveInvalidate_failed play :
  frames (Session._receiveInvalidate Player.listeners play false).
Proof. unfold Session._receiveInvalidate. cbn [negb]. frames_tac. Qed.

Lemma harmless_of_frame w w' : R_frame w w' -> harmless w w'.
Proof. intros [H _]. left. exact H. Qed.

Lemma harmless_step i w : retires i = false -> harmless w (step i w).
Proof.
  intro Hi. unfold step.
  destruct i; cbn [handler]; try discriminate Hi.
  - apply harmless_of_frame, frames_receiveDefaultPlacementInformation.
  - apply harmless_of_frame, frames_failedDefaultPlacementInformation.
  - apply harmless_of_frame, frames_receivePlacementInformation.
  - apply harmless_of_frame, frames_failedPlacementInformation.
  - apply harmless_of_frame, frames_receiveClientId.
  - apply harmless_of_frame, frames_failedClientId.
  - apply harmless_receiveNextPlay.
  - apply harmless_of_frame, frames_failedNextPlay.
  - apply harmless_of_frame, frames_receiveStartPlay.
  - apply harmless_of_frame, frames_failStartPlay.
  - destruct success; [discriminate Hi|].
    apply harmless_of_frame, frames_receiveSkip_denied.
  - apply harmless_of_frame, frames_failSkip.
  - destruct success; [discriminate Hi|].
    apply harmless_of_frame, frames_receiveInvalidate_failed.
  - apply harmless_of_frame, frames_failInvalidate.
  - apply harmless_of_frame, frames_fire.
  - apply harmless_of_frame, frames_engine.
  - destruct c; try (apply harmless_of_tune, R_tune_api; exact I); cbn [api].
    + apply harmless_player_unsuspend.
    + unfold ignore. apply exec_bind_cases.
      * apply harmless_session_unsuspend.
      * intros _. apply harmless_session_unsuspend.
Qed.

Lemma promotion_retires i w : promotes w (step i w) -> retires i = true.
Proof.
  intro H. destruct (retires i) eqn:E; [reflexivity|].
  exfalso. exact (harmless_not_promotes (harmless_step i w E) H).
Qed.

(** ** Handlers that leave the two play slots alone *)

Lemma R_slots_refl w : R_slots w w.
Proof. split; reflexivity. Qed.

Lemma R_slots_trans a b c : R_slots a b -> R_slots b c -> R_slots a c.
Proof. unfold R_slots. intros [H1 H2] [H3 H4]. split; congruence. Qed.

Create HintDb slots discriminated.

Lemma slots_config_untouched A (m : JS A) :
  (forall w, config (exec m w) = config w) -> respects R_slots m.
Proof. intros H w. unfold R_slots. rewrite H. split; reflexivity. Qed.

Lemma slots_modifyConfig f :
  (forall c, current (f c) = current c /\ pendingPlay (f c) = pendingPlay c) ->
  respects R_slots (modifyConfig f).
Proof. intros Hf w. exact (Hf (config w)). Qed.

Lemma slots_modifyActivePlay f : respects R_slots (modifyActivePlay f).
Proof.
  apply slots_config_untouched. intro w. unfold exec, modifyActivePlay.
  destruct (activePlay (state w)); reflexivity.
Qed.

#[export] Hint Resolve slots_modifyActivePlay : slots.
#[export] Hint Extern 1 (respects R_slots (modifyConfig _)) =>
  (apply slots_modifyConfig; intro; split; reflexivity) : slots.
#[export] Hint Extern 2 (respects R_slots _) =>
  (apply slots_config_untouched; reflexivity) : slots.

Ltac slots_tac :=
  respects_with R_slots_refl R_slots_trans ltac:(auto with slots nocore).

Lemma slots_listeners e : respects R_slots (Player.listeners e).
Proof.
  destruct e; cbn [Player.listeners];
    unfold Player._onPlayActive, Player._onPlayStarted,
      Player._onPlayCompleted, Player._onPlaysExhausted, Speaker.create,
      Speaker.destroy, Speaker.play; slots_tac.
Qed.
#[export] Hint Resolve slots_listeners : slots.

Lemma slots_trigger e : respects R_slots (Session.trigger Player.listeners e).
Proof. unfold Session.trigger. slots_tac. Qed.
#[export] Hint Resolve slots_trigger : slots.

Lemma slots_idle :
  respects R_slots
    (cfg <- getConfig ;;
     match current cfg with
     | None => Session._assignCurrentPlay Player.listeners None false
     | Some _ => ret tt
     end).
Proof.
  intro w. unfold exec, bind, getConfig; cbn.
  destruct (current (config w)) as [c|] eqn:E; [apply R_slots_refl|].
  unfold Session._assignCurrentPlay, bind, getConfig; cbn. rewrite E.
  change (R_slots w (exec (Session.trigger Player.listeners plays_exhausted) w)).
  apply slots_trigger.
Qed.
#[export] Hint Resolve slots_idle : slots.

Lemma slots_requestNextPlay_then delay :
  respects R_slots (Session._requestNextPlay_then Player.listeners delay).
Proof.
  unfold Session._requestNextPlay_then, Session._signedAjax. slots_tac.
Qed.
#[export] Hint Resolve slots_requestNextPlay_then : slots.

Lemma slots_resolve_with waiting :
  respects R_slots (Session.resolve_with Player.listeners waiting).
Proof.
  induction waiting as [|d rest IH]; cbn [Session.resolve_with]; slots_tac.
Qed.
#[export] Hint Resolve slots_resolve_with : slots.

Lemma slots_requestNextPlay delay :
  respects R_slots (Session._requestNextPlay Player.listeners delay).
Proof.
  unfold Session._requestNextPlay, Session._getClientId,
    Session._requestClientId, Session.saveClientId, Session._signedAjax.
  slots_tac.
Qed.
#[export] Hint Resolve slots_requestNextPlay : slots.

(** ** Handlers that add no effect of a given kind to the trace *)

Lemma R_quiet_refl sel w : R_quiet sel w w.
Proof. reflexivity. Qed.

Lemma R_quiet_trans sel a b c :
  R_quiet sel a b -> R_quiet sel b c -> R_quiet sel a c.
Proof. unfold R_quiet. congruence. Qed.

Lemma quiet_emit sel e : sel e = false -> respects (R_quiet sel) (emit e).
Proof.
  intros He w. unfold R_quiet, exec, emit; cbn.
  rewrite filter_app; cbn. rewrite He. apply app_nil_r.
Qed.

Lemma quiet_trace_untouched sel A (m : JS A) :
  (forall w, trace (exec m w) = trace w) -> respects (R_quiet sel) m.
Proof. intros H w. unfold R_quiet. rewrite H. reflexivity. Qed.

Lemma quiet_modifyActivePlay sel f : respects (R_quiet sel) (modifyActivePlay f).
Proof.
  apply quiet_trace_untouched. intro w. unfold exec, modifyActivePlay.
  destruct (activePlay (state w)); reflexivity.
Qed.

Lemma quiet_modifyCurrent sel f : respects (R_quiet sel) (modifyCurrent f).
Proof.
  apply quiet_trace_untouched. intro w. unfold exec, modifyCurrent.
  destruct (current (config w)); reflexivity.
Qed.

Ltac quiet_leaf :=
  first [ apply quiet_emit; reflexivity
        | apply quiet_modifyActivePlay
        | apply quiet_modifyCurrent
        | apply quiet_trace_untouched; reflexivity ].

Ltac quiet_tac sel :=
  unfold Session.trigger, Session._signedAjax;
  cbn [Player.listeners];
  unfold Player._onPlayActive, Player._onPlayStarted, Player._onPlayCompleted,
    Player._onPlaysExhausted, Speaker.create, Speaker.destroy, Speaker.play;
  respects_with (R_quiet_refl sel) (@R_quiet_trans sel)
    ltac:(first [assumption | quiet_leaf]).

Ltac quiet_requestNextPlay sel :=
  unfold Session._requestNextPlay, Session._getClientId,
    Session._requestClientId, Session.saveClientId;
  quiet_tac sel.

Lemma quiet_assignCurrentPlay_report play waitingIfEmpty :
  respects (R_quiet is_report)
    (Session._assignCurrentPlay Player.listeners play waitingIfEmpty).
Proof. unfold Session._assignCurrentPlay. quiet_tac is_report. Qed.

Lemma quiet_requestNextPlay_then_report delay :
  respects (R_quiet is_report)
    (Session._requestNextPlay_then Player.listeners delay).
Proof.
  unfold Session._requestNextPlay_then.
  respects_with (R_quiet_refl is_report) (@R_quiet_trans is_report)
    ltac:(first [apply quiet_assignCurrentPlay_report | unfold Session._signedAjax; quiet_leaf]).
Qed.

Lemma quiet_resolve_with_report waiting :
  respects (R_quiet is_report) (Session.resolve_with Player.listeners waiting).
Proof.
  induction waiting as [|d rest IH]; cbn [Session.resolve_with];
    respects_with (R_quiet_refl is_report) (@R_quiet_trans is_report)
      ltac:(first [assumption | apply quiet_requestNextPlay_then_report]).
Qed.

Lemma quiet_requestNextPlay_report delay :
  respects (R_quiet is_report) (Session._requestNextPlay Player.listeners delay).
Proof.
  unfold Session._requestNextPlay, Session._getClientId,
    Session._requestClientId, Session.saveClientId, Session._signedAjax.
  respects_with (R_quiet_refl is_report) (@R_quiet_trans is_report)
    ltac:(first [ apply quiet_requestNextPlay_then_report
                | apply quiet_resolve_with_report | quiet_leaf ]).
Qed.

Ltac open_world w :=
  destruct w as [[w_tok w_sec w_pid w_pl w_sid w_sts w_cid w_secure w_fmt
                  w_rate w_cur w_preq w_pp]
                 w_cp w_scid [w_paused w_susp w_ap] w_ops w_heap w_tr];
  cbn [config clientPromise storedCid state outstandingPlays heap trace
       token secret placementId placement stationId stations clientId secure
       formats maxBitrate current pendingRequest pendingPlay paused suspended
       activePlay] in *.

(** ** The start-acknowledgment race (C3) *)

Lemma onSoundFinish_defers w ap withError :
  activePlay (state w) = Some ap ->
  playStarted ap = true ->
  startReportedToServer ap = false ->
  Player._onSoundFinish (ap_id ap) withError w =
  (Return tt, with_state (set_activePlay (Some (after_finish withError ap))) w).
Proof.
  intros Hap Hps Hsr. open_world w. subst w_ap.
  unfold Player._onSoundFinish, Player.binding_of, bind, getState,
    modifyActivePlay, after_finish; cbn.
  rewrite String.eqb_refl; cbn.
  destruct withError; cbn; rewrite Hps, Hsr; reflexivity.
Qed.

Lemma receiveStartPlay_current w c play response :
  current (config w) = Some c ->
  same_play (cur_play c) play = true ->
  start_success response = true ->
  Session._receiveStartPlay Player.listeners play response w =
  (Session.trigger Player.listeners (play_started play) ;;
   Session._requestNextPlay Player.listeners None)
    (with_config
       (set_current (Some (set_started true (set_canSkip (can_skip response) c))))
       w).
Proof.
  intros Hc Hp Hs. open_world w. subst w_cur.
  unfold Session._receiveStartPlay. rewrite Hs.
  unfold bind at 1. unfold getConfig at 1. cbn [config current].
  rewrite Hp. reflexivity.
Qed.

Lemma trigger_play_started w ap play :
  activePlay (state w) = Some ap ->
  ap_id ap = play_id play ->
  Session.trigger Player.listeners (play_started play) w =
  (Return tt,
   (if soundCompleted ap
    then with_trace (fun t => t ++ [Defer (deferred_report ap)])
    else fun w : World => w)
     (with_state (set_activePlay (Some (set_startReportedToServer true ap)))
        (with_trace (fun t => t ++ [Trigger (play_started play)]) w))).
Proof.
  intros Hap Hid. open_world w. subst w_ap.
  unfold Session.trigger, Player.listeners, Player._onPlayStarted,
    Player.binding_of, deferred_report, bind, emit, getState,
    modifyActivePlay; cbn.
  rewrite Hid, String.eqb_refl; cbn.
  destruct (soundCompleted ap); [destruct (soundCompletedWithError ap)|];
    reflexivity.
Qed.

Lemma reportPlayCompleted_started w c :
  current (config w) = Some c ->
  cur_started c = true ->
  Session.reportPlayCompleted w =
  (Return tt,
   with_trace (fun t => t ++ [SignedAjax (POST_complete (play_id (cur_play c)))]) w).
Proof.
  intros Hc Hs. unfold Session.reportPlayCompleted, bind, getConfig,
    Session._signedAjax, emit. rewrite Hc, Hs. reflexivity.
Qed.

Lemma requestInvalidate_current w c :
  current (config w) = Some c ->
  Session.requestInvalidate w =
  (Return tt,
   with_trace (fun t => t ++ [SignedAjax (POST_invalidate (cur_play c) None)]) w).
Proof.
  intros Hc. unfold Session.requestInvalidate, Session._sendInvalidate, bind,
    getConfig, Session._signedAjax, emit. rewrite Hc. reflexivity.
Qed.

Lemma same_play_refl p : same_play p p = true.
Proof. apply Nat.eqb_refl. Qed.

(** One acknowledgment: when the sound of the current play finishes after
    playback began but before the session acknowledged the start, the
    player reports nothing at the finish (no effect, session untouched).
    When an acknowledgment is then processed, [play-started] is announced
    first and one report is deferred; when the deferred callback runs it
    sends one request: a completion, or an invalidation when the finish (or
    an earlier one) carried the error flag. *)
Theorem finish_before_start_acknowledgment :
  forall (w : World) (ap : ActivePlay) (c : Current) (withError : bool)
         (response : StartResponse),
    activePlay (state w) = Some ap ->
    current (config w) = Some c ->
    ap_id ap = play_id (cur_play c) ->
    playStarted ap = true ->
    startReportedToServer ap = false ->
    start_success response = true ->
    let play := cur_play c in
    let error := if withError then true else soundCompletedWithError ap in
    let cb := if error then Cb_requestInvalidate else Cb_reportPlayCompleted in
    let w1 := exec (Player._onSoundFinish (ap_id ap) withError) w in
    let w2 := exec (Session._receiveStartPlay Player.listeners play response) w1 in
    let w3 := exec (fire cb) w2 in
    trace w1 = trace w /\
    config w1 = config w /\
    filter is_report (trace w2) =
      filter is_report (trace w) ++ [Trigger (play_started play); Defer cb] /\
    filter is_report (trace w3) =
      filter is_report (trace w2) ++
      [SignedAjax (if error then POST_invalidate play None
                   else POST_complete (play_id play))].
Proof.
  intros w ap c withError response Hap Hc Hid Hps Hsr Hok play error cb w1 w2 w3.
  assert (E1 : w1 = with_state (set_activePlay (Some (after_finish withError ap))) w).
  { unfold w1, exec. rewrite (onSoundFinish_defers w withError Hap Hps Hsr).
    reflexivity. }
  assert (Hc1 : current (config w1) = Some c) by (rewrite E1; exact Hc).
  set (c' := set_started true (set_canSkip (can_skip response) c)).
  set (wa := with_config (set_current (Some c')) w1).
  assert (Hapa : activePlay (state wa) = Some (after_finish withError ap)).
  { unfold wa. rewrite E1. reflexivity. }
  assert (Hida : ap_id (after_finish withError ap) = play_id play).
  { unfold after_finish. destruct withError; exact Hid. }
  assert (Hdone : soundCompleted (after_finish withError ap) = true).
  { unfold after_finish. destruct withError; reflexivity. }
  assert (Hcb : deferred_report (after_finish withError ap) = cb).
  { unfold deferred_report, after_finish, cb, error.
    destruct withError; reflexivity. }
  pose proof (trigger_play_started wa play Hapa Hida) as Ht.
  rewrite Hdone, Hcb in Ht.
  set (wb := with_trace (fun t => t ++ [Defer cb])
               (with_state
                  (set_activePlay
                     (Some (set_startReportedToServer true
                              (after_finish withError ap))))
                  (with_trace (fun t => t ++ [Trigger (play_started play)]) wa)))
    in Ht.
  assert (E2 : w2 = exec (Session._requestNextPlay Player.listeners None) wb).
  { unfold w2, exec.
    rewrite (receiveStartPlay_current w1 play response Hc1
               (same_play_refl _) Hok).
    fold c'. fold wa. unfold bind. rewrite Ht. reflexivity. }
  assert (Hq : filter is_report (trace w2) = filter is_report (trace wb)).
  { rewrite E2. apply quiet_requestNextPlay_report. }
  assert (Hc2 : current (config w2) = Some c').
  { rewrite E2. destruct (slots_requestNextPlay None wb) as [-> _].
    reflexivity. }
  repeat split.
  - rewrite E1. reflexivity.
  - rewrite E1. reflexivity.
  - rewrite Hq. unfold wb, wa. rewrite E1. cbn [trace with_trace with_state with_config].
    rewrite !filter_app. cbn. rewrite <- ?app_assoc. reflexivity.
  - unfold w3, exec, cb. destruct error; cbn [fire].
    + rewrite (requestInvalidate_current w2 Hc2). cbn.
      rewrite filter_app. reflexivity.
    + rewrite (reportPlayCompleted_started w2 Hc2 eq_refl). cbn.
      rewrite filter_app. reflexivity.
Qed.


Ltac run_handlers :=
  unfold Session._assignCurrentPlay, Session.trigger, Player.listeners,
    Player._onPlayActive, Player._onPlayStarted, Player._onPlayCompleted,
    Player._onPlaysExhausted, Player.binding_of, Speaker.create,
    Speaker.destroy, Speaker.forget, Speaker.play, modifyActivePlay,
    modifyConfig, modifyState, bind, fresh, emit, getState, getConfig, ret,
    exec;
  cbn.

(** ** Skipping (C4) *)

(** The listeners never touch the configuration, so after
    [_assignCurrentPlay] only the current slot differs. *)
Lemma assign_config w play waitingIfEmpty :
  config (exec (Session._assignCurrentPlay Player.listeners play waitingIfEmpty) w)
  = set_current (option_map new_current play) (config w).
Proof.
  open_world w. run_handlers.
  destruct w_cur as [c|]; cbn.
  - destruct w_ap as [a|]; cbn;
      [destruct (String.eqb (ap_id a) (play_id (cur_play c))); cbn|];
      (destruct play as [p|]; cbn;
       [ try (destruct w_paused; cbn); reflexivity
       | destruct waitingIfEmpty; reflexivity ]).
  - destruct play as [p|]; cbn;
      [ destruct w_paused; reflexivity
      | destruct waitingIfEmpty; reflexivity ].
Qed.

Lemma assign_none_announces w :
  exists t,
    trace (exec (Session._assignCurrentPlay Player.listeners None false) w)
    = t ++ [Trigger plays_exhausted].
Proof.
  open_world w. run_handlers.
  destruct w_cur as [c|]; cbn.
  - destruct w_ap as [a|]; cbn;
      [destruct (String.eqb (ap_id a) (play_id (cur_play c))); cbn|];
      eexists; reflexivity.
  - eexists; reflexivity.
Qed.

(** C4: for a started current play, [requestSkip] with [canSkip = false]
    announces [skip-denied] and sends nothing; with [canSkip = true] it sends
    the skip request.  A granted skip makes the pending play current, or
    leaves no current play when none is pending (announcing
    [plays-exhausted] when no request is outstanding either).  A refused
    skip and a failed request announce [skip-denied] and change nothing
    else; replies that name another play are ignored. *)
Theorem skip_protocol :
  forall (w : World) (c : Current),
    current (config w) = Some c ->
    cur_started c = true ->
    let play := cur_play c in
    let denied := (Return tt, with_trace (fun t => t ++ [Trigger skip_denied]) w) in
    (cur_canSkip c = false -> Session.requestSkip Player.listeners w = denied) /\
    (cur_canSkip c = true ->
     Session.requestSkip Player.listeners w =
     (Return tt, with_trace (fun t => t ++ [SignedAjax (POST_skip play)]) w)) /\
    (let w' := exec (Session._receiveSkip Player.listeners play true) w in
     match pendingPlay (config w) with
     | Some q =>
         current (config w') = Some (new_current q) /\
         pendingPlay (config w') = None
     | None =>
         current (config w') = None /\
         (pendingRequest (config w) = None ->
          exists t, trace w' = t ++ [Trigger plays_exhausted])
     end) /\
    Session._receiveSkip Player.listeners play false w = denied /\
    Session._failSkip Player.listeners play w = denied /\
    (forall other success,
        same_play play other = false ->
        Session._receiveSkip Player.listeners other success w = (Return tt, w) /\
        Session._failSkip Player.listeners other w = (Return tt, w)).
Proof.
  intros w c Hc Hs play denied.
  assert (Hsame : same_play (cur_play c) play = true) by apply same_play_refl.
  repeat split.
  - intro Hk. unfold Session.requestSkip, bind, getConfig.
    rewrite Hc, Hs, Hk. reflexivity.
  - intro Hk. unfold Session.requestSkip, bind, getConfig.
    rewrite Hc, Hs, Hk. reflexivity.
  - cbv zeta. unfold Session._receiveSkip.
    rewrite (@exec_bind_returns _ _ getConfig _ w (config w) eq_refl).
    change (exec getConfig w) with w. rewrite Hc, Hsame. cbn [negb].
    destruct (pendingPlay (config w)) as [q|] eqn:Hq.
    + rewrite (@exec_bind_returns _ _ (modifyConfig _) _ w tt eq_refl).
      rewrite assign_config. split; reflexivity.
    + destruct (pendingRequest (config w)) as [pr|] eqn:Hr.
      * rewrite assign_config. split; [reflexivity | discriminate].
      * rewrite assign_config. split; [reflexivity|].
        intros _. apply assign_none_announces.
  - unfold Session._receiveSkip, bind, getConfig. rewrite Hc, Hsame. reflexivity.
  - unfold Session._failSkip, bind, getConfig. rewrite Hc, Hsame. reflexivity.
  - unfold Session._receiveSkip, bind, getConfig. rewrite Hc.
    fold play. rewrite H. reflexivity.
  - unfold Session._failSkip, bind, getConfig. rewrite Hc.
    fold play. rewrite H. reflexivity.
Qed.

(** ** Elapsed-time reports (C7) *)

Lemma onSoundElapse_spec w ap c position :
  activePlay (state w) = Some ap ->
  current (config w) = Some c ->
  Player._onSoundElapse (ap_id ap) position w =
  (Return tt, after_elapse ap c position w).
Proof.
  intros Hap Hc. open_world w. subst w_ap w_cur.
  unfold Player._onSoundElapse, Player.binding_of, Session.reportPlayElapsed,
    Session._signedAjax, after_elapse, bind, getState, getConfig,
    modifyActivePlay, emit; cbn.
  rewrite String.eqb_refl; cbn.
  change (30 * 1000) with 30000.
  destruct (position / 30000 =? previousPosition ap / 30000); reflexivity.
Qed.

Lemma elapse_all_trace positions :
  forall w ap c,
    activePlay (state w) = Some ap ->
    current (config w) = Some c ->
    trace (elapse_all (ap_id ap) positions w) =
    trace w ++
    elapse_reports (play_id (cur_play c)) (previousPosition ap) positions.
Proof.
  induction positions as [|p rest IH]; intros w ap c Hap Hc.
  - cbn. symmetry. apply app_nil_r.
  - unfold elapse_all. cbn [fold_left].
    unfold exec at 2. rewrite (onSoundElapse_spec w p Hap Hc).
    cbn [snd].
    change (ap_id ap) with (ap_id (set_previousPosition p ap)).
    fold (elapse_all (ap_id (set_previousPosition p ap)) rest
            (after_elapse ap c p w)).
    rewrite (IH (after_elapse ap c p w) (set_previousPosition p ap) c).
    + unfold after_elapse. cbn [elapse_reports previousPosition set_previousPosition].
      destruct (p / 30000 =? previousPosition ap / 30000); cbn [trace with_trace with_state];
        [reflexivity | rewrite <- app_assoc; reflexivity].
    + unfold after_elapse.
      destruct (p / 30000 =? previousPosition ap / 30000); reflexivity.
    + unfold after_elapse.
      destruct (p / 30000 =? previousPosition ap / 30000); exact Hc.
Qed.

(** C7: an elapse event of the active sound at [position] records the
    position and reports the elapsed seconds to the session exactly when
    [position / 30000] differs from [previousPosition / 30000]; from a
    previous position of 0, the positions 0, 10000, 29999, 30000, 30001 and
    61000 produce exactly two reports, of 30 and of 61 seconds. *)
Theorem elapse_reports_at_boundaries :
  forall (w : World) (ap : ActivePlay) (c : Current),
    activePlay (state w) = Some ap ->
    current (config w) = Some c ->
    (forall position,
        let w' := exec (Player._onSoundElapse (ap_id ap) position) w in
        activePlay (state w') = Some (set_previousPosition position ap) /\
        trace w' =
        trace w ++
        (if position / 30000 =? previousPosition ap / 30000 then []
         else [SignedAjax (POST_elapse (play_id (cur_play c))
                             (position / 1000))])) /\
    (previousPosition ap = 0 ->
     trace (elapse_all (ap_id ap) [0; 10000; 29999; 30000; 30001; 61000] w) =
     trace w ++ [SignedAjax (POST_elapse (play_id (cur_play c)) 30);
                 SignedAjax (POST_elapse (play_id (cur_play c)) 61)]).
Proof.
  intros w ap c Hap Hc. split.
  - intros position w'. unfold w', exec.
    rewrite (onSoundElapse_spec w position Hap Hc). unfold after_elapse; cbn.
    destruct (position / 30000 =? previousPosition ap / 30000); cbn;
      [rewrite app_nil_r|]; split; reflexivity.
  - intro Hp. rewrite (elapse_all_trace _ w Hap Hc), Hp. reflexivity.
Qed.

(** ** Misuse of the interface (C9) *)

(** C9, as stated, fails: pausing a fresh player, which has no active play,
    returns without an error and changes nothing. *)
Lemma pause_without_active_play_is_silent :
  let w := new_Player (Some "token") (Some "secret") false None in
  activePlay (state w) = None /\
  current (config w) = None /\
  Player.pause w = (Return tt, w) /\
  ~ throws Player.pause w.
Proof.
  cbv zeta. repeat split.
  intros [msg H]. discriminate H.
Qed.

(** C9, amended: with no current play, [pause] returns without an error and
    changes nothing, while [reportPlayElapsed] throws at once and changes
    nothing. *)
Theorem misuse_signals :
  forall (w : World),
    current (config w) = None ->
    Player.pause w = (Return tt, w) /\
    forall seconds,
      Session.reportPlayElapsed seconds w =
      (Throw "attempt to report elapsed play time, but the play hasn't started",
       w).
Proof.
  intros w Hc. split.
  - unfold Player.pause, Session.hasActivePlayStarted, bind, getConfig,
      getState. rewrite Hc. cbn.
    destruct (activePlay (state w)); reflexivity.
  - intro seconds. unfold Session.reportPlayElapsed, bind, getConfig.
    rewrite Hc. reflexivity.
Qed.

(** A fresh player. *)
Lemma misuse_signals_witness :
  let w := new_Player (Some "token") (Some "secret") false None in
  Player.pause w = (Return tt, w) /\
  forall seconds,
    Session.reportPlayElapsed seconds w =
    (Throw "attempt to report elapsed play time, but the play hasn't started",
     w).
Proof. exact (misuse_signals (new_Player (Some "token") (Some "secret") false None) eq_refl). Defined.

(** ** Completion with a stranded pending play (C6) *)

Lemma receivePlayCompleted_config w :
  config (exec (Session._receivePlayCompleted Player.listeners) w) =
  match pendingRequest (config w) with
  | None =>
      set_current (option_map new_current (pendingPlay (config w)))
        (set_pendingPlay None (config w))
  | Some _ => set_current None (config w)
  end.
Proof.
  unfold Session._receivePlayCompleted.
  rewrite (@exec_bind_returns _ _ getConfig _ w (config w) eq_refl).
  change (exec getConfig w) with w.
  destruct (pendingRequest (config w)).
  - apply assign_config.
  - rewrite (@exec_bind_returns _ _ (modifyConfig _) _ w tt eq_refl).
    apply assign_config.
Qed.

(** C6: [_receivePlayCompleted] looks at the pending request before the
    pending play.  In [Stranded.before] the current play has started, a
    play is pending and a request is outstanding; the reply to the
    completion report leaves the session without a current play and the
    pending play where it was: it is not announced as active. *)
Theorem completion_strands_pending_play :
  (forall w,
      config (exec (Session._receivePlayCompleted Player.listeners) w) =
      match pendingRequest (config w) with
      | None =>
          set_current (option_map new_current (pendingPlay (config w)))
            (set_pendingPlay None (config w))
      | Some _ => set_current None (config w)
      end) /\
  current (config Stranded.before) =
    Some (set_started true (set_canSkip true (new_current Stranded.play_a))) /\
  pendingPlay (config Stranded.before) = Some Stranded.play_b /\
  pendingRequest (config Stranded.before) <> None /\
  current (config Stranded.after) = None /\
  pendingPlay (config Stranded.after) = Some Stranded.play_b /\
  filter is_play_active (trace Stranded.after) =
    [Trigger (play_active Stranded.play_a)].
Proof.
  split; [exact receivePlayCompleted_config|].
  vm_compute. repeat split. discriminate.
Qed.

(** ** The start acknowledgment (C5, C10) *)

Lemma quiet_listeners_start e : respects (R_quiet is_start) (Player.listeners e).
Proof. destruct e; quiet_tac is_start. Qed.

Lemma quiet_assignCurrentPlay_start play waitingIfEmpty :
  respects (R_quiet is_start)
    (Session._assignCurrentPlay Player.listeners play waitingIfEmpty).
Proof. unfold Session._assignCurrentPlay. quiet_tac is_start. Qed.

Lemma quiet_requestNextPlay_then_start delay :
  respects (R_quiet is_start)
    (Session._requestNextPlay_then Player.listeners delay).
Proof.
  unfold Session._requestNextPlay_then.
  respects_with (R_quiet_refl is_start) (@R_quiet_trans is_start)
    ltac:(first [ apply quiet_assignCurrentPlay_start
                | unfold Session._signedAjax; quiet_leaf ]).
Qed.

Lemma quiet_resolve_with_start waiting :
  respects (R_quiet is_start) (Session.resolve_with Player.listeners waiting).
Proof.
  induction waiting as [|d rest IH]; cbn [Session.resolve_with];
    respects_with (R_quiet_refl is_start) (@R_quiet_trans is_start)
      ltac:(first [assumption | apply quiet_requestNextPlay_then_start]).
Qed.

Lemma quiet_requestNextPlay_start delay :
  respects (R_quiet is_start) (Session._requestNextPlay Player.listeners delay).
Proof.
  unfold Session._requestNextPlay, Session._getClientId,
    Session._requestClientId, Session.saveClientId, Session._signedAjax.
  respects_with (R_quiet_refl is_start) (@R_quiet_trans is_start)
    ltac:(first [ apply quiet_requestNextPlay_then_start
                | apply quiet_resolve_with_start | quiet_leaf ]).
Qed.

(** What a successful (or assumed) start acknowledgment for the current
    play does. *)
Lemma receiveStartPlay_marks w c play response :
  current (config w) = Some c ->
  same_play (cur_play c) play = true ->
  start_success response = true ->
  let w' := exec (Session._receiveStartPlay Player.listeners play response) w in
  current (config w') =
    Some (set_started true (set_canSkip (can_skip response) c)) /\
  filter is_start (trace w') =
    filter is_start (trace w) ++ [Trigger (play_started play)].
Proof.
  intros Hc Hp Hs w'. unfold w', exec.
  rewrite (receiveStartPlay_current w play response Hc Hp Hs).
  set (wa := with_config _ w).
  change (snd ((Session.trigger Player.listeners (play_started play) ;;
                Session._requestNextPlay Player.listeners None) wa))
    with (exec (Session.trigger Player.listeners (play_started play) ;;
                Session._requestNextPlay Player.listeners None) wa).
  rewrite (@exec_bind_returns _ _ _ _ wa tt (trigger_returns _ wa)).
  set (wb := exec (Session.trigger Player.listeners (play_started play)) wa).
  split.
  - destruct (slots_requestNextPlay None wb) as [-> _].
    unfold wb. destruct (slots_trigger (play_started play) wa) as [-> _].
    reflexivity.
  - rewrite (quiet_requestNextPlay_start None wb).
    unfold wb, Session.trigger.
    rewrite (@exec_bind_returns _ _ (emit _) _ wa tt eq_refl).
    rewrite (quiet_listeners_start (play_started play)).
    unfold exec, emit; cbn. rewrite filter_app. reflexivity.
Qed.

(** Once the retry count exceeds two, [_startPlay] takes the start as
    acknowledged and the play as skippable. *)
Lemma startPlay_assumes w c :
  current (config w) = Some c ->
  (2 < cur_retryCount c)%nat ->
  let w' := exec (Session._startPlay Player.listeners (cur_play c)) w in
  current (config w') = Some (set_started true (set_canSkip true c)) /\
  filter is_start (trace w') =
    filter is_start (trace w) ++ [Trigger (play_started (cur_play c))].
Proof.
  intros Hc Hr. unfold exec, Session._startPlay, bind, getConfig.
  rewrite Hc. apply Nat.ltb_lt in Hr. rewrite Hr.
  apply (receiveStartPlay_marks w (cur_play c)
           {| start_success := true; can_skip := true |} Hc
           (same_play_refl _) eq_refl).
Qed.

(** C10: when [_startPlay] finds the retry count of the current play
    above two, and when a start report is rejected with status 403 and error
    code 20, the current play is marked started and skippable and
    [play-started] is announced, whatever the server would have answered
    about skipping. *)
Theorem assumed_start_is_skippable :
  forall (w : World) (c : Current),
    current (config w) = Some c ->
    let play := cur_play c in
    let assumed (w' : World) :=
      current (config w') = Some (set_started true (set_canSkip true c)) /\
      filter is_start (trace w') =
        filter is_start (trace w) ++ [Trigger (play_started play)] in
    ((2 < cur_retryCount c)%nat ->
     assumed (exec (Session._startPlay Player.listeners play) w)) /\
    (forall response,
        has_error 403 20 response <> None ->
        assumed (exec (Session._failStartPlay Player.listeners play response) w)).
Proof.
  intros w c Hc play assumed. split.
  - intro Hr. exact (startPlay_assumes w Hc Hr).
  - intros response Hr. unfold assumed, exec, Session._failStartPlay, bind,
      getConfig.
    rewrite Hc. unfold play. rewrite same_play_refl.
    destruct (has_error 403 20 response) as [msg|]; [|contradiction].
    apply (receiveStartPlay_marks w (cur_play c)
             {| start_success := true; can_skip := true |} Hc
             (same_play_refl _) eq_refl).
Qed.

Lemma last_effect_emit w e :
  last_effect (with_trace (fun t => t ++ [e]) w) = Some e.
Proof. unfold last_effect. cbn. rewrite rev_unit. reflexivity. Qed.

Lemma last_effect_config f w : last_effect (with_config f w) = last_effect w.
Proof. reflexivity. Qed.

Lemma failStartPlay_retries w c response :
  current (config w) = Some c ->
  has_error 403 20 response = None ->
  Session._failStartPlay Player.listeners (cur_play c) response w =
  (Return tt,
   with_trace (fun t => t ++ [Delay (Cb_startPlay (cur_play c)) 1000])
     (with_config
        (set_current (Some (set_retryCount (S (cur_retryCount c)) c))) w)).
Proof.
  intros Hc Hr. unfold Session._failStartPlay, bind, getConfig.
  rewrite Hc, same_play_refl, Hr. unfold modifyCurrent. rewrite Hc.
  reflexivity.
Qed.

Lemma startPlay_sends w c :
  current (config w) = Some c ->
  (cur_retryCount c <= 2)%nat ->
  Session._startPlay Player.listeners (cur_play c) w =
  (Return tt,
   with_trace (fun t => t ++ [SignedAjax (POST_start (cur_play c))]) w).
Proof.
  intros Hc Hr. unfold Session._startPlay, bind, getConfig. rewrite Hc.
  destruct (Nat.ltb_spec 2 (cur_retryCount c)); [lia | reflexivity].
Qed.

(** One round: the failure bumps the retry count and, one second later, the
    report is sent again. *)
Lemma reject_start_round w c response :
  current (config w) = Some c ->
  last_effect w = Some (SignedAjax (POST_start (cur_play c))) ->
  has_error 403 20 response = None ->
  let c' := set_retryCount (S (cur_retryCount c)) c in
  reject_start response w =
  exec (Session._startPlay Player.listeners (cur_play c))
    (with_trace (fun t => t ++ [Delay (Cb_startPlay (cur_play c)) 1000])
       (with_config (set_current (Some c')) w)).
Proof.
  intros Hc Hl Hr c'. unfold reject_start. rewrite Hl. cbv zeta.
  assert (E : step (start_fail (cur_play c) response) w =
              with_trace (fun t => t ++ [Delay (Cb_startPlay (cur_play c)) 1000])
                (with_config (set_current (Some c')) w)).
  { unfold step, exec. cbn [handler].
    rewrite (failStartPlay_retries w response Hc Hr). reflexivity. }
  rewrite E, last_effect_emit. reflexivity.
Qed.

(** C5, as stated, fails: a rejection with status 403 and error code 20 is
    not retried; the start is taken as acknowledged at once. *)
Lemma already_started_is_not_retried :
  let w := run [ call player_play;
                 placement_default_done Stranded.info;
                 play_done (Stranded.ajax 0%nat) (play_success Stranded.play_a);
                 sound Stranded.sound_a on_play ]
             (new_Player (Some "token") (Some "secret") false (Some "cid")) in
  let response := {| status := 403; xhr_error := Some (20, "already started") |} in
  let w' := step (start_fail Stranded.play_a response) w in
  current (config w) = Some (new_current Stranded.play_a) /\
  filter is_start (trace w) = [SignedAjax (POST_start Stranded.play_a)] /\
  filter is_start (trace w') =
    [SignedAjax (POST_start Stranded.play_a);
     Trigger (play_started Stranded.play_a)] /\
  current (config w') =
    Some (set_started true (set_canSkip true (new_current Stranded.play_a))).
Proof. vm_compute. repeat split. Qed.

(** C5, amended: a failed start report for the current play, other than a
    rejection with status 403 and error code 20, bumps the retry count and
    sets a timer of 1000 ms that sends the report again; with a retry count
    of at most two the report is sent, above two the start is taken as
    acknowledged.  From a retry count of zero, three failures in a row give
    three reports in all (the first and two more), each failure followed by
    a one second timer, and then [play-started]. *)
Theorem start_acknowledgment_retries :
  forall (w : World) (c : Current),
    current (config w) = Some c ->
    let play := cur_play c in
    (forall response,
        has_error 403 20 response = None ->
        Session._failStartPlay Player.listeners play response w =
        (Return tt,
         with_trace (fun t => t ++ [Delay (Cb_startPlay play) 1000])
           (with_config
              (set_current (Some (set_retryCount (S (cur_retryCount c)) c)))
              w))) /\
    ((cur_retryCount c <= 2)%nat ->
     Session._startPlay Player.listeners play w =
     (Return tt, with_trace (fun t => t ++ [SignedAjax (POST_start play)]) w)) /\
    ((2 < cur_retryCount c)%nat ->
     let w' := exec (Session._startPlay Player.listeners play) w in
     (exists c', current (config w') = Some c' /\ cur_play c' = play /\
                 cur_started c' = true) /\
     filter is_start (trace w') =
       filter is_start (trace w) ++ [Trigger (play_started play)]) /\
    (cur_retryCount c = 0%nat ->
     forall r1 r2 r3,
       has_error 403 20 r1 = None ->
       has_error 403 20 r2 = None ->
       has_error 403 20 r3 = None ->
       let w' := reject_start r3 (reject_start r2 (reject_start r1
                   (exec (Session.reportPlayStarted Player.listeners) w))) in
       filter is_start (trace w') =
         filter is_start (trace w) ++
         [SignedAjax (POST_start play); Delay (Cb_startPlay play) 1000;
          SignedAjax (POST_start play); Delay (Cb_startPlay play) 1000;
          SignedAjax (POST_start play); Delay (Cb_startPlay play) 1000;
          Trigger (play_started play)] /\
       current (config w') =
         Some {| cur_play := play; cur_started := true; cur_canSkip := true;
                 cur_retryCount := 3 |}).
Proof.
  intros w c Hc play. repeat apply conj.
  - intros response Hr. apply failStartPlay_retries; assumption.
  - intro Hr. apply startPlay_sends; assumption.
  - intros Hr w'.
    destruct (startPlay_assumes w Hc Hr) as [H1 H2]. split; [|exact H2].
    eexists. split; [exact H1 | split; reflexivity].
  - intros H0 r1 r2 r3 Hr1 Hr2 Hr3 w'.
    set (c1 := set_retryCount 1 c). set (c2 := set_retryCount 2 c).
    set (c3 := set_retryCount 3 c).
    assert (E0 : exec (Session.reportPlayStarted Player.listeners) w =
                 with_trace (fun t => t ++ [SignedAjax (POST_start play)]) w).
    { unfold exec, Session.reportPlayStarted, bind, getConfig. rewrite Hc.
      rewrite (startPlay_sends w Hc); [reflexivity | lia]. }
    set (w0 := with_trace (fun t => t ++ [SignedAjax (POST_start play)]) w) in *.
    set (d1 := with_trace (fun t => t ++ [Delay (Cb_startPlay play) 1000])
                 (with_config (set_current (Some c1)) w0)).
    set (w1 := with_trace (fun t => t ++ [SignedAjax (POST_start play)]) d1).
    set (d2 := with_trace (fun t => t ++ [Delay (Cb_startPlay play) 1000])
                 (with_config (set_current (Some c2)) w1)).
    set (w2 := with_trace (fun t => t ++ [SignedAjax (POST_start play)]) d2).
    set (w3 := with_trace (fun t => t ++ [Delay (Cb_startPlay play) 1000])
                 (with_config (set_current (Some c3)) w2)).
    assert (E1 : reject_start r1 w0 = w1).
    { rewrite (@reject_start_round w0 c r1 Hc (last_effect_emit _ _) Hr1).
      rewrite H0. fold c1. fold play. fold d1. unfold exec.
      change play with (cur_play c1).
      rewrite (@startPlay_sends d1 c1 eq_refl); [reflexivity | cbn; lia]. }
    assert (E2 : reject_start r2 w1 = w2).
    { rewrite (@reject_start_round w1 c1 r2 eq_refl (last_effect_emit _ _) Hr2).
      change (set_retryCount (S (cur_retryCount c1)) c1) with c2.
      change (cur_play c1) with play. fold d2. unfold exec.
      change play with (cur_play c2).
      rewrite (@startPlay_sends d2 c2 eq_refl); [reflexivity | cbn; lia]. }
    assert (E3 : reject_start r3 w2 =
                 exec (Session._startPlay Player.listeners (cur_play c3)) w3).
    { rewrite (@reject_start_round w2 c2 r3 eq_refl (last_effect_emit _ _) Hr3).
      reflexivity. }
    unfold w'. rewrite E0, E1, E2, E3.
    destruct (@startPlay_assumes w3 c3 eq_refl) as [H1 H2]; [cbn; lia|].
    split.
    + rewrite H2. unfold w3, w2, d2, w1, d1, w0.
      cbn [trace with_trace with_config]. rewrite !filter_app. cbn.
      rewrite <- !app_assoc. reflexivity.
    + rewrite H1. unfold c3. cbn. reflexivity.
Qed.

(** ** Retrying the next-play request (C2) *)

Lemma same_ajax_refl a : same_ajax a a = true.
Proof. apply Nat.eqb_refl. Qed.

Lemma failedNextPlay_schedules w pr delay response :
  pendingRequest (config w) = Some pr ->
  has_error 403 19 response = None ->
  Session._failedNextPlay Player.listeners delay (req_ajax pr) response w =
  (Return tt,
   with_trace
     (fun t => t ++ [Delay (Cb_requestNextPlay (backoff delay)) (backoff delay)])
     w).
Proof.
  intros Hp Hr. unfold Session._failedNextPlay, bind, getConfig.
  rewrite Hp, same_ajax_refl, Hr. reflexivity.
Qed.

Lemma requestNextPlay_resolved w delay :
  clientPromise w = Resolved ->
  Session._requestNextPlay Player.listeners delay w =
  Session._requestNextPlay_then Player.listeners delay w.
Proof.
  intro Hcp. unfold Session._requestNextPlay, Session._getClientId, bind,
    getClientPromise. rewrite Hcp. cbn. rewrite Hcp. reflexivity.
Qed.

Lemma requestNextPlay_retries w pr d :
  clientPromise w = Resolved ->
  pendingRequest (config w) = Some pr ->
  0 < d <= 60000 ->
  Session._requestNextPlay Player.listeners (Some d) w =
  (Return tt,
   with_trace (fun t => t ++ [SignedAjax (POST_play (req_ajax pr) (Some d))])
     (with_config (set_pendingRequest (Some (retried pr))) w)).
Proof.
  intros Hcp Hp Hd. rewrite (@requestNextPlay_resolved w (Some d) Hcp).
  unfold Session._requestNextPlay_then, bind, getConfig. rewrite Hp.
  destruct (Z.eqb_spec d 0); [lia|].
  destruct (Z.ltb_spec 60000 d); [lia|]. reflexivity.
Qed.

Lemma requestNextPlay_gives_up w pr d :
  clientPromise w = Resolved ->
  pendingRequest (config w) = Some pr ->
  60000 < d ->
  Session._requestNextPlay Player.listeners (Some d) w =
  (Return tt, idle_world w).
Proof.
  intros Hcp Hp Hd. rewrite (@requestNextPlay_resolved w (Some d) Hcp).
  unfold Session._requestNextPlay_then, bind, getConfig. rewrite Hp.
  destruct (Z.eqb_spec d 0); [lia|].
  destruct (Z.ltb_spec 60000 d); [|lia].
  unfold idle_world. cbn. destruct (current (config w)) eqn:E; [reflexivity|].
  unfold Session._assignCurrentPlay, bind, getConfig. cbn. rewrite E.
  reflexivity.
Qed.

Lemma reject_next_failure w pr delay response :
  pendingRequest (config w) = Some pr ->
  last_effect w = Some (SignedAjax (POST_play (req_ajax pr) delay)) ->
  has_error 403 19 response = None ->
  reject_next response w =
  exec (Session._requestNextPlay Player.listeners (Some (backoff delay)))
    (with_trace
       (fun t => t ++ [Delay (Cb_requestNextPlay (backoff delay)) (backoff delay)])
       w).
Proof.
  intros Hp Hl Hr. unfold reject_next. rewrite Hl. cbv zeta.
  assert (E : step (play_fail delay (req_ajax pr) response) w =
              with_trace
                (fun t => t ++ [Delay (Cb_requestNextPlay (backoff delay))
                                  (backoff delay)]) w).
  { unfold step, exec. cbn [handler].
    rewrite (@failedNextPlay_schedules w pr delay response Hp Hr). reflexivity. }
  rewrite E, last_effect_emit. reflexivity.
Qed.

Lemma reject_all_retries responses :
  forall w pr delay,
    clientPromise w = Resolved ->
    pendingRequest (config w) = Some pr ->
    last_effect w = Some (SignedAjax (POST_play (req_ajax pr) delay)) ->
    Forall (fun r => has_error 403 19 r = None) responses ->
    0 < backoff delay ->
    within_cap (backoff delay) (length responses) ->
    let w' := reject_all responses w in
    trace w' =
      trace w ++ backoff_trace (req_ajax pr) (backoff delay) (length responses) /\
    clientPromise w' = Resolved /\
    current (config w') = current (config w) /\
    (exists pr', pendingRequest (config w') = Some pr' /\
                 req_ajax pr' = req_ajax pr) /\
    (responses <> [] ->
     last_effect w' =
     Some (SignedAjax
             (POST_play (req_ajax pr)
                (Some (nth_delay (backoff delay) (length responses - 1)))))).
Proof.
  induction responses as [|r rest IH]; intros w pr delay Hcp Hp Hl Hall Hpos Hcap w'.
  - unfold w'. cbn. rewrite app_nil_r. repeat split; eauto. congruence.
  - inversion Hall as [|? ? Hr Hrest]; subst.
    destruct Hcap as [Hle Hcap].
    set (d := backoff delay) in *.
    set (w1 := with_trace (fun t => t ++ [Delay (Cb_requestNextPlay d) d]) w).
    set (w2 := with_trace
                 (fun t => t ++ [SignedAjax (POST_play (req_ajax pr) (Some d))])
                 (with_config (set_pendingRequest (Some (retried pr))) w1)).
    assert (E : reject_next r w = w2).
    { rewrite (@reject_next_failure w pr delay r Hp Hl Hr). fold d. fold w1.
      unfold exec.
      rewrite (@requestNextPlay_retries w1 pr d Hcp Hp); [reflexivity | lia]. }
    assert (Hb : backoff (Some d) = d * 2).
    { unfold backoff, truthyZ. destruct (Z.eqb_spec d 0); [lia | reflexivity]. }
    unfold w', reject_all. cbn [fold_left]. rewrite E.
    fold (reject_all rest w2).
    destruct (IH w2 (retried pr) (Some d) Hcp eq_refl (last_effect_emit _ _)
                Hrest) as (H1 & H2 & H3 & H4 & H5).
    { rewrite Hb. lia. }
    { rewrite Hb. exact Hcap. }
    rewrite Hb in H1, H5. cbn [req_ajax retried] in H1, H4, H5.
    repeat split.
    + rewrite H1. unfold w2, w1. cbn [trace with_trace with_config length backoff_trace].
      rewrite <- !app_assoc. reflexivity.
    + exact H2.
    + rewrite H3. reflexivity.
    + exact H4.
    + intros _. destruct rest as [|r' rest'].
      * apply last_effect_emit.
      * rewrite H5 by discriminate. cbn [length Nat.sub nth_delay].
        rewrite Nat.sub_0_r. reflexivity.
Qed.

Lemma reject_all_app rs r w :
  reject_all (rs ++ [r]) w = reject_next r (reject_all rs w).
Proof. unfold reject_all. rewrite fold_left_app. reflexivity. Qed.

(** C2, as stated, fails: a rejection with status 403 and error code 19 is
    announced as [not-in-us] and not retried, and the pending request stays
    in place. *)
Lemma not_in_us_is_not_retried :
  let w := run [ call player_play; placement_default_done Stranded.info ]
             (new_Player (Some "token") (Some "secret") false (Some "cid")) in
  let response := {| status := 403; xhr_error := Some (19, "not in US") |} in
  let w' := step (play_fail None (Stranded.ajax 0%nat) response) w in
  pendingRequest (config w) =
    Some {| req_ajax := Stranded.ajax 0%nat; req_retryCount := 0 |} /\
  last_effect w = Some (SignedAjax (POST_play (Stranded.ajax 0%nat) None)) /\
  trace w' = trace w ++ [Trigger (not_in_us "not in US")] /\
  pendingRequest (config w') = pendingRequest (config w) /\
  current (config w') = None.
Proof. vm_compute. repeat split. Qed.

Lemma requestNextPlay_idle w pr d :
  clientPromise w = Resolved ->
  pendingRequest (config w) = Some pr ->
  60000 < d ->
  let w' := exec (Session._requestNextPlay Player.listeners (Some d)) w in
  pendingRequest (config w') = None /\
  current (config w') = current (config w) /\
  trace w' = trace w ++ announces_idle w.
Proof.
  intros H1 H2 H3 w'. unfold w', exec, announces_idle.
  rewrite (@requestNextPlay_gives_up w pr d H1 H2 H3). cbn [snd].
  unfold idle_world. destruct (current (config w)) eqn:E; cbn.
  - rewrite E, app_nil_r. split; [|split]; reflexivity.
  - rewrite E. split; [|split]; reflexivity.
Qed.

Lemma reject_next_gives_up w pr d response :
  clientPromise w = Resolved ->
  pendingRequest (config w) = Some pr ->
  last_effect w = Some (SignedAjax (POST_play (req_ajax pr) (Some d))) ->
  has_error 403 19 response = None ->
  60000 < backoff (Some d) ->
  let w' := reject_next response w in
  pendingRequest (config w') = None /\
  current (config w') = current (config w) /\
  trace w' =
    trace w ++
    Delay (Cb_requestNextPlay (backoff (Some d))) (backoff (Some d))
    :: announces_idle w.
Proof.
  intros Hcp Hp Hl Hr Hd w'. unfold w'.
  rewrite (@reject_next_failure w pr (Some d) response Hp Hl Hr).
  set (d' := backoff (Some d)) in *.
  destruct (@requestNextPlay_idle
              (with_trace (fun t => t ++ [Delay (Cb_requestNextPlay d') d']) w)
              pr d' Hcp Hp Hd) as (I1 & I2 & I3).
  split; [exact I1 | split; [exact I2|]].
  rewrite I3. cbn [trace with_trace]. rewrite <- app_assoc. reflexivity.
Qed.

(** C2, amended: a failed next-play request, other than a rejection with
    status 403 and error code 19, sets a timer of [backoff delay]: 500 ms at
    first, then twice the previous delay.  When the timer fires with a delay
    of at most 60000 ms the request is sent again; with a larger delay the
    pending request is cleared and, if there is no current play,
    [plays-exhausted] is announced.  Eight failures in a row give timers of
    500, 1000, ..., 32000 and 64000 ms, seven retries, and then the idle
    announcement. *)
Theorem next_play_request_backoff :
  forall (w : World) (pr : PendingRequest),
    pendingRequest (config w) = Some pr ->
    clientPromise w = Resolved ->
    let ajax := req_ajax pr in
    (forall delay response,
        has_error 403 19 response = None ->
        Session._failedNextPlay Player.listeners delay ajax response w =
        (Return tt,
         with_trace
           (fun t => t ++ [Delay (Cb_requestNextPlay (backoff delay))
                             (backoff delay)]) w)) /\
    (forall d,
        0 < d <= 60000 ->
        Session._requestNextPlay Player.listeners (Some d) w =
        (Return tt,
         with_trace (fun t => t ++ [SignedAjax (POST_play ajax (Some d))])
           (with_config (set_pendingRequest (Some (retried pr))) w))) /\
    (forall d,
        60000 < d ->
        let w' := exec (Session._requestNextPlay Player.listeners (Some d)) w in
        pendingRequest (config w') = None /\
        current (config w') = current (config w) /\
        trace w' = trace w ++ announces_idle w) /\
    (last_effect w = Some (SignedAjax (POST_play ajax None)) ->
     forall responses,
       length responses = 8%nat ->
       Forall (fun r => has_error 403 19 r = None) responses ->
       let w' := reject_all responses w in
       pendingRequest (config w') = None /\
       current (config w') = current (config w) /\
       trace w' =
         trace w ++
         [ Delay (Cb_requestNextPlay 500) 500;
           SignedAjax (POST_play ajax (Some 500));
           Delay (Cb_requestNextPlay 1000) 1000;
           SignedAjax (POST_play ajax (Some 1000));
           Delay (Cb_requestNextPlay 2000) 2000;
           SignedAjax (POST_play ajax (Some 2000));
           Delay (Cb_requestNextPlay 4000) 4000;
           SignedAjax (POST_play ajax (Some 4000));
           Delay (Cb_requestNextPlay 8000) 8000;
           SignedAjax (POST_play ajax (Some 8000));
           Delay (Cb_requestNextPlay 16000) 16000;
           SignedAjax (POST_play ajax (Some 16000));
           Delay (Cb_requestNextPlay 32000) 32000;
           SignedAjax (POST_play ajax (Some 32000));
           Delay (Cb_requestNextPlay 64000) 64000 ] ++
         announces_idle w).
Proof.
  intros w pr Hp Hcp ajax.
  repeat apply conj.
  - intros delay response Hr. apply failedNextPlay_schedules; assumption.
  - intros d Hd. apply requestNextPlay_retries; assumption.
  - intros d Hd. exact (@requestNextPlay_idle w pr d Hcp Hp Hd).
  - intros Hl responses Hlen Hall w'.
    do 9 (destruct responses as [|? responses]; try discriminate Hlen).
    clear Hlen.
    repeat match goal with
           | H : Forall _ (_ :: _) |- _ => inversion H; clear H; subst
           end.
    set (first := [x; x0; x1; x2; x3; x4; x5]).
    assert (Hfirst : Forall (fun r => has_error 403 19 r = None) first)
      by (unfold first; repeat constructor; assumption).
    destruct (@reject_all_retries first w pr None Hcp Hp Hl Hfirst)
      as (K1 & K2 & K3 & (pr' & K4 & K4') & K5).
    { reflexivity. }
    { cbn. lia. }
    specialize (K5 ltac:(discriminate)).
    subst w'. change [x; x0; x1; x2; x3; x4; x5; x6] with (first ++ [x6]).
    rewrite reject_all_app.
    rewrite <- K4' in K5.
    destruct (@reject_next_gives_up (reject_all first w) pr' _ x6 K2 K4 K5)
      as (I1 & I2 & I3); [assumption | reflexivity |].
    split; [exact I1 | split; [rewrite I2; exact K3|]].
    rewrite I3, K1. unfold announces_idle. rewrite K3.
    rewrite <- app_assoc. reflexivity.
Qed.

(** ** Suspending and restoring (C8) *)

Lemma assign_on_idle w play :
  current (config w) = None ->
  Session._assignCurrentPlay Player.listeners (Some play) false w =
  (Return tt, activated play w).
Proof.
  intro Hc. open_world w. subst w_cur.
  unfold activated, sound_for. run_handlers.
  destruct w_paused; reflexivity.
Qed.

Lemma quiet_requestNextPlay_then_any sel delay :
  (forall r, sel (SignedAjax r) = false) ->
  (forall p, sel (Trigger (play_completed p)) = false) ->
  (forall s, sel (SoundDestroy s) = false) ->
  sel (Trigger plays_exhausted) = false ->
  respects (R_quiet sel) (Session._requestNextPlay_then Player.listeners delay).
Proof.
  intros Hr Hc Hd Hx.
  unfold Session._requestNextPlay_then, Session._assignCurrentPlay,
    Session.trigger, Session._signedAjax.
  cbn [Player.listeners].
  unfold Player._onPlayCompleted, Player._onPlaysExhausted, Speaker.destroy.
  respects_with (R_quiet_refl sel) (@R_quiet_trans sel)
    ltac:(first [ apply quiet_emit; first [apply Hr | apply Hc | apply Hd | exact Hx]
                | quiet_leaf ]).
Qed.

Lemma quiet_requestNextPlay_any sel delay :
  (forall r, sel (SignedAjax r) = false) ->
  (forall p, sel (Trigger (play_completed p)) = false) ->
  (forall s, sel (SoundDestroy s) = false) ->
  sel (Trigger plays_exhausted) = false ->
  respects (R_quiet sel) (Session._requestNextPlay Player.listeners delay).
Proof.
  intros Hr Hc Hd Hx.
  assert (Hw : forall waiting,
             respects (R_quiet sel)
               (Session.resolve_with Player.listeners waiting)).
  { induction waiting as [|d rest IH]; cbn [Session.resolve_with];
      respects_with (R_quiet_refl sel) (@R_quiet_trans sel)
        ltac:(first [assumption | apply quiet_requestNextPlay_then_any; assumption]). }
  unfold Session._requestNextPlay, Session._getClientId,
    Session._requestClientId, Session.saveClientId, Session._signedAjax.
  respects_with (R_quiet_refl sel) (@R_quiet_trans sel)
    ltac:(first [ apply quiet_requestNextPlay_then_any; assumption
                | apply Hw
                | apply quiet_emit; apply Hr
                | quiet_leaf ]).
Qed.

(** Resuming in a tuned session only talks to the speaker. *)
Lemma play_when_tuned w c :
  current (config w) = Some c ->
  let w' := exec Player.play w in
  config w' = config w /\
  filter is_activation (trace w') = filter is_activation (trace w) /\
  filter is_create (trace w') = filter is_create (trace w).
Proof.
  intros Hc w'. unfold w'. open_world w. subst w_cur.
  unfold Player.play, Session.isTuned, Session.getActivePlay, Speaker.resume,
    Speaker.play, exec, bind, emit, getConfig, getState; cbn.
  destruct w_ap as [a|]; cbn;
    [destruct w_paused; cbn; [destruct (playStarted a); cbn|]|];
    rewrite ?filter_app; cbn; rewrite ?app_nil_r;
    (split; [reflexivity | split; reflexivity]).
Qed.

Lemma bind_returns A B (m : JS A) (k : A -> JS B) w a w' :
  m w = (Return a, w') -> bind m k w = k a w'.
Proof. intro H. unfold bind. rewrite H. reflexivity. Qed.

Lemma restore_play w play canSkip :
  current (config w) = None ->
  (Session._assignCurrentPlay Player.listeners (Some play) false ;;
   Session._receiveStartPlay Player.listeners play
     {| start_success := true; can_skip := canSkip |} ;;
   ret (Some play)) w =
  (Session._requestNextPlay Player.listeners None ;; ret (Some play))
    (restored play canSkip w).
Proof.
  intro Hc.
  rewrite (@bind_returns _ _ _ _ _ _ _ (assign_on_idle w play Hc)).
  assert (Hcur : current (config (activated play w)) = Some (new_current play)).
  { unfold activated. destruct (paused (state w)); reflexivity. }
  unfold bind at 1.
  rewrite (@receiveStartPlay_current (activated play w) (new_current play) play
             {| start_success := true; can_skip := canSkip |}
             Hcur (same_play_refl play) eq_refl).
  cbn [can_skip].
  set (w2 := with_config _ (activated play w)).
  assert (Hap : exists ap, activePlay (state w2) = Some ap /\
                           ap_id ap = play_id play /\ soundCompleted ap = false).
  { unfold w2, activated. destruct (paused (state w)); eexists; repeat split. }
  destruct Hap as (ap & Hap & Hid & Hdone).
  rewrite (@bind_returns _ _ _ _ _ _ _ (@trigger_play_started w2 ap play Hap Hid)).
  rewrite Hdone.
  replace (restored play canSkip w)
    with (with_state (set_activePlay (Some (set_startReportedToServer true ap)))
            (with_trace (fun t => t ++ [Trigger (play_started play)]) w2)).
  - reflexivity.
  - unfold restored. fold w2.
    revert Hap. generalize w2. intros w2' Hap. open_world w2'.
    subst w_ap. reflexivity.
Qed.

Lemma restored_facts w play canSkip :
  current (config (restored play canSkip w)) =
    Some {| cur_play := play; cur_started := true; cur_canSkip := canSkip;
            cur_retryCount := 0 |} /\
  filter is_activation (trace (restored play canSkip w)) =
    filter is_activation (trace w) ++
    [Trigger (play_active play); Trigger (play_started play)] /\
  filter is_create (trace (restored play canSkip w)) =
    filter is_create (trace w) ++ [SpeakerCreate (sound_for (heap w) play)].
Proof.
  unfold restored, activated.
  destruct (paused (state w)); cbn; rewrite !filter_app; cbn;
    rewrite ?app_nil_r, <- ?app_assoc; cbn; auto.
Qed.

Lemma restore_identity_spec saved w :
  exists w1,
    restore_identity saved w = (Return tt, w1) /\
    current (config w1) = current (config w) /\
    heap w1 = heap w /\
    filter is_activation (trace w1) = filter is_activation (trace w) /\
    filter is_create (trace w1) = filter is_create (trace w).
Proof.
  destruct saved as [pid sid pl sts sp can]. open_world w.
  unfold restore_identity. cbn [saved_placementId saved_stationId
    saved_placement saved_stations].
  destruct pid, sid; eexists; (split; [reflexivity|]); cbn;
    rewrite !filter_app; cbn; rewrite ?app_nil_r; auto.
Qed.

Lemma unsuspend_restores saved play w :
  saved_play saved = Some play ->
  current (config w) = None ->
  Session.unsuspend Player.listeners saved w =
  (Session._assignCurrentPlay Player.listeners (Some play) false ;;
   Session._receiveStartPlay Player.listeners play
     {| start_success := true; can_skip := saved_canSkip saved |} ;;
   ret (Some play)) (exec (restore_identity saved) w).
Proof.
  intros Hplay Hc.
  destruct saved as [pid sid pl sts sp can]. cbn in Hplay. subst sp.
  open_world w. subst w_cur.
  destruct pid, sid;
    cbv -[Session._assignCurrentPlay Session._receiveStartPlay Player.listeners];
    reflexivity.
Qed.

Lemma session_unsuspend_idle saved play w :
  saved_play saved = Some play ->
  current (config w) = None ->
  exists w3,
    Session.unsuspend Player.listeners saved w =
    (Session._requestNextPlay Player.listeners None ;; ret (Some play)) w3 /\
    current (config w3) =
      Some {| cur_play := play; cur_started := true;
              cur_canSkip := saved_canSkip saved; cur_retryCount := 0 |} /\
    filter is_activation (trace w3) =
      filter is_activation (trace w) ++
      [Trigger (play_active play); Trigger (play_started play)] /\
    filter is_create (trace w3) =
      filter is_create (trace w) ++ [SpeakerCreate (sound_for (heap w) play)].
Proof.
  intros Hplay Hc.
  destruct (restore_identity_spec saved w) as (w1 & H1 & Hc1 & Hh1 & Ha1 & Hs1).
  rewrite Hc in Hc1.
  assert (E1 : exec (restore_identity saved) w = w1).
  { unfold exec. rewrite H1. reflexivity. }
  exists (restored play (saved_canSkip saved) w1).
  split.
  - rewrite (@unsuspend_restores saved play w Hplay Hc), E1.
    apply restore_play. exact Hc1.
  - rewrite <- Ha1, <- Hs1, <- Hh1. apply restored_facts.
Qed.

(** What [Player.suspend] saves of a started play. *)
Lemma player_suspend_started w c ap position :
  current (config w) = Some c ->
  cur_started c = true ->
  activePlay (state w) = Some ap ->
  exists saved,
    fst (Player.suspend position w) = Return saved /\
    saved_play saved =
      Some {| play_obj := heap w;
              play_id := play_id (cur_play c);
              audio_file_url := audio_file_url (cur_play c);
              liked := liked (cur_play c);
              startPosition := Some position |} /\
    saved_canSkip saved = cur_canSkip c.
Proof.
  intros Hc Hs Hap. open_world w. subst w_cur w_ap.
  unfold Player.suspend, Session.suspend, Player.pause,
    Session.hasActivePlayStarted, Speaker.pause, Player.trigger, bind,
    getState, getConfig, fresh, modifyState, emit, ret; cbn.
  rewrite Hs; cbn.
  destruct w_paused; cbn; rewrite ?Hs; cbn;
    eexists; (split; [reflexivity|]); split; reflexivity.
Qed.

Lemma sound_for_offset id play position :
  startPosition play = Some position ->
  sound_startPosition (sound_for id play) =
    (if position =? 0 then None else Some position) /\
  Speaker.start_offset (sound_for id play) = position.
Proof.
  intro H. unfold Speaker.start_offset, sound_for; cbn. rewrite H; cbn.
  destruct (position =? 0) eqn:E; cbn.
  - split; [reflexivity|]. symmetry. apply Z.eqb_eq. exact E.
  - rewrite E. split; reflexivity.
Qed.

Lemma player_unsuspend_idle saved play w startPlayback :
  saved_play saved = Some play ->
  current (config w) = None ->
  let w' := exec (Player.unsuspend saved startPlayback) w in
  current (config w') =
    Some {| cur_play := play; cur_started := true;
            cur_canSkip := saved_canSkip saved; cur_retryCount := 0 |} /\
  filter is_activation (trace w') =
    filter is_activation (trace w) ++
    [Trigger (play_active play); Trigger (play_started play)] /\
  filter is_create (trace w') =
    filter is_create (trace w) ++ [SpeakerCreate (sound_for (heap w) play)].
Proof.
  intros Hplay Hc w'.
  destruct (session_unsuspend_idle saved w Hplay Hc)
    as (w3 & E & Hc3 & Ha3 & Hs3).
  set (w4 := exec (Session._requestNextPlay Player.listeners None) w3).
  assert (H4 : current (config w4) = current (config w3) /\
               filter is_activation (trace w4) = filter is_activation (trace w3) /\
               filter is_create (trace w4) = filter is_create (trace w3)).
  { split; [|split].
    - apply (slots_requestNextPlay None w3).
    - apply (@quiet_requestNextPlay_any is_activation None); reflexivity.
    - apply (@quiet_requestNextPlay_any is_create None); reflexivity. }
  destruct H4 as (Hc4 & Ha4 & Hs4).
  rewrite Hc3 in Hc4. rewrite Ha3 in Ha4. rewrite Hs3 in Hs4.
  assert (Hu : exec (Session.unsuspend Player.listeners saved) w = w4).
  { unfold w4, exec. rewrite E. unfold bind.
    destruct (Session._requestNextPlay Player.listeners None w3) as [[[]|msg] w5];
      reflexivity. }
  unfold w', Player.unsuspend. rewrite exec_bind, Hu.
  destruct (fst (Session.unsuspend Player.listeners saved w)) as [v|msg];
    [destruct startPlayback|]; auto.
  destruct (play_when_tuned w4 Hc4) as (Hc5 & Ha5 & Hs5).
  rewrite Hc5, Ha5, Hs5. auto.
Qed.

(** C8: suspending a started play at position [P] and restoring the saved
    state into a session that has no play announces the play as active and
    as started again, under the same id and with the same skip permission,
    and creates its sound with start offset [P] (the option is left out when
    [P] is zero, which is the default offset). *)
Theorem suspend_round_trip w c ap P w0 startPlayback :
  current (config w) = Some c ->
  cur_started c = true ->
  activePlay (state w) = Some ap ->
  current (config w0) = None ->
  exists saved play snd,
    fst (Player.suspend P w) = Return saved /\
    saved_play saved = Some play /\
    play_id play = play_id (cur_play c) /\
    let w' := exec (Player.unsuspend saved startPlayback) w0 in
    current (config w') =
      Some {| cur_play := play; cur_started := true;
              cur_canSkip := cur_canSkip c; cur_retryCount := 0 |} /\
    filter is_activation (trace w') =
      filter is_activation (trace w0) ++
      [Trigger (play_active play); Trigger (play_started play)] /\
    filter is_create (trace w') =
      filter is_create (trace w0) ++ [SpeakerCreate snd] /\
    sound_playId snd = play_id (cur_play c) /\
    sound_url snd = audio_file_url (cur_play c) /\
    sound_startPosition snd = (if P =? 0 then None else Some P) /\
    Speaker.start_offset snd = P.
Proof.
  intros Hc Hs Hap Hc0.
  destruct (player_suspend_started w P Hc Hs Hap) as (saved & Hsus & Hplay & Hcan).
  set (play := {| play_obj := heap w;
                  play_id := play_id (cur_play c);
                  audio_file_url := audio_file_url (cur_play c);
                  liked := liked (cur_play c);
                  startPosition := Some P |}) in *.
  exists saved, play, (sound_for (heap w0) play).
  destruct (player_unsuspend_idle saved w0 startPlayback Hplay Hc0)
    as (H1 & H2 & H3).
  destruct (@sound_for_offset (heap w0) play P eq_refl) as (H4 & H5).
  rewrite Hcan in H1.
  split; [exact Hsus|]. split; [exact Hplay|]. split; [reflexivity|].
  split; [exact H1|]. split; [exact H2|]. split; [exact H3|].
  split; [reflexivity|]. split; [reflexivity|]. split; [exact H4 | exact H5].
Qed.

(** ** No double play (C1) *)

(** C1: whatever happens to a page, the session's announcements of active
    and completed plays alternate and end with the current play, the
    player's binding is the binding of that play and at most its sound is
    outstanding, and an input that promotes the pending play to current is
    one that retires the current play. *)
Theorem no_double_play :
  forall tok sec options_secure cid (inputs : list Input),
    let w := run inputs (new_Player tok sec options_secure cid) in
    replay None (trace w) = Some (current_obj w) /\
    match current (config w), activePlay (state w) with
    | None, None => True
    | Some c, Some ap => ap_id ap = play_id (cur_play c)
    | _, _ => False
    end /\
    (length (outstandingPlays w) <= 1)%nat /\
    forall i, promotes w (step i w) -> retires i = true.
Proof.
  intros tok sec options_secure cid inputs w.
  destruct (Inv_run inputs (Inv_new_Player tok sec options_secure cid))
    as [H1 H2 H3].
  fold w in H1, H2, H3.
  split; [exact H1 | split; [exact H2 | split]].
  - destruct (activePlay (state w)) as [ap|].
    + destruct H3 as [-> | ->]; cbn; lia.
    + rewrite H3. cbn. lia.
  - intro i. apply promotion_retires.
Qed.

(** Promotions do happen: when the first play has sounded to its end while
    the next one waits, the reply to the completion report promotes it. *)
Lemma promotion_happens :
  let w := run Playing.script
             (new_Player (Some "token") (Some "secret") false (Some "cid")) in
  promotes w (step complete_always w).
Proof.
  exists Stranded.play_b. vm_compute. repeat split. discriminate.
Qed.

(** ** The theorems at a page that plays *)

(** The reply to the completion report, which promotes the pending play,
    is a retiring input. *)
Lemma no_double_play_witness :
  let w := run Playing.script
             (new_Player (Some "token") (Some "secret") false (Some "cid")) in
  promotes w (step complete_always w) /\
  retires complete_always = true.
Proof.
  cbv zeta. split; [exact promotion_happens|].
  exact (proj2 (proj2 (proj2
           (no_double_play (Some "token") (Some "secret") false (Some "cid")
              Playing.script)))
           complete_always promotion_happens).
Defined.

(** Eight server errors in a row after the first request for a play. *)
Lemma next_play_request_backoff_witness :
  let w := Playing.requested in
  let w' := reject_all (repeat Playing.server_error 8) w in
  pendingRequest (config w) =
    Some {| req_ajax := Stranded.ajax 0%nat; req_retryCount := 0 |} /\
  clientPromise w = Resolved /\
  pendingRequest (config w') = None /\
  current (config w') = current (config w).
Proof.
  cbv zeta.
  assert (Hp : pendingRequest (config Playing.requested) =
               Some {| req_ajax := Stranded.ajax 0%nat; req_retryCount := 0 |})
    by (vm_compute; reflexivity).
  assert (Hcp : clientPromise Playing.requested = Resolved)
    by (vm_compute; reflexivity).
  assert (Hl : last_effect Playing.requested =
               Some (SignedAjax (POST_play (Stranded.ajax 0%nat) None)))
    by (vm_compute; reflexivity).
  assert (Hall : Forall (fun r => has_error 403 19 r = None)
                   (repeat Playing.server_error 8))
    by (repeat constructor).
  destruct (next_play_request_backoff Playing.requested Hp Hcp)
    as (_ & _ & _ & H).
  destruct (H Hl (repeat Playing.server_error 8) eq_refl Hall) as (H1 & H2 & _).
  split; [exact Hp | split; [exact Hcp | split; [exact H1 | exact H2]]].
Defined.

(** The first play finishes before its start is acknowledged. *)
Lemma finish_before_start_acknowledgment_witness :
  let w := Playing.began in
  let w2 := exec (Session._receiveStartPlay Player.listeners Stranded.play_a
                    Stranded.granted)
              (exec (Player._onSoundFinish "a" false) w) in
  activePlay (state w) = Some Playing.binding_a /\
  current (config w) = Some (new_current Stranded.play_a) /\
  filter is_report (trace w2) =
    filter is_report (trace w) ++
    [Trigger (play_started Stranded.play_a); Defer Cb_reportPlayCompleted].
Proof.
  cbv zeta.
  assert (Hap : activePlay (state Playing.began) = Some Playing.binding_a)
    by (vm_compute; reflexivity).
  assert (Hc : current (config Playing.began) =
               Some (new_current Stranded.play_a))
    by (vm_compute; reflexivity).
  destruct (@finish_before_start_acknowledgment Playing.began
              Playing.binding_a (new_current Stranded.play_a) false
              Stranded.granted Hap Hc eq_refl eq_refl eq_refl eq_refl)
    as (_ & _ & H & _).
  split; [exact Hap | split; [exact Hc | exact H]].
Defined.

(** Skipping the first play, which the server allowed to skip. *)
Lemma skip_protocol_witness :
  let w := Playing.prefetched in
  current (config w) = Some Playing.current_a /\
  Session.requestSkip Player.listeners w =
    (Return tt,
     with_trace (fun t => t ++ [SignedAjax (POST_skip Stranded.play_a)]) w) /\
  Session._failSkip Player.listeners Stranded.play_a w =
    (Return tt, with_trace (fun t => t ++ [Trigger skip_denied]) w).
Proof.
  cbv zeta.
  assert (Hc : current (config Playing.prefetched) = Some Playing.current_a)
    by (vm_compute; reflexivity).
  destruct (@skip_protocol Playing.prefetched Playing.current_a Hc eq_refl)
    as (_ & H1 & _ & _ & H2 & _).
  split; [exact Hc | split; [exact (H1 eq_refl) | exact H2]].
Defined.

(** A server error answers the first start report. *)
Lemma start_acknowledgment_retries_witness :
  let w := Playing.began in
  current (config w) = Some (new_current Stranded.play_a) /\
  Session._failStartPlay Player.listeners Stranded.play_a
    Playing.server_error w =
  (Return tt,
   with_trace (fun t => t ++ [Delay (Cb_startPlay Stranded.play_a) 1000])
     (with_config
        (set_current
           (Some (set_retryCount 1%nat (new_current Stranded.play_a)))) w)).
Proof.
  cbv zeta.
  assert (Hc : current (config Playing.began) =
               Some (new_current Stranded.play_a))
    by (vm_compute; reflexivity).
  destruct (@start_acknowledgment_retries Playing.began
              (new_current Stranded.play_a) Hc) as (H & _).
  split; [exact Hc | exact (H Playing.server_error eq_refl)].
Defined.

(** The elapse callbacks of the first play. *)
Lemma elapse_reports_at_boundaries_witness :
  let w := Playing.acknowledged in
  activePlay (state w) =
    Some (set_startReportedToServer true Playing.binding_a) /\
  current (config w) = Some Playing.current_a /\
  trace (elapse_all "a" [0; 10000; 29999; 30000; 30001; 61000] w) =
  trace w ++ [SignedAjax (POST_elapse "a" 30); SignedAjax (POST_elapse "a" 61)].
Proof.
  cbv zeta.
  assert (Hap : activePlay (state Playing.acknowledged) =
                Some (set_startReportedToServer true Playing.binding_a))
    by (vm_compute; reflexivity).
  assert (Hc : current (config Playing.acknowledged) = Some Playing.current_a)
    by (vm_compute; reflexivity).
  destruct (@elapse_reports_at_boundaries Playing.acknowledged _ _ Hap Hc)
    as (_ & H).
  split; [exact Hap | split; [exact Hc | exact (H eq_refl)]].
Defined.

(** The first play is suspended at 42 seconds and restored, with
    playback, into a fresh page. *)
Lemma suspend_round_trip_witness :
  let w := Playing.acknowledged in
  current (config w) = Some Playing.current_a /\
  current (config Playing.fresh_page) = None /\
  exists saved play snd,
    fst (Player.suspend 42000 w) = Return saved /\
    saved_play saved = Some play /\
    play_id play = "a" /\
    filter is_create
      (trace (exec (Player.unsuspend saved true) Playing.fresh_page)) =
      [SpeakerCreate snd] /\
    Speaker.start_offset snd = 42000.
Proof.
  cbv zeta.
  assert (Hap : activePlay (state Playing.acknowledged) =
                Some (set_startReportedToServer true Playing.binding_a))
    by (vm_compute; reflexivity).
  assert (Hc : current (config Playing.acknowledged) = Some Playing.current_a)
    by (vm_compute; reflexivity).
  destruct (@suspend_round_trip Playing.acknowledged _ _ 42000
              Playing.fresh_page true Hc eq_refl Hap eq_refl)
    as (saved & play & snd & H1 & H2 & H3 & _ & _ & H4 & _ & _ & _ & H5).
  split; [exact Hc | split; [reflexivity|]].
  exists saved, play, snd.
  split; [exact H1 | split; [exact H2 | split; [exact H3 | split; [exact H4 | exact H5]]]].
Defined.

(** The first start report is rejected with status 403 and error code 20. *)
Lemma assumed_start_is_skippable_witness :
  let w := Playing.began in
  let response := {| status := 403; xhr_error := Some (20, "already started") |} in
  let w' := exec (Session._failStartPlay Player.listeners Stranded.play_a
                    response) w in
  current (config w) = Some (new_current Stranded.play_a) /\
  current (config w') = Some Playing.current_a /\
  filter is_start (trace w') =
    filter is_start (trace w) ++ [Trigger (play_started Stranded.play_a)].
Proof.
  cbv zeta.
  assert (Hc : current (config Playing.began) =
               Some (new_current Stranded.play_a))
    by (vm_compute; reflexivity).
  destruct (@assumed_start_is_skippable Playing.began
              (new_current Stranded.play_a) Hc) as (_ & H).
  assert (Hr : has_error 403 20
                 {| status := 403; xhr_error := Some (20, "already started") |}
               <> None)
    by (vm_compute; discriminate).
  destruct (H _ Hr) as (H1 & H2).
  split; [exact Hc | split; [exact H1 | exact H2]].
Defined.

(** * Further properties *)


(** ** Handlers only add to the trace *)

Lemma R_ext_refl w : R_ext w w.
Proof. exists []. symmetry. apply app_nil_r. Qed.

Lemma R_ext_trans a b c : R_ext a b -> R_ext b c -> R_ext a c.
Proof.
  intros [r1 H1] [r2 H2]. exists (r1 ++ r2).
  rewrite H2, H1. symmetry. apply app_assoc.
Qed.

Lemma ext_emit e : respects R_ext (emit e).
Proof. intro w. exists [e]. reflexivity. Qed.

Lemma ext_trace_untouched A (m : JS A) :
  (forall w, trace (exec m w) = trace w) -> respects R_ext m.
Proof. intros H w. exists []. rewrite H. symmetry. apply app_nil_r. Qed.

Lemma ext_modifyCurrent f : respects R_ext (modifyCurrent f).
Proof.
  apply ext_trace_untouched. intro w. unfold exec, modifyCurrent.
  destruct (current (config w)); reflexivity.
Qed.

Lemma ext_modifyActivePlay f : respects R_ext (modifyActivePlay f).
Proof.
  apply ext_trace_untouched. intro w. unfold exec, modifyActivePlay.
  destruct (activePlay (state w)); reflexivity.
Qed.

Ltac ext_leaf :=
  first [ apply ext_emit
        | apply ext_modifyCurrent
        | apply ext_modifyActivePlay
        | apply ext_trace_untouched; intro; reflexivity ].

(** Unfolds the handlers down to the primitive computations. *)
Ltac unfold_handlers :=
  cbv beta iota zeta delta
    [ Session.trigger Session._signedAjax Session.setCredentials
      Session.getActivePlacement Session.getActivePlay Session.isTuned
      Session.hasActivePlayStarted Session.maybeCanSkip
      Session._assignCurrentPlay Session._requestNextPlay_then
      Session.saveClientId Session.repeatAfter Session._requestClientId
      Session._receiveClientId Session._failedClientId Session._getClientId
      Session._requestNextPlay Session._receiveNextPlay
      Session._failedNextPlay Session._receiveStartPlay Session._startPlay
      Session._failStartPlay Session._getDefaultPlacementInformation
      Session.first_station Session._receiveDefaultPlacementInformation
      Session._failedDefaultPlacementInformation
      Session._getPlacementInformation Session._receivePlacementInformation
      Session._failedPlacementInformation Session.tune Session._retune
      Session.setPlacementId Session.setStationId Session.setFormats
      Session.setMaxBitrate Session.reportPlayStarted
      Session.reportPlayElapsed Session.reportPlayCompleted
      Session._receivePlayCompleted Session.requestSkip
      Session._sendInvalidate Session.requestInvalidate
      Session._failInvalidate Session._receiveInvalidate Session._failSkip
      Session._receiveSkip Session.mark_liked Session.likePlay
      Session.unlikePlay Session.dislikePlay Session.suspend
      Session.unsuspend
      Speaker.create Speaker.forget Speaker.destroy Speaker.play
      Speaker.pause Speaker.resume
      Player.trigger Player._onPlayActive Player._onPlayStarted
      Player._onPlayCompleted Player._onPlaysExhausted Player.listeners
      Player.session_trigger Player.session_tune Player.setPlacementId
      Player.setStationId Player.getActivePlay Player.hasActivePlayStarted
      Player.maybeCanSkip Player._onSoundPlay Player._onSoundPause
      Player._onSoundFinish Player._onSoundElapse Player.isPaused
      Player.tune Player.play Player.pause Player.active_id Player.like
      Player.unlike Player.skip Player.dislike Player.getCurrentState
      Player.suspend Player.unsuspend
      ignore fire api handler ].

Lemma ext_requestNextPlay_then delay :
  respects R_ext (Session._requestNextPlay_then Player.listeners delay).
Proof.
  unfold_handlers.
  respects_with R_ext_refl R_ext_trans ltac:(ext_leaf).
Qed.

Lemma ext_resolve_with waiting :
  respects R_ext (Session.resolve_with Player.listeners waiting).
Proof.
  induction waiting as [|d rest IH]; cbn [Session.resolve_with];
    respects_with R_ext_refl R_ext_trans
      ltac:(first [assumption | apply ext_requestNextPlay_then | ext_leaf]).
Qed.

Ltac ext_tac :=
  unfold_handlers;
  respects_with R_ext_refl R_ext_trans
    ltac:(first [apply ext_resolve_with | ext_leaf]).

Lemma ext_engine s e : respects R_ext (engine s e).
Proof.
  intro w. unfold exec, engine.
  destruct (existsb (Nat.eqb (sound_id s)) (outstandingPlays w));
    [|apply R_ext_refl].
  destruct e as [| |[|]|position];
    match goal with
    | |- R_ext _ (snd (?m w)) => change (R_ext w (exec m w)); revert w
    end;
    match goal with
    | |- forall w, R_ext w (exec ?m w) => change (respects R_ext m)
    end; ext_tac.
Qed.

Lemma ext_handler i : respects R_ext (handler i).
Proof.
  destruct i; try solve [ext_tac].
  - cbn [handler]. apply ext_engine.
Qed.

Lemma ext_step i w : R_ext w (step i w).
Proof. apply ext_handler. Qed.


(** ** Misuse of the session and idle controls *)

(** [tune] without credentials throws and changes nothing. *)
Theorem tune_requires_credentials :
  forall w,
    truthy (token (config w)) && truthy (secret (config w)) = false ->
    Session.tune Player.listeners w =
    (Throw (if truthy (token (config w))
            then "no secret set with setCredentials()"
            else "no token set with setCredentials()"), w).
Proof.
  intros w H. unfold Session.tune, bind, getConfig.
  destruct (truthy (token (config w))); cbn in *.
  - rewrite H. reflexivity.
  - reflexivity.
Qed.

Lemma tune_requires_credentials_witness :
  let w := new_Player (Some "token") None false None in
  token (config w) = None /\
  Session.tune Player.listeners w =
  (Throw "no token set with setCredentials()", w).
Proof.
  cbv zeta. split; [reflexivity|].
  exact (tune_requires_credentials
           (new_Player (Some "token") None false None) eq_refl).
Defined.

Lemma slots_getDefaultPlacementInformation delay :
  respects R_slots (Session._getDefaultPlacementInformation delay).
Proof.
  unfold Session._getDefaultPlacementInformation, Session._signedAjax.
  slots_tac.
Qed.

Lemma slots_getPlacementInformation delay :
  respects R_slots (Session._getPlacementInformation Player.listeners delay).
Proof.
  unfold Session._getPlacementInformation, Session._signedAjax.
  slots_tac.
Qed.

Lemma announced_ext t e w1 w2 :
  (exists rest, trace w1 = t ++ e :: rest) -> R_ext w1 w2 ->
  exists rest, trace w2 = t ++ e :: rest.
Proof.
  intros [r1 H1] [r2 H2]. exists (r1 ++ r2). rewrite H2, H1.
  rewrite <- app_assoc. reflexivity.
Qed.

Lemma trigger_trace e w :
  exists rest,
    trace (exec (Session.trigger Player.listeners e) w) =
    trace w ++ Trigger e :: rest.
Proof.
  unfold Session.trigger.
  rewrite (@exec_bind_returns _ _ (emit _) _ w tt eq_refl).
  assert (H : respects R_ext (Player.listeners e)) by ext_tac.
  destruct (H (exec (emit (Trigger e)) w)) as [rest Hr].
  exists rest. rewrite Hr. cbn. rewrite <- app_assoc. reflexivity.
Qed.

(** Retiring the current play announces it completed before anything
    else. *)
Lemma assign_retires w c play waitingIfEmpty :
  current (config w) = Some c ->
  exists rest,
    trace (exec (Session._assignCurrentPlay Player.listeners play
                   waitingIfEmpty) w) =
    trace w ++ Trigger (play_completed (cur_play c)) :: rest.
Proof.
  intro Hc. unfold Session._assignCurrentPlay.
  rewrite (@exec_bind_returns _ _ getConfig _ w (config w) eq_refl).
  change (exec getConfig w) with w. rewrite Hc.
  cbv iota.
  set (m1 := Session.trigger Player.listeners (play_completed (cur_play c)) ;;
             modifyConfig (set_current None)).
  assert (H1 : exists rest,
             trace (exec m1 w) =
             trace w ++ Trigger (play_completed (cur_play c)) :: rest).
  { unfold m1. apply exec_bind_cases; [apply trigger_trace|].
    intros _. apply trigger_trace. }
  apply exec_bind_cases; [exact H1|].
  intros _. apply (@announced_ext _ _ (exec m1 w) _ H1).
  generalize (exec m1 w).
  match goal with
  | |- forall w, R_ext w (exec ?m w) => change (respects R_ext m)
  end.
      ext_tac.
Qed.

(** With credentials, [tune] drops the pending play, retires the current
    play, announcing it completed first, and leaves no current play. *)
Theorem tune_clears_the_slots :
  forall w,
    truthy (token (config w)) = true ->
    truthy (secret (config w)) = true ->
    let w' := exec (Session.tune Player.listeners) w in
    current (config w') = None /\
    pendingPlay (config w') = None /\
    exists rest,
      trace w' =
      trace w ++
      match current (config w) with
      | Some c => Trigger (play_completed (cur_play c)) :: rest
      | None => rest
      end.
Proof.
  intros w Ht Hs w'. unfold w', Session.tune.
  rewrite (@exec_bind_returns _ _ getConfig _ w (config w) eq_refl).
  change (exec getConfig w) with w. rewrite Ht, Hs. cbn [negb].
  rewrite (@exec_bind_returns _ _ (modifyConfig _) _ w tt eq_refl).
  set (w0 := exec (modifyConfig (set_pendingRequest None)) w).
  rewrite (@exec_bind_returns _ _ (modifyConfig _) _ w0 tt eq_refl).
  set (w1 := exec (modifyConfig (set_pendingPlay None)) w0).
  assert (Hc1 : current (config w1) = current (config w)) by reflexivity.
  assert (Ht1 : trace w1 = trace w) by reflexivity.
  assert (Hp1 : pendingPlay (config w1) = None) by reflexivity.
  set (K := if negb (truthy (placementId (config w)))
            then Session._getDefaultPlacementInformation None
            else Session._getPlacementInformation Player.listeners None).
  assert (HK : respects R_slots K /\ respects R_ext K).
  { unfold K. destruct (negb (truthy (placementId (config w)))); split;
      first [ apply slots_getDefaultPlacementInformation
            | apply slots_getPlacementInformation
            | ext_tac ]. }
  destruct HK as [HKs HKe].
  split; [|split].
  - apply exec_bind_cases.
    + rewrite assign_config. reflexivity.
    + intros _. destruct (HKs (exec (Session._assignCurrentPlay
                                       Player.listeners None true) w1)) as [-> _].
      rewrite assign_config. reflexivity.
  - apply exec_bind_cases.
    + rewrite assign_config. exact Hp1.
    + intros _. destruct (HKs (exec (Session._assignCurrentPlay
                                       Player.listeners None true) w1)) as [_ ->].
      rewrite assign_config. exact Hp1.
  - rewrite <- Ht1. destruct (current (config w)) as [c|] eqn:Hc.
    + apply exec_bind_cases.
      * apply (@assign_retires w1 c None true Hc1).
      * intros _.
        apply (@announced_ext _ _ _ _ (@assign_retires w1 c None true Hc1)).
        apply HKe.
    + assert (He : respects R_ext
                (Session._assignCurrentPlay Player.listeners None true ;; K)).
      { apply (@respects_bind _ R_ext_trans); [ext_tac | intros _; exact HKe]. }
      apply He.
Qed.

Lemma tune_clears_the_slots_witness :
  let w := Playing.prefetched in
  let w' := exec (Session.tune Player.listeners) w in
  current (config w) = Some Playing.current_a /\
  pendingPlay (config w) = Some Stranded.play_b /\
  current (config w') = None /\
  pendingPlay (config w') = None.
Proof.
  cbv zeta.
  assert (Hc : current (config Playing.prefetched) = Some Playing.current_a)
    by (vm_compute; reflexivity).
  assert (Hp : pendingPlay (config Playing.prefetched) = Some Stranded.play_b)
    by (vm_compute; reflexivity).
  destruct (@tune_clears_the_slots Playing.prefetched) as (H1 & H2 & _);
    [vm_compute; reflexivity | vm_compute; reflexivity |].
  split; [exact Hc | split; [exact Hp | split; [exact H1 | exact H2]]].
Defined.


(** The session's reporting and skipping calls throw, and change nothing,
    when there is no current play. *)
Theorem session_calls_need_a_current_play :
  forall w,
    current (config w) = None ->
    Session.reportPlayStarted Player.listeners w =
      (Throw "attempt to report a play started, but there is no active play",
       w) /\
    Session.reportPlayCompleted w = (Throw "no active or playing song", w) /\
    Session.requestSkip Player.listeners w =
      (Throw "No song being played", w) /\
    Session.requestInvalidate w =
      (Throw "No active song to invalidate!", w).
Proof.
  intros w H.
  unfold Session.reportPlayStarted, Session.reportPlayCompleted,
    Session.requestSkip, Session.requestInvalidate, bind, getConfig.
  rewrite H. split; [|split; [|split]]; reflexivity.
Qed.

Lemma session_calls_need_a_current_play_witness :
  let w := Playing.requested in
  current (config w) = None /\
  Session.requestSkip Player.listeners w = (Throw "No song being played", w).
Proof.
  cbv zeta.
  assert (H : current (config Playing.requested) = None)
    by (vm_compute; reflexivity).
  destruct (session_calls_need_a_current_play Playing.requested H)
    as (_ & _ & H3 & _).
  split; [exact H | exact H3].
Defined.

(** Before the start of the current play is acknowledged, a completion
    report and a skip request throw and change nothing; an invalidation is
    sent. *)
Theorem unstarted_play_cannot_complete_or_skip :
  forall w c,
    current (config w) = Some c ->
    cur_started c = false ->
    Session.reportPlayCompleted w = (Throw "no active or playing song", w) /\
    Session.requestSkip Player.listeners w =
      (Throw "No song has been started", w) /\
    Session.requestInvalidate w =
      (Return tt,
       with_trace (fun t => t ++ [SignedAjax (POST_invalidate (cur_play c) None)])
         w).
Proof.
  intros w c Hc Hs.
  unfold Session.reportPlayCompleted, Session.requestSkip,
    Session.requestInvalidate, Session._sendInvalidate, Session._signedAjax,
    bind, getConfig.
  rewrite Hc, Hs. split; [|split]; reflexivity.
Qed.

Lemma unstarted_play_cannot_complete_or_skip_witness :
  let w := Playing.began in
  current (config w) = Some (new_current Stranded.play_a) /\
  Session.reportPlayCompleted w = (Throw "no active or playing song", w).
Proof.
  cbv zeta.
  assert (H : current (config Playing.began) =
              Some (new_current Stranded.play_a))
    by (vm_compute; reflexivity).
  destruct (@unstarted_play_cannot_complete_or_skip Playing.began _ H eq_refl)
    as (H1 & _).
  split; [exact H | exact H1].
Defined.

(** The player's [like], [unlike], [dislike] and [skip] do nothing, and do
    not throw, unless the current play has been started. *)
Theorem player_controls_wait_for_a_started_play :
  forall w,
    match current (config w) with
    | Some c => cur_started c = false
    | None => True
    end ->
    Player.like w = (Return tt, w) /\
    Player.unlike w = (Return tt, w) /\
    Player.dislike w = (Return tt, w) /\
    Player.skip w = (Return tt, w).
Proof.
  intros w H.
  unfold Player.like, Player.unlike, Player.dislike, Player.skip,
    Session.hasActivePlayStarted, bind, getConfig.
  destruct (current (config w)) as [c|]; [rewrite H|];
    (split; [|split; [|split]]; reflexivity).
Qed.

Lemma player_controls_wait_for_a_started_play_witness :
  let w := Playing.began in
  Player.dislike w = (Return tt, w) /\ Player.skip w = (Return tt, w).
Proof.
  cbv zeta.
  assert (H : match current (config Playing.began) with
              | Some c => cur_started c = false
              | None => True
              end) by (vm_compute; reflexivity).
  destruct (player_controls_wait_for_a_started_play Playing.began H)
    as (_ & _ & H3 & H4).
  split; [exact H3 | exact H4].
Defined.

(** Replies that do not concern the current play or the pending request
    change nothing: an acknowledged or rejected start, and an acknowledged
    invalidation, of a play that is not the current one (by identity), and a
    next play or a failure for a request that is not the pending one. *)
Theorem stale_replies_are_ignored :
  forall w,
    (forall play,
        match current (config w) with
        | Some c => same_play (cur_play c) play = false
        | None => True
        end ->
        (forall response,
            Session._receiveStartPlay Player.listeners play response w =
            (Return tt, w)) /\
        (forall response,
            Session._failStartPlay Player.listeners play response w =
            (Return tt, w)) /\
        (forall success,
            Session._receiveInvalidate Player.listeners play success w =
            (Return tt, w))) /\
    (forall ajax,
        match pendingRequest (config w) with
        | Some pr => same_ajax (req_ajax pr) ajax = false
        | None => True
        end ->
        (forall response,
            Session._receiveNextPlay Player.listeners ajax response w =
            (Return tt, w)) /\
        (forall delay response,
            Session._failedNextPlay Player.listeners delay ajax response w =
            (Return tt, w))).
Proof.
  intro w. split.
  - intros play H. split; [|split].
    + intro response. unfold Session._receiveStartPlay.
      destruct (start_success response); [|reflexivity].
      unfold bind, getConfig.
      destruct (current (config w)) as [c|]; [rewrite H|]; reflexivity.
    + intro response. unfold Session._failStartPlay, bind, getConfig.
      destruct (current (config w)) as [c|]; [rewrite H|]; reflexivity.
    + intro success. unfold Session._receiveInvalidate, bind, getConfig.
      destruct (current (config w)) as [c|]; [rewrite H|]; reflexivity.
  - intros ajax H.
    unfold Session._receiveNextPlay, Session._failedNextPlay, bind, getConfig.
    destruct (pendingRequest (config w)) as [pr|]; [rewrite H|];
      (split; intros; reflexivity).
Qed.

Lemma stale_replies_are_ignored_witness :
  let w := Playing.prefetched in
  Session._receiveStartPlay Player.listeners Stranded.play_b Stranded.granted w
  = (Return tt, w) /\
  Session._receiveNextPlay Player.listeners (Stranded.ajax 2%nat)
    (play_success Stranded.play_b) w = (Return tt, w).
Proof.
  cbv zeta.
  destruct (stale_replies_are_ignored Playing.prefetched) as (H1 & H2).
  destruct (H1 Stranded.play_b) as (H3 & _); [vm_compute; reflexivity|].
  destruct (H2 (Stranded.ajax 2%nat)) as (H4 & _); [vm_compute; exact I|].
  split; [apply H3 | apply H4].
Defined.


(** ** Requests that fail again and again *)

Lemma iter_succ_r A (f : A -> A) n a :
  Nat.iter (S n) f a = Nat.iter n f (f a).
Proof. induction n as [|n IH]; [reflexivity|]. cbn in *. rewrite IH. reflexivity. Qed.

Lemma failInvalidate_again w play :
  Session._failInvalidate None play w =
  (Return tt, with_trace (fun t => t ++ [Delay (Cb_sendInvalidate play) 200]) w).
Proof. reflexivity. Qed.

Lemma reject_invalidate_round w play :
  last_effect w = Some (SignedAjax (POST_invalidate play None)) ->
  reject_last invalidate_failure w =
  with_trace
    (fun t => t ++ [Delay (Cb_sendInvalidate play) 200;
                    SignedAjax (POST_invalidate play None)]) w.
Proof.
  intro Hl. unfold reject_last. rewrite Hl. cbn [invalidate_failure].
  assert (E : step (invalidate_fail None play) w =
              with_trace (fun t => t ++ [Delay (Cb_sendInvalidate play) 200]) w)
    by reflexivity.
  cbv zeta. rewrite E, last_effect_emit.
  unfold step, exec. cbn. unfold with_trace. cbn. rewrite <- app_assoc.
  reflexivity.
Qed.

(** A failed invalidation is sent again after 200 ms, whatever the number
    of failures before it: the doubled delay is not handed to the retry, so
    the delay never grows and the retries never stop.  Nothing else
    changes. *)
Theorem invalidation_is_retried_every_200ms :
  forall n w play,
    last_effect w = Some (SignedAjax (POST_invalidate play None)) ->
    let w' := Nat.iter n (reject_last invalidate_failure) w in
    trace w' =
      trace w ++
      retry_trace (fun _ => Cb_sendInvalidate play)
        (fun _ => POST_invalidate play None) (fun d => d) 200 n /\
    config w' = config w /\
    state w' = state w /\
    last_effect w' = Some (SignedAjax (POST_invalidate play None)).
Proof.
  induction n as [|n IH]; intros w play Hl w'.
  - unfold w'. cbn. rewrite app_nil_r. auto.
  - unfold w'. rewrite iter_succ_r, (@reject_invalidate_round w play Hl).
    set (w1 := with_trace _ w).
    assert (Hl1 : last_effect w1 = Some (SignedAjax (POST_invalidate play None))).
    { unfold w1, last_effect. cbn. rewrite rev_app_distr. reflexivity. }
    destruct (IH w1 play Hl1) as (H1 & H2 & H3 & H4).
    split; [|split; [|split]].
    + rewrite H1. unfold w1. cbn [trace with_trace retry_trace].
      rewrite <- app_assoc. reflexivity.
    + rewrite H2. reflexivity.
    + rewrite H3. reflexivity.
    + exact H4.
Qed.

Lemma invalidation_is_retried_every_200ms_witness :
  let w := exec Session.requestInvalidate Playing.began in
  let w' := Nat.iter 20 (reject_last invalidate_failure) w in
  last_effect w = Some (SignedAjax (POST_invalidate Stranded.play_a None)) /\
  last_effect w' = Some (SignedAjax (POST_invalidate Stranded.play_a None)) /\
  config w' = config w.
Proof.
  cbv zeta.
  assert (Hl : last_effect (exec Session.requestInvalidate Playing.began) =
               Some (SignedAjax (POST_invalidate Stranded.play_a None)))
    by (vm_compute; reflexivity).
  destruct (@invalidation_is_retried_every_200ms 20 _ _ Hl) as (_ & H2 & _ & H4).
  split; [exact Hl | split; [exact H4 | exact H2]].
Defined.


Lemma with_trace_twice a b w :
  with_trace (fun t => t ++ [b]) (with_trace (fun t => t ++ [a]) w) =
  with_trace (fun t => t ++ [a; b]) w.
Proof. unfold with_trace. cbn. rewrite <- app_assoc. reflexivity. Qed.

Lemma last_effect_emit2 a b w :
  last_effect (with_trace (fun t => t ++ [a; b]) w) = Some b.
Proof. unfold last_effect. cbn. rewrite rev_app_distr. reflexivity. Qed.

(** [delay ? (2 * delay) : 200], capped at [max] *)
Lemma repeatAfter_delay delay max cb w :
  Session.repeatAfter delay max cb w =
  (Return tt,
   let d := Z.min max (if truthyZ delay
                       then match delay with Some d => 2 * d | None => 200 end
                       else 200) in
   with_trace (fun t => t ++ [Delay (cb d) d]) w).
Proof.
  unfold Session.repeatAfter. cbv zeta.
  set (x := if truthyZ delay then _ else _).
  destruct (Z.ltb_spec max x).
  - rewrite Z.min_l by lia. reflexivity.
  - rewrite Z.min_r by lia. reflexivity.
Qed.

Lemma reject_client_round w delay response :
  truthy (storedCid w) = false ->
  last_effect w = Some (SignedAjax (POST_client delay)) ->
  has_error 403 19 response = None ->
  let d := Z.min 2000 (if truthyZ delay
                       then match delay with Some d => 2 * d | None => 200 end
                       else 200) in
  reject_last (client_failure response) w =
  with_trace
    (fun t => t ++ [Delay (Cb_requestClientId d) d;
                    SignedAjax (POST_client (Some d))]) w.
Proof.
  intros Hs Hl Hr d. unfold reject_last. rewrite Hl. cbn [client_failure].
  assert (E : step (client_fail delay response) w =
              with_trace (fun t => t ++ [Delay (Cb_requestClientId d) d]) w).
  { unfold step, exec. cbn [handler]. unfold Session._failedClientId.
    rewrite Hr, repeatAfter_delay. reflexivity. }
  cbv zeta. rewrite E, last_effect_emit.
  unfold step, exec. cbn [handler fire].
  unfold Session._requestClientId, bind, getStoredCid, Session._signedAjax.
  cbn [storedCid with_trace].
  destruct (storedCid w) as [c|] eqn:Ec.
  - rewrite Hs. cbn. apply with_trace_twice.
  - cbn. apply with_trace_twice.
Qed.

Lemma reject_client_rounds responses :
  forall w d,
    truthy (storedCid w) = false ->
    last_effect w = Some (SignedAjax (POST_client (Some d))) ->
    0 < d ->
    Forall (fun r => has_error 403 19 r = None) responses ->
    let w' := fold_left (fun w r => reject_last (client_failure r) w)
                responses w in
    trace w' =
      trace w ++
      retry_trace Cb_requestClientId (fun d => POST_client (Some d))
        (fun d => Z.min 2000 (2 * d)) (Z.min 2000 (2 * d)) (length responses) /\
    config w' = config w /\
    state w' = state w /\
    clientPromise w' = clientPromise w.
Proof.
  induction responses as [|r rest IH]; intros w d Hs Hl Hd Hall w'.
  - unfold w'. cbn. rewrite app_nil_r. auto.
  - inversion Hall as [|? ? Hr Hrest]; subst.
    unfold w'. cbn [fold_left].
    rewrite (@reject_client_round w (Some d) r Hs Hl Hr).
    assert (Ht : truthyZ (Some d) = true).
    { unfold truthyZ. destruct (Z.eqb_spec d 0); [lia | reflexivity]. }
    rewrite Ht. set (d' := Z.min 2000 (2 * d)).
    set (w1 := with_trace _ w).
    destruct (IH w1 d' Hs (last_effect_emit2 _ _ w)) as (H1 & H2 & H3 & H4).
    { unfold d'. lia. }
    { exact Hrest. }
    split; [|split; [|split]].
    + rewrite H1. unfold w1. cbn [trace with_trace retry_trace length].
      rewrite <- app_assoc. reflexivity.
    + rewrite H2. reflexivity.
    + rewrite H3. reflexivity.
    + rewrite H4. reflexivity.
Qed.

Lemma retry_trace_capped cb request n :
  forall d,
    d <= 2000 ->
    Forall (fun e => match e with Delay _ ms => ms <= 2000 | _ => True end)
      (retry_trace cb request (fun d => Z.min 2000 (2 * d)) d n).
Proof.
  induction n as [|n IH]; intros d Hd; cbn [retry_trace].
  - constructor.
  - constructor; [exact Hd|]. constructor; [exact I|].
    apply IH. lia.
Qed.

(** While the page has no stored client id, a failed request for one (other
    than a rejection with status 403 and error code 19) is sent again, for
    ever: the first timer waits 200 ms, each next one twice as long but
    never more than 2000 ms.  Nothing else changes. *)
Theorem client_id_is_requested_until_it_arrives :
  forall responses w,
    truthy (storedCid w) = false ->
    last_effect w = Some (SignedAjax (POST_client None)) ->
    Forall (fun r => has_error 403 19 r = None) responses ->
    let w' := fold_left (fun w r => reject_last (client_failure r) w)
                responses w in
    let retries :=
      retry_trace Cb_requestClientId (fun d => POST_client (Some d))
        (fun d => Z.min 2000 (2 * d)) 200 (length responses) in
    trace w' = trace w ++ retries /\
    Forall (fun e => match e with Delay _ ms => ms <= 2000 | _ => True end)
      retries /\
    config w' = config w /\
    state w' = state w /\
    clientPromise w' = clientPromise w.
Proof.
  intros responses w Hs Hl Hall w' retries.
  assert (Hcap : Forall (fun e => match e with
                                  | Delay _ ms => ms <= 2000
                                  | _ => True
                                  end) retries)
    by (apply retry_trace_capped; lia).
  destruct responses as [|r rest].
  - unfold w', retries. cbn. rewrite app_nil_r. auto.
  - inversion Hall as [|? ? Hr Hrest]; subst.
    unfold w'. cbn [fold_left].
    rewrite (@reject_client_round w None r Hs Hl Hr).
    cbn [truthyZ]. change (Z.min 2000 200) with 200.
    set (w1 := with_trace _ w).
    destruct (@reject_client_rounds rest w1 200 Hs (last_effect_emit2 _ _ w))
      as (H1 & H2 & H3 & H4); [lia | exact Hrest |].
    split; [|split; [exact Hcap | split; [|split]]].
    + rewrite H1. unfold w1, retries. cbn [trace with_trace retry_trace length].
      rewrite <- app_assoc. reflexivity.
    + rewrite H2. reflexivity.
    + rewrite H3. reflexivity.
    + rewrite H4. reflexivity.
Qed.

(** A rejection with status 403 and error code 19 ends the retries of the
    client id: it is announced as [not-in-us] and no timer is set. *)
Lemma client_id_not_in_us w delay response message :
  has_error 403 19 response = Some message ->
  Session._failedClientId Player.listeners delay response w =
  (Return tt, with_trace (fun t => t ++ [Trigger (not_in_us message)]) w).
Proof.
  intro H. unfold Session._failedClientId. rewrite H. reflexivity.
Qed.

Lemma client_id_is_requested_until_it_arrives_witness :
  let w := anonymous_page in
  let w' := fold_left (fun w r => reject_last (client_failure r) w)
              (repeat Playing.server_error 6) w in
  last_effect w = Some (SignedAjax (POST_client None)) /\
  trace w' =
    trace w ++
    [ Delay (Cb_requestClientId 200) 200; SignedAjax (POST_client (Some 200));
      Delay (Cb_requestClientId 400) 400; SignedAjax (POST_client (Some 400));
      Delay (Cb_requestClientId 800) 800; SignedAjax (POST_client (Some 800));
      Delay (Cb_requestClientId 1600) 1600;
      SignedAjax (POST_client (Some 1600));
      Delay (Cb_requestClientId 2000) 2000;
      SignedAjax (POST_client (Some 2000));
      Delay (Cb_requestClientId 2000) 2000;
      SignedAjax (POST_client (Some 2000)) ].
Proof.
  cbv zeta.
  assert (Hl : last_effect anonymous_page = Some (SignedAjax (POST_client None)))
    by (vm_compute; reflexivity).
  assert (Hall : Forall (fun r => has_error 403 19 r = None)
                   (repeat Playing.server_error 6))
    by (repeat constructor).
  destruct (@client_id_is_requested_until_it_arrives
              (repeat Playing.server_error 6) anonymous_page eq_refl Hl Hall)
    as (H & _).
  split; [exact Hl | exact H].
Defined.


(** ** The client id *)

Lemma requestNextPlay_then_first w delay :
  pendingRequest (config w) = None ->
  Session._requestNextPlay_then Player.listeners delay w =
  (Return tt,
   let ajax := play_request (heap w) (config w) in
   with_trace (fun t => t ++ [SignedAjax (POST_play ajax delay)])
     (with_config
        (set_pendingRequest (Some {| req_ajax := ajax; req_retryCount := 0 |}))
        (with_heap (S (heap w)) w))).
Proof.
  intro H. unfold Session._requestNextPlay_then, bind, getConfig.
  rewrite H. reflexivity.
Qed.

Lemma requestNextPlay_then_waits w pr :
  pendingRequest (config w) = Some pr ->
  Session._requestNextPlay_then Player.listeners None w = (Return tt, w).
Proof.
  intro H. unfold Session._requestNextPlay_then, bind, getConfig.
  rewrite H. reflexivity.
Qed.

Lemma resolve_with_waits n w pr :
  pendingRequest (config w) = Some pr ->
  Session.resolve_with Player.listeners (repeat None n) w = (Return tt, w).
Proof.
  intro H. induction n as [|n IH]; [reflexivity|].
  cbn [repeat Session.resolve_with]. unfold bind.
  rewrite (@requestNextPlay_then_waits w pr H). exact IH.
Qed.

(** With a client id in the page's storage, the first request for a play
    needs no request for a client id: the stored id is taken at once and
    sent with the request. *)
Theorem stored_client_id_is_used :
  forall w cid,
    clientPromise w = NotCreated ->
    storedCid w = Some cid ->
    truthy (Some cid) = true ->
    pendingRequest (config w) = None ->
    let w' := exec (Session._requestNextPlay Player.listeners None) w in
    let ajax := play_request (heap w) (set_clientId (Some cid) (config w)) in
    clientPromise w' = Resolved /\
    clientId (config w') = Some cid /\
    data_client_id ajax = Some cid /\
    pendingRequest (config w') =
      Some {| req_ajax := ajax; req_retryCount := 0 |} /\
    trace w' = trace w ++ [SignedAjax (POST_play ajax None)].
Proof.
  intros w cid Hp Hs Ht Hr w' ajax.
  assert (E : Session._requestNextPlay Player.listeners None w =
              (Return tt,
               with_trace (fun t => t ++ [SignedAjax (POST_play ajax None)])
                 (with_config
                    (set_pendingRequest
                       (Some {| req_ajax := ajax; req_retryCount := 0 |}))
                    (with_heap (S (heap w))
                       (with_clientPromise Resolved
                          (with_storedCid (Some cid)
                             (with_config (set_clientId (Some cid)) w))))))).
  { unfold ajax. open_world w. subst w_cp w_scid w_preq.
    unfold Session._requestNextPlay, Session._getClientId,
      Session._requestClientId, Session.saveClientId,
      Session._requestNextPlay_then, Session._signedAjax, bind,
      getClientPromise, setClientPromise, getStoredCid, setStoredCid,
      modifyConfig, getConfig, fresh, emit, ret.
    cbn in Ht |- *. rewrite Ht. reflexivity. }
  unfold w', exec. rewrite E. cbn. repeat split.
Qed.

Lemma stored_client_id_is_used_witness :
  let w := Playing.fresh_page in
  let w' := exec (Session._requestNextPlay Player.listeners None) w in
  storedCid w = Some "cid" /\
  clientPromise w' = Resolved /\
  clientId (config w') = Some "cid" /\
  trace w' =
    trace w ++
    [SignedAjax
       (POST_play
          (play_request (heap w) (set_clientId (Some "cid") (config w))) None)].
Proof.
  cbv zeta.
  destruct (@stored_client_id_is_used Playing.fresh_page "cid"
              eq_refl eq_refl eq_refl eq_refl) as (H1 & H2 & _ & _ & H5).
  split; [reflexivity | split; [exact H1 | split; [exact H2 | exact H5]]].
Defined.

Lemma requestNextPlay_asks_for_client_id w :
  clientPromise w = NotCreated ->
  truthy (storedCid w) = false ->
  exec (Session._requestNextPlay Player.listeners None) w =
  with_clientPromise (Pending [None])
    (with_trace (fun t => t ++ [SignedAjax (POST_client None)]) w).
Proof.
  intros Hp Hs. open_world w. subst w_cp.
  unfold exec, Session._requestNextPlay, Session._getClientId,
    Session._requestClientId, Session._signedAjax, bind, getClientPromise,
    setClientPromise, getStoredCid, emit.
  cbn. destruct w_scid as [c|]; cbn in Hs |- *; [rewrite Hs|]; reflexivity.
Qed.

Lemma requestNextPlay_queues w waiting :
  clientPromise w = Pending waiting ->
  exec (Session._requestNextPlay Player.listeners None) w =
  with_clientPromise (Pending (waiting ++ [None])) w.
Proof.
  intro Hp. open_world w. subst w_cp. reflexivity.
Qed.

Lemma requests_queue_up n w :
  clientPromise w = NotCreated ->
  truthy (storedCid w) = false ->
  Nat.iter (S n) (exec (Session._requestNextPlay Player.listeners None)) w =
  with_clientPromise (Pending (repeat None (S n)))
    (with_trace (fun t => t ++ [SignedAjax (POST_client None)]) w).
Proof.
  intros Hp Hs. induction n as [|n IH].
  - apply requestNextPlay_asks_for_client_id; assumption.
  - change (Nat.iter (S (S n)) ?f w) with (f (Nat.iter (S n) f w)).
    rewrite IH.
    rewrite (@requestNextPlay_queues
               (with_clientPromise (Pending (repeat None (S n)))
                  (with_trace
                     (fun t => t ++ [SignedAjax (POST_client None)]) w))
               (repeat None (S n)) eq_refl).
    rewrite <- repeat_cons. reflexivity.
Qed.

(** Without a stored client id, the first request for a play asks for a
    client id instead, and every further request waits with it: nothing
    more is sent, however many there are.  When the client id arrives it is
    stored, and exactly one request for a play is sent, carrying it. *)
Theorem queued_requests_share_one_client_id :
  forall n w,
    clientPromise w = NotCreated ->
    truthy (storedCid w) = false ->
    pendingRequest (config w) = None ->
    let w1 :=
      Nat.iter (S n) (exec (Session._requestNextPlay Player.listeners None)) w in
    trace w1 = trace w ++ [SignedAjax (POST_client None)] /\
    config w1 = config w /\
    forall delay id,
      let w2 := exec (Session._receiveClientId Player.listeners delay
                        {| client_success := true; client_id := id |}) w1 in
      let ajax := play_request (heap w) (set_clientId (Some id) (config w)) in
      clientPromise w2 = Resolved /\
      storedCid w2 = Some id /\
      clientId (config w2) = Some id /\
      pendingRequest (config w2) =
        Some {| req_ajax := ajax; req_retryCount := 0 |} /\
      trace w2 = trace w1 ++ [SignedAjax (POST_play ajax None)].
Proof.
  intros n w Hp Hs Hr w1.
  assert (E1 : w1 = with_clientPromise (Pending (repeat None (S n)))
                      (with_trace
                         (fun t => t ++ [SignedAjax (POST_client None)]) w))
    by (apply requests_queue_up; assumption).
  split; [rewrite E1; reflexivity|].
  split; [rewrite E1; reflexivity|].
  intros delay id w2 ajax.
  set (w3 := with_clientPromise Resolved
               (with_storedCid (Some id)
                  (with_config (set_clientId (Some id)) w1))).
  assert (E2 : w2 = exec (Session.resolve_with Player.listeners
                            (repeat None (S n))) w3).
  { unfold w2, w3. rewrite E1. reflexivity. }
  assert (Hr3 : pendingRequest (config w3) = None).
  { unfold w3. rewrite E1. exact Hr. }
  assert (E3 : w2 = with_trace (fun t => t ++ [SignedAjax (POST_play ajax None)])
                      (with_config
                         (set_pendingRequest
                            (Some {| req_ajax := ajax; req_retryCount := 0 |}))
                         (with_heap (S (heap w3)) w3))).
  { rewrite E2. cbn [repeat Session.resolve_with]. unfold exec, bind.
    rewrite (requestNextPlay_then_first w3 None Hr3). cbv zeta.
    erewrite resolve_with_waits by reflexivity.
    unfold ajax, w3. rewrite E1. reflexivity. }
  rewrite E3. unfold w3. rewrite E1. cbn. repeat split.
Qed.

Lemma queued_requests_share_one_client_id_witness :
  let w := new_Player (Some "token") (Some "secret") false None in
  let w1 :=
    Nat.iter 3 (exec (Session._requestNextPlay Player.listeners None)) w in
  let w2 := exec (Session._receiveClientId Player.listeners None
                    {| client_success := true; client_id := "fresh" |}) w1 in
  trace w1 = [SignedAjax (POST_client None)] /\
  storedCid w2 = Some "fresh" /\
  trace w2 =
    [SignedAjax (POST_client None);
     SignedAjax
       (POST_play
          (play_request 0%nat (set_clientId (Some "fresh") (config w))) None)].
Proof.
  cbv zeta.
  destruct (@queued_requests_share_one_client_id 2
              (new_Player (Some "token") (Some "secret") false None)
              eq_refl eq_refl eq_refl) as (H1 & _ & H3).
  destruct (H3 None "fresh") as (_ & H4 & _ & _ & H5).
  split; [exact H1 | split; [exact H4|]].
  rewrite H5, H1. reflexivity.
Defined.


(** ** Placement information *)

Lemma exec_bind_step A B (m : JS A) (k : A -> JS B) w a w' :
  m w = (Return a, w') -> exec (bind m k) w = exec (k a) w'.
Proof. intro H. unfold exec, bind. rewrite H. reflexivity. Qed.

Lemma R_station_refl w : R_station w w.
Proof. split; reflexivity. Qed.

Lemma R_station_trans a b c : R_station a b -> R_station b c -> R_station a c.
Proof. intros [H1 H2] [H3 H4]. split; congruence. Qed.

Lemma station_emit e : is_station_changed e = false -> respects R_station (emit e).
Proof.
  intros He w. split; [reflexivity|]. unfold exec, emit; cbn.
  rewrite filter_app; cbn. rewrite He. apply app_nil_r.
Qed.

Lemma station_untouched A (m : JS A) :
  (forall w, stationId (config (exec m w)) = stationId (config w) /\
             trace (exec m w) = trace w) ->
  respects R_station m.
Proof. intros H w. destruct (H w) as [H1 H2]. split; congruence. Qed.

Lemma station_modifyCurrent f : respects R_station (modifyCurrent f).
Proof.
  apply station_untouched. intro w. unfold exec, modifyCurrent.
  destruct (current (config w)); split; reflexivity.
Qed.

Lemma station_modifyActivePlay f : respects R_station (modifyActivePlay f).
Proof.
  apply station_untouched. intro w. unfold exec, modifyActivePlay.
  destruct (activePlay (state w)); split; reflexivity.
Qed.

Ltac station_leaf :=
  first [ apply station_emit; reflexivity
        | apply station_modifyCurrent
        | apply station_modifyActivePlay
        | apply station_untouched; intro; split; reflexivity ].

Lemma station_requestNextPlay_then delay :
  respects R_station (Session._requestNextPlay_then Player.listeners delay).
Proof.
  unfold_handlers.
  respects_with R_station_refl R_station_trans ltac:(station_leaf).
Qed.

Lemma station_resolve_with waiting :
  respects R_station (Session.resolve_with Player.listeners waiting).
Proof.
  induction waiting as [|d rest IH]; cbn [Session.resolve_with];
    respects_with R_station_refl R_station_trans
      ltac:(first [assumption | apply station_requestNextPlay_then
                  | station_leaf]).
Qed.

Lemma station_requestNextPlay delay :
  respects R_station (Session._requestNextPlay Player.listeners delay).
Proof.
  unfold_handlers.
  respects_with R_station_refl R_station_trans
    ltac:(first [apply station_resolve_with | station_leaf]).
Qed.

(** [first_station] leaves a chosen station alone. *)
Lemma first_station_chosen l w s :
  stationId (config w) = Some s ->
  Session.first_station Player.listeners l w = (Return tt, w).
Proof.
  intro H. unfold Session.first_station, bind, getConfig. rewrite H.
  reflexivity.
Qed.

Lemma station_kept_through (received : PlacementInformation -> JS unit) :
  (received = Session._receiveDefaultPlacementInformation Player.listeners \/
   received = Session._receivePlacementInformation Player.listeners) ->
  forall info w s,
    stationId (config w) = Some s ->
    R_station w (exec (received info) w).
Proof.
  intros Hrec info w s Hs.
  assert (Hstep : forall (m k : JS unit) w1,
             R_station w w1 -> respects R_station m ->
             (forall w2, R_station w w2 -> R_station w (exec k w2)) ->
             R_station w (exec (m ;; k) w1)).
  { intros m k w1 H1 Hm Hk. apply exec_bind_cases.
    - eapply R_station_trans; [exact H1 | apply Hm].
    - intros _. apply Hk. eapply R_station_trans; [exact H1 | apply Hm]. }
  assert (Htail : forall w1,
             R_station w w1 ->
             R_station w
               (exec (Session.first_station Player.listeners
                        (info_stations info) ;;
                      Session.trigger Player.listeners
                        (stations_event (info_stations info)) ;;
                      Session._requestNextPlay Player.listeners None) w1)).
  { intros w1 H1.
    assert (Hs1 : stationId (config w1) = Some s)
      by (destruct H1 as [-> _]; exact Hs).
    rewrite (@exec_bind_step _ _ _ _ _ _ _ (@first_station_chosen _ w1 s Hs1)).
    apply Hstep; [exact H1 | unfold_handlers; station_leaf |].
    intros w2 H2. eapply R_station_trans; [exact H2|].
    apply station_requestNextPlay. }
  destruct Hrec as [-> | ->].
  - unfold Session._receiveDefaultPlacementInformation.
    destruct (info_success info); [|apply R_station_refl].
    destruct (info_placement info) as [p|]; [|apply R_station_refl].
    apply Hstep; [apply R_station_refl | station_leaf |]. intros w1 H1.
    apply Hstep; [exact H1 | station_leaf |]. intros w2 H2.
    apply Hstep; [exact H2 | station_leaf |]. intros w3 H3.
    apply Hstep; [exact H3 | unfold_handlers; station_leaf |]. intros w4 H4.
    apply Hstep; [exact H4 | unfold_handlers; station_leaf |]. intros w5 H5.
    apply Htail. exact H5.
  - unfold Session._receivePlacementInformation.
    destruct (info_success info); [|apply R_station_refl].
    destruct (info_placement info) as [p|]; [|apply R_station_refl].
    apply Hstep; [apply R_station_refl | station_leaf |]. intros w1 H1.
    apply Hstep; [exact H1 | station_leaf |]. intros w2 H2.
    apply Hstep; [exact H2 | unfold_handlers; station_leaf |]. intros w3 H3.
    apply Htail. exact H3.
Qed.

(** Placement information never replaces a station that has been chosen:
    whatever stations it lists, the station stays and no change of station
    is announced. *)
Theorem placement_information_keeps_the_station :
  forall w s info,
    stationId (config w) = Some s ->
    let w1 := exec (Session._receiveDefaultPlacementInformation
                      Player.listeners info) w in
    let w2 := exec (Session._receivePlacementInformation
                      Player.listeners info) w in
    stationId (config w1) = Some s /\
    filter is_station_changed (trace w1) =
      filter is_station_changed (trace w) /\
    stationId (config w2) = Some s /\
    filter is_station_changed (trace w2) =
      filter is_station_changed (trace w).
Proof.
  intros w s info Hs w1 w2.
  destruct (@station_kept_through _ (or_introl eq_refl) info w s Hs) as [H1 H2].
  destruct (@station_kept_through _ (or_intror eq_refl) info w s Hs) as [H3 H4].
  fold w1 in H1, H2. fold w2 in H3, H4.
  rewrite Hs in H1, H3. auto.
Qed.

Lemma placement_information_keeps_the_station_witness :
  let w := step (call (player_setStationId "mine")) Playing.fresh_page in
  let w1 := step (placement_default_done Stranded.info) w in
  stationId (config w) = Some "mine" /\
  stationId (config w1) = Some "mine" /\
  filter is_station_changed (trace w1) =
    filter is_station_changed (trace w).
Proof.
  cbv zeta.
  destruct (@placement_information_keeps_the_station
              (step (call (player_setStationId "mine")) Playing.fresh_page)
              "mine" Stranded.info eq_refl) as (H1 & H2 & _).
  split; [reflexivity | split; [exact H1 | exact H2]].
Defined.

Lemma first_station_picks st rest w :
  stationId (config w) = None ->
  Session.first_station Player.listeners (st :: rest) w =
  (Return tt,
   with_trace (fun t => t ++ [Trigger (station_changed (Some (station_id st)))])
     (with_config (set_stationId (Some (station_id st))) w)).
Proof.
  intro H. unfold Session.first_station, bind, getConfig. rewrite H.
  reflexivity.
Qed.

Lemma first_station_none w :
  stationId (config w) = None ->
  Session.first_station Player.listeners [] w = (Return tt, w).
Proof.
  intro H. unfold Session.first_station, bind, getConfig. rewrite H.
  reflexivity.
Qed.

(** When no station has been chosen, successful placement information
    selects its first station and announces the change once; when it lists
    no station, none is selected and nothing is announced. *)
Theorem placement_information_picks_the_first_station :
  forall w info p,
    stationId (config w) = None ->
    info_success info = true ->
    info_placement info = Some p ->
    let w1 := exec (Session._receivePlacementInformation
                      Player.listeners info) w in
    match info_stations info with
    | st :: _ =>
        stationId (config w1) = Some (station_id st) /\
        filter is_station_changed (trace w1) =
          filter is_station_changed (trace w) ++
          [Trigger (station_changed (Some (station_id st)))]
    | [] =>
        stationId (config w1) = None /\
        filter is_station_changed (trace w1) =
          filter is_station_changed (trace w)
    end.
Proof.
  intros w info p Hs Hok Hp w1. unfold w1.
  unfold Session._receivePlacementInformation. rewrite Hok, Hp.
  rewrite (@exec_bind_returns _ _ (modifyConfig _) _ w tt eq_refl).
  set (wa := exec (modifyConfig (set_placement (Some p))) w).
  rewrite (@exec_bind_returns _ _ (modifyConfig _) _ wa tt eq_refl).
  set (wb := exec (modifyConfig (set_stations (info_stations info))) wa).
  rewrite (@exec_bind_returns _ _ _ _ wb tt (trigger_returns _ wb)).
  set (wc := exec (Session.trigger Player.listeners (placement_event (Some p))) wb).
  assert (Hc : stationId (config wc) = None /\
               filter is_station_changed (trace wc) =
               filter is_station_changed (trace w)).
  { unfold wc, exec, Session.trigger, bind, emit; cbn.
    rewrite filter_app; cbn. rewrite app_nil_r. split; [exact Hs | reflexivity]. }
  destruct Hc as [Hc1 Hc2].
  assert (Htail : forall wd,
             R_station wd
               (exec (Session.trigger Player.listeners
                        (stations_event (info_stations info)) ;;
                      Session._requestNextPlay Player.listeners None) wd)).
  { assert (H : respects R_station
                  (Session.trigger Player.listeners
                     (stations_event (info_stations info)) ;;
                   Session._requestNextPlay Player.listeners None)).
    { apply (@respects_bind _ R_station_trans);
        [unfold_handlers; station_leaf | intros _; apply station_requestNextPlay]. }
    exact H. }
  destruct (info_stations info) as [|st rest].
  - rewrite (@exec_bind_step _ _ _ _ _ _ _ (@first_station_none wc Hc1)).
    destruct (Htail wc) as [-> ->]. split; assumption.
  - rewrite (@exec_bind_step _ _ _ _ _ _ _ (@first_station_picks st rest wc Hc1)).
    match goal with
    | |- context [exec _ ?wd] => destruct (Htail wd) as [-> ->]
    end.
    cbn [trace with_trace config with_config]. rewrite filter_app, Hc2.
    split; reflexivity.
Qed.

Lemma placement_information_picks_the_first_station_witness :
  let w := Playing.fresh_page in
  let w1 := exec (Session._receivePlacementInformation Player.listeners
                    Stranded.info) w in
  stationId (config w) = None /\
  stationId (config w1) = Some "s" /\
  filter is_station_changed (trace w1) =
    [Trigger (station_changed (Some "s"))].
Proof.
  cbv zeta.
  destruct (@placement_information_picks_the_first_station
              Playing.fresh_page Stranded.info {| placement_id := "p" |}
              eq_refl eq_refl eq_refl) as (H1 & H2).
  split; [reflexivity | split; [exact H1 | exact H2]].
Defined.







(** ** Votes *)

(** A vote is always sent to the server.  It is recorded on the current play
    when the play id is the current play's, and changes nothing else;
    a vote for any other play changes nothing in the session. *)
Lemma votes_mark_only_the_current_play :
  forall w playId,
    let voted (request : Request) (v : option bool) (m : JS unit) :=
      m w =
      (Return tt,
       match current (config w) with
       | Some c =>
           if String.eqb (play_id (cur_play c)) playId
           then with_config (set_current (Some (set_liked v c)))
                  (with_trace (fun t => t ++ [SignedAjax request]) w)
           else with_trace (fun t => t ++ [SignedAjax request]) w
       | None => with_trace (fun t => t ++ [SignedAjax request]) w
       end) in
    voted (POST_like playId) (Some true) (Session.likePlay playId) /\
    voted (DELETE_like playId) None (Session.unlikePlay playId) /\
    voted (POST_dislike playId) (Some false) (Session.dislikePlay playId).
Proof.
  intros w playId voted. unfold voted.
  unfold Session.likePlay, Session.unlikePlay, Session.dislikePlay,
    Session.mark_liked, Session._signedAjax, bind, emit, getConfig,
    modifyCurrent.
  cbn [config with_trace].
  destruct (current (config w)) as [c|] eqn:E;
    [destruct (String.eqb (play_id (cur_play c)) playId)|];
    cbn [config with_trace]; rewrite ?E;
    (split; [|split]); reflexivity.
Qed.

(** Liking and then unliking the current play, when it carried no vote,
    leaves the session as it was but for the two requests sent. *)
Theorem like_then_unlike_is_neutral :
  forall w c,
    current (config w) = Some c ->
    liked (cur_play c) = None ->
    let id := play_id (cur_play c) in
    exec (Session.unlikePlay id) (exec (Session.likePlay id) w) =
    with_trace
      (fun t => t ++ [SignedAjax (POST_like id); SignedAjax (DELETE_like id)]) w.
Proof.
  intros w c Hc Hl id. open_world w. subst w_cur.
  unfold exec, Session.unlikePlay, Session.likePlay, Session.mark_liked,
    Session._signedAjax, bind, emit, getConfig, modifyCurrent.
  cbn. unfold id. rewrite String.eqb_refl. cbn. rewrite String.eqb_refl. cbn.
  unfold with_trace, with_config, set_current, set_liked. cbn.
  rewrite <- app_assoc. cbn.
  destruct c as [[o i u l p] st cs rc]. cbn in Hl. subst l. reflexivity.
Qed.

Lemma like_then_unlike_is_neutral_witness :
  let w := Playing.acknowledged in
  current (config w) = Some Playing.current_a /\
  exec (Session.unlikePlay "a") (exec (Session.likePlay "a") w) =
  with_trace
    (fun t => t ++ [SignedAjax (POST_like "a"); SignedAjax (DELETE_like "a")]) w.
Proof.
  cbv zeta.
  assert (Hc : current (config Playing.acknowledged) = Some Playing.current_a)
    by (vm_compute; reflexivity).
  split; [exact Hc|].
  exact (@like_then_unlike_is_neutral Playing.acknowledged _ Hc eq_refl).
Defined.

(** [dislike] on a started play sends the vote, records it on the current
    play, announces [play-disliked] and then asks for a skip: the skip
    request is sent when the play may be skipped, and [skip-denied] is
    announced otherwise. *)
Theorem dislike_votes_and_then_skips :
  forall w c ap,
    current (config w) = Some c ->
    cur_started c = true ->
    activePlay (state w) = Some ap ->
    ap_id ap = play_id (cur_play c) ->
    let c' := set_liked (Some false) c in
    Player.dislike w =
    (Return tt,
     with_trace
       (fun t => t ++ [SignedAjax (POST_dislike (ap_id ap));
                       PlayerTrigger play_disliked;
                       if cur_canSkip c then SignedAjax (POST_skip (cur_play c'))
                       else Trigger skip_denied])
       (with_config (set_current (Some c')) w)).
Proof.
  intros w c ap Hc Hs Hap Hid c'. open_world w. subst w_cur w_ap.
  unfold c'. destruct c as [play st cs rc]. cbn in Hs, Hid. subst st.
  unfold Player.dislike, Player.skip, Player.active_id, Player.trigger,
    Session.hasActivePlayStarted, Session.dislikePlay, Session.mark_liked,
    Session.requestSkip, Session.trigger, Session._signedAjax, bind, emit,
    getConfig, getState, modifyCurrent.
  cbn. rewrite Hid, String.eqb_refl. cbn.
  unfold with_trace, with_config. cbn.
  destruct cs; cbn; rewrite <- !app_assoc; reflexivity.
Qed.

Lemma dislike_votes_and_then_skips_witness :
  let w := Playing.acknowledged in
  let c := Playing.current_a in
  let ap := set_startReportedToServer true Playing.binding_a in
  let c' := set_liked (Some false) c in
  current (config w) = Some c /\
  Player.dislike w =
  (Return tt,
   with_trace
     (fun t => t ++ [SignedAjax (POST_dislike (ap_id ap));
                     PlayerTrigger play_disliked;
                     if cur_canSkip c then SignedAjax (POST_skip (cur_play c'))
                     else Trigger skip_denied])
     (with_config (set_current (Some c')) w)).
Proof.
  cbv zeta.
  assert (Hc : current (config Playing.acknowledged) = Some Playing.current_a)
    by (vm_compute; reflexivity).
  assert (Hap : activePlay (state Playing.acknowledged) =
                Some (set_startReportedToServer true Playing.binding_a))
    by (vm_compute; reflexivity).
  split; [exact Hc|].
  exact (@dislike_votes_and_then_skips Playing.acknowledged _ _ Hc eq_refl
           Hap eq_refl).
Defined.


(** ** Pausing and resuming *)

(** Pausing a playing sound and resuming it brings the player and the
    session back to where they were: the sound is paused and resumed, the
    two changes are announced, and the start of the play, which the server
    has acknowledged, is not reported again. *)
Theorem pause_and_resume_restore_playback :
  forall w c ap,
    current (config w) = Some c ->
    cur_started c = true ->
    activePlay (state w) = Some ap ->
    ap_id ap = play_id (cur_play c) ->
    sound_playId (ap_sound ap) = ap_id ap ->
    playStarted ap = true ->
    startReportedToServer ap = true ->
    paused (state w) = false ->
    existsb (Nat.eqb (sound_id (ap_sound ap))) (outstandingPlays w) = true ->
    let s := ap_sound ap in
    run [ call player_pause; sound s on_pause;
          call player_play; sound s on_play ] w =
    with_trace
      (fun t => t ++ [SoundPause s; PlayerTrigger play_paused;
                      InitializeForMobile; SoundResume s;
                      PlayerTrigger play_resumed]) w.
Proof.
  intros w c ap Hc Hs Hap Hid Hpid Hps Hsr Hpa Hout s.
  open_world w. subst w_cur w_ap w_paused.
  destruct ap as [aid so sr sc sce ps pp]. cbn in *. subst sr ps s.
  destruct c as [play st cs rc]. cbn in *. subst st.
  unfold run, step, exec, handler, api, engine.
  cbn [outstandingPlays with_trace with_state with_config].
  unfold Player.pause, Player.play, Player._onSoundPause, Player._onSoundPlay,
    Player.binding_of, Player.trigger, Speaker.pause, Speaker.resume,
    Session.hasActivePlayStarted, Session.isTuned, Session.getActivePlay,
    modifyActivePlay, modifyState, bind, emit, getConfig, getState, ret.
  cbn. repeat (rewrite ?Hout, ?Hpid, ?String.eqb_refl; cbn).
  unfold with_trace. cbn. rewrite <- !app_assoc. reflexivity.
Qed.

Lemma pause_and_resume_restore_playback_witness :
  let w := Playing.acknowledged in
  let s := Stranded.sound_a in
  current (config w) = Some Playing.current_a /\
  paused (state w) = false /\
  run [ call player_pause; sound s on_pause;
        call player_play; sound s on_play ] w =
  with_trace
    (fun t => t ++ [SoundPause s; PlayerTrigger play_paused;
                    InitializeForMobile; SoundResume s;
                    PlayerTrigger play_resumed]) w.
Proof.
  cbv zeta.
  assert (Hc : current (config Playing.acknowledged) = Some Playing.current_a)
    by (vm_compute; reflexivity).
  assert (Hap : activePlay (state Playing.acknowledged) =
                Some (set_startReportedToServer true Playing.binding_a))
    by (vm_compute; reflexivity).
  assert (Hpa : paused (state Playing.acknowledged) = false)
    by (vm_compute; reflexivity).
  assert (Hout : existsb (Nat.eqb (sound_id Stranded.sound_a))
                   (outstandingPlays Playing.acknowledged) = true)
    by (vm_compute; reflexivity).
  split; [exact Hc | split; [exact Hpa|]].
  exact (@pause_and_resume_restore_playback Playing.acknowledged _ _ Hc eq_refl
           Hap eq_refl eq_refl eq_refl eq_refl Hpa Hout).
Defined.




(** ** What holds after every event *)

Lemma respects_run (R : World -> World -> Prop) :
  (forall w, R w w) ->
  (forall a b c, R a b -> R b c -> R a c) ->
  (forall i, respects R (handler i)) ->
  forall inputs w, R w (run inputs w).
Proof.
  intros Hrefl Htrans Hstep. induction inputs as [|i rest IH]; intro w.
  - apply Hrefl.
  - cbn [run]. eapply Htrans; [apply (Hstep i) | apply IH].
Qed.

Lemma R_suspended_refl w : R_suspended w w.
Proof. intro H. exact H. Qed.

Lemma R_suspended_trans a b c :
  R_suspended a b -> R_suspended b c -> R_suspended a c.
Proof. unfold R_suspended. auto. Qed.

Lemma suspended_modifyCurrent f : respects R_suspended (modifyCurrent f).
Proof.
  intros w H. unfold exec, modifyCurrent.
  destruct (current (config w)); exact H.
Qed.

Lemma suspended_modifyActivePlay f : respects R_suspended (modifyActivePlay f).
Proof.
  intros w H. unfold exec, modifyActivePlay.
  destruct (activePlay (state w)); exact H.
Qed.

Ltac suspended_leaf :=
  first [ apply suspended_modifyCurrent
        | apply suspended_modifyActivePlay
        | intros ? ?; first [assumption | reflexivity] ].

Lemma suspended_requestNextPlay_then delay :
  respects R_suspended (Session._requestNextPlay_then Player.listeners delay).
Proof.
  unfold_handlers.
  respects_with R_suspended_refl R_suspended_trans ltac:(suspended_leaf).
Qed.

Lemma suspended_resolve_with waiting :
  respects R_suspended (Session.resolve_with Player.listeners waiting).
Proof.
  induction waiting as [|d rest IH]; cbn [Session.resolve_with];
    respects_with R_suspended_refl R_suspended_trans
      ltac:(first [assumption | apply suspended_requestNextPlay_then
                  | suspended_leaf]).
Qed.

Ltac suspended_tac :=
  unfold_handlers;
  respects_with R_suspended_refl R_suspended_trans
    ltac:(first [apply suspended_resolve_with | suspended_leaf]).

Lemma suspended_engine s e : respects R_suspended (engine s e).
Proof.
  intro w. unfold exec, engine.
  destruct (existsb (Nat.eqb (sound_id s)) (outstandingPlays w));
    [|apply R_suspended_refl].
  destruct e as [| |[|]|position];
    match goal with
    | |- R_suspended _ (snd (?m w)) =>
        change (R_suspended w (exec m w)); revert w
    end;
    match goal with
    | |- forall w, R_suspended w (exec ?m w) => change (respects R_suspended m)
    end; suspended_tac.
Qed.

Lemma suspended_handler i : respects R_suspended (handler i).
Proof.
  destruct i; try solve [suspended_tac].
  cbn [handler]. apply suspended_engine.
Qed.

(** Once a player is suspended it reports the state [suspended] after every
    later event and call: nothing resets the flag, not even restoring a
    saved session into it. *)
Theorem a_suspended_player_stays_suspended :
  forall inputs w,
    suspended (state w) = true ->
    Player.getCurrentState (run inputs w) =
    (Return Player.st_suspended, run inputs w).
Proof.
  intros inputs w H.
  assert (H' : suspended (state (run inputs w)) = true).
  { apply (respects_run R_suspended_refl R_suspended_trans suspended_handler).
    exact H. }
  unfold Player.getCurrentState, Session.hasActivePlayStarted, bind,
    getState, getConfig.
  rewrite H'. destruct (current (config (run inputs w))); reflexivity.
Qed.

Lemma a_suspended_player_stays_suspended_witness :
  let w := step (call (player_suspend 42000)) Playing.acknowledged in
  let inputs := [ call player_play;
                  sound Stranded.sound_a on_play;
                  sound Stranded.sound_a (on_finish false);
                  complete_always ] in
  suspended (state w) = true /\
  Player.getCurrentState (run inputs w) =
  (Return Player.st_suspended, run inputs w).
Proof.
  cbv zeta.
  assert (H : suspended (state (step (call (player_suspend 42000))
                                  Playing.acknowledged)) = true)
    by (vm_compute; reflexivity).
  split; [exact H|].
  exact (a_suspended_player_stays_suspended _ _ H).
Defined.


Lemma R_identified_refl w : R_identified w w.
Proof. intro H. exact H. Qed.

Lemma R_identified_trans a b c :
  R_identified a b -> R_identified b c -> R_identified a c.
Proof. unfold R_identified. auto. Qed.

(** Computations that leave the client id, its promise, the pending
    request and the trace alone. *)
Lemma identified_untouched A (m : JS A) :
  (forall w, clientPromise (exec m w) = clientPromise w /\
             clientId (config (exec m w)) = clientId (config w) /\
             pendingRequest (config (exec m w)) = pendingRequest (config w) /\
             trace (exec m w) = trace w) ->
  respects R_identified m.
Proof.
  intros H w [H1 H2 H3]. destruct (H w) as (E1 & E2 & E3 & E4).
  constructor; rewrite ?E1, ?E2, ?E3, ?E4; assumption.
Qed.

Lemma identified_clear_pending :
  respects R_identified (modifyConfig (set_pendingRequest None)).
Proof.
  intros w [H1 H2 H3]. constructor; cbn; [exact H1 | discriminate | exact H3].
Qed.

Lemma identified_pending promise :
  respects R_identified (setClientPromise (Pending promise)).
Proof.
  intros w [H1 H2 H3]. constructor; cbn; [discriminate | exact H2 | exact H3].
Qed.

Lemma identified_emit e :
  is_play_request e = false -> respects R_identified (emit e).
Proof.
  intros He w [H1 H2 H3]. constructor; cbn; [exact H1 | exact H2|].
  intros ajax delay Hin. apply in_app_or in Hin. destruct Hin as [Hin | Hin].
  - exact (H3 ajax delay Hin).
  - destruct Hin as [Hin | []]. subst e. discriminate He.
Qed.

Lemma identified_modifyCurrent f : respects R_identified (modifyCurrent f).
Proof.
  apply identified_untouched. intro w. unfold exec, modifyCurrent.
  destruct (current (config w)); repeat split.
Qed.

Lemma identified_modifyActivePlay f : respects R_identified (modifyActivePlay f).
Proof.
  apply identified_untouched. intro w. unfold exec, modifyActivePlay.
  destruct (activePlay (state w)); repeat split.
Qed.

Ltac identified_leaf :=
  first [ apply identified_emit; reflexivity
        | apply identified_clear_pending
        | apply identified_pending
        | apply identified_modifyCurrent
        | apply identified_modifyActivePlay
        | apply identified_untouched; intro; repeat split ].

Lemma identified_assign_none waitingIfEmpty :
  respects R_identified
    (Session._assignCurrentPlay Player.listeners None waitingIfEmpty).
Proof.
  unfold_handlers.
  respects_with R_identified_refl R_identified_trans ltac:(identified_leaf).
Qed.

Lemma R_promise_refl w : R_promise w w.
Proof. reflexivity. Qed.

Lemma R_promise_trans a b c : R_promise a b -> R_promise b c -> R_promise a c.
Proof. unfold R_promise. congruence. Qed.

Lemma promise_requestNextPlay_then delay :
  respects R_promise (Session._requestNextPlay_then Player.listeners delay).
Proof.
  unfold_handlers.
  respects_with R_promise_refl R_promise_trans
    ltac:(first [ intro; reflexivity
                | intro w; unfold R_promise, exec, modifyCurrent;
                  destruct (current (config w)); reflexivity
                | intro w; unfold R_promise, exec, modifyActivePlay;
                  destruct (activePlay (state w)); reflexivity ]).
Qed.

Lemma identified_requestNextPlay_then delay w :
  Identified w -> clientPromise w = Resolved ->
  Identified (exec (Session._requestNextPlay_then Player.listeners delay) w).
Proof.
  intros HI HR. unfold Session._requestNextPlay_then.
  rewrite (@exec_bind_returns _ _ getConfig _ w (config w) eq_refl).
  change (exec getConfig w) with w.
  destruct (pendingRequest (config w)) as [pr|] eqn:E.
  - destruct delay as [d|]; [|exact HI].
    destruct (d =? 0); [exact HI|].
    destruct (60000 <? d).
    + revert HI. generalize w.
      match goal with
      | |- forall w, Identified w -> Identified (exec ?m w) =>
          change (respects R_identified m)
      end.
      respects_with R_identified_refl R_identified_trans
        ltac:(first [apply identified_assign_none | identified_leaf]).
    + destruct HI as [H1 H2 H3].
      constructor; cbn.
      * exact H1.
      * intros pr' Hpr. injection Hpr as <-. cbn. exact (H2 pr E).
      * intros ajax delay Hin. apply in_app_or in Hin.
        destruct Hin as [Hin | [Hin | []]]; [exact (H3 ajax delay Hin)|].
        injection Hin as <- _. exact (H2 pr E).
  - destruct HI as [H1 H2 H3].
    constructor; cbn.
    + exact H1.
    + intros pr' Hpr. injection Hpr as <-. cbn. exact (H1 HR).
    + intros ajax delay' Hin. apply in_app_or in Hin.
      destruct Hin as [Hin | [Hin | []]]; [exact (H3 ajax delay' Hin)|].
      injection Hin as <- _. cbn. exact (H1 HR).
Qed.

Lemma identified_resolve_with waiting :
  forall w,
    Identified w -> clientPromise w = Resolved ->
    Identified (exec (Session.resolve_with Player.listeners waiting) w).
Proof.
  induction waiting as [|d rest IH]; intros w HI HR; cbn [Session.resolve_with].
  - exact HI.
  - apply exec_bind_cases.
    + apply identified_requestNextPlay_then; assumption.
    + intros _. apply IH.
      * apply identified_requestNextPlay_then; assumption.
      * rewrite (promise_requestNextPlay_then d w). exact HR.
Qed.

Lemma identified_saveClientId cid :
  respects R_identified (Session.saveClientId Player.listeners cid).
Proof.
  intros w HI. unfold Session.saveClientId.
  rewrite (@exec_bind_returns _ _ (modifyConfig _) _ w tt eq_refl).
  set (w1 := exec (modifyConfig (set_clientId (Some cid))) w).
  rewrite (@exec_bind_returns _ _ (setStoredCid _) _ w1 tt eq_refl).
  set (w2 := exec (setStoredCid (Some cid)) w1).
  assert (HI2 : Identified w2).
  { destruct HI as [H1 H2 H3]. constructor; cbn;
      [discriminate | exact H2 | exact H3]. }
  rewrite (@exec_bind_returns _ _ getClientPromise _ w2 (clientPromise w2)
             eq_refl).
  change (exec getClientPromise w2) with w2.
  destruct (clientPromise w2) as [|waiting|] eqn:E; try exact HI2.
  rewrite (@exec_bind_returns _ _ (setClientPromise _) _ w2 tt eq_refl).
  apply identified_resolve_with; [|reflexivity].
  destruct HI2 as [H1 H2 H3]. constructor; cbn;
    [discriminate | exact H2 | exact H3].
Qed.

Lemma identified_requestClientId delay :
  respects R_identified (Session._requestClientId Player.listeners delay).
Proof.
  unfold Session._requestClientId, Session._signedAjax.
  respects_with R_identified_refl R_identified_trans
    ltac:(first [apply identified_saveClientId | identified_leaf]).
Qed.

Lemma identified_getClientId :
  respects R_identified (Session._getClientId Player.listeners).
Proof.
  unfold Session._getClientId.
  respects_with R_identified_refl R_identified_trans
    ltac:(first [apply identified_requestClientId | identified_leaf]).
Qed.

Lemma identified_requestNextPlay delay :
  respects R_identified (Session._requestNextPlay Player.listeners delay).
Proof.
  intros w HI. unfold Session._requestNextPlay.
  apply exec_bind_cases; [apply identified_getClientId; exact HI|].
  intros _.
  set (w1 := exec (Session._getClientId Player.listeners) w).
  assert (HI1 : Identified w1) by (apply identified_getClientId; exact HI).
  rewrite (@exec_bind_returns _ _ getClientPromise _ w1 (clientPromise w1)
             eq_refl).
  change (exec getClientPromise w1) with w1.
  destruct (clientPromise w1) as [|waiting|] eqn:E.
  - exact HI1.
  - apply identified_pending. exact HI1.
  - apply identified_requestNextPlay_then; assumption.
Qed.

(** Unfolds the handlers down to the primitive computations and to the
    requests for a client id and for a play. *)
Ltac unfold_handlers_to_requests :=
  cbv beta iota zeta delta
    [ Session.trigger Session._signedAjax Session.setCredentials
      Session.getActivePlacement Session.getActivePlay Session.isTuned
      Session.hasActivePlayStarted Session.maybeCanSkip
      Session._assignCurrentPlay Session.repeatAfter
      Session._receiveClientId Session._failedClientId
      Session._receiveNextPlay
      Session._failedNextPlay Session._receiveStartPlay Session._startPlay
      Session._failStartPlay Session._getDefaultPlacementInformation
      Session.first_station Session._receiveDefaultPlacementInformation
      Session._failedDefaultPlacementInformation
      Session._getPlacementInformation Session._receivePlacementInformation
      Session._failedPlacementInformation Session.tune Session._retune
      Session.setPlacementId Session.setStationId Session.setFormats
      Session.setMaxBitrate Session.reportPlayStarted
      Session.reportPlayElapsed Session.reportPlayCompleted
      Session._receivePlayCompleted Session.requestSkip
      Session._sendInvalidate Session.requestInvalidate
      Session._failInvalidate Session._receiveInvalidate Session._failSkip
      Session._receiveSkip Session.mark_liked Session.likePlay
      Session.unlikePlay Session.dislikePlay Session.suspend
      Session.unsuspend
      Speaker.create Speaker.forget Speaker.destroy Speaker.play
      Speaker.pause Speaker.resume
      Player.trigger Player._onPlayActive Player._onPlayStarted
      Player._onPlayCompleted Player._onPlaysExhausted Player.listeners
      Player.session_trigger Player.session_tune Player.setPlacementId
      Player.setStationId Player.getActivePlay Player.hasActivePlayStarted
      Player.maybeCanSkip Player._onSoundPlay Player._onSoundPause
      Player._onSoundFinish Player._onSoundElapse Player.isPaused
      Player.tune Player.play Player.pause Player.active_id Player.like
      Player.unlike Player.skip Player.dislike Player.getCurrentState
      Player.suspend Player.unsuspend
      ignore fire api handler ].

Ltac identified_tac :=
  unfold_handlers_to_requests;
  respects_with R_identified_refl R_identified_trans
    ltac:(first [ apply identified_requestNextPlay
                | apply identified_saveClientId
                | apply identified_requestClientId
                | identified_leaf ]).

Lemma identified_engine s e : respects R_identified (engine s e).
Proof.
  intro w. unfold exec, engine.
  destruct (existsb (Nat.eqb (sound_id s)) (outstandingPlays w));
    [|apply R_identified_refl].
  destruct e as [| |[|]|position];
    match goal with
    | |- R_identified _ (snd (?m w)) =>
        change (R_identified w (exec m w)); revert w
    end;
    match goal with
    | |- forall w, R_identified w (exec ?m w) =>
        change (respects R_identified m)
    end; identified_tac.
Qed.

Lemma identified_handler i : respects R_identified (handler i).
Proof.
  destruct i; try solve [identified_tac].
  cbn [handler]. apply identified_engine.
Qed.

(** Whatever happens to a page, every request for a play it has sent
    carries a client id; the pending request does too, and the session
    knows its client id once the promise of it is resolved. *)
Theorem every_play_request_carries_a_client_id :
  forall tok sec options_secure cid inputs,
    let w := run inputs (new_Player tok sec options_secure cid) in
    (forall ajax delay,
        In (SignedAjax (POST_play ajax delay)) (trace w) ->
        data_client_id ajax <> None) /\
    (forall pr, pendingRequest (config w) = Some pr ->
                data_client_id (req_ajax pr) <> None) /\
    (clientPromise w = Resolved -> clientId (config w) <> None).
Proof.
  intros tok sec options_secure cid inputs w.
  assert (H0 : Identified (new_Player tok sec options_secure cid)).
  { constructor; cbn; [discriminate | discriminate | intros ? ? []]. }
  destruct (respects_run R_identified_refl R_identified_trans
              identified_handler inputs _ H0) as [H1 H2 H3].
  fold w in H1, H2, H3. auto.
Qed.


(** ** The arrival of the next play *)

(** The reply to the pending request for a play clears the request.  A play
    that arrives while another is current is kept as the pending play and
    nothing is announced; a play that arrives while none is current becomes
    active at once, with its sound created.  An error with code 9 (out of
    music) drops the pending play while a play is current, and is announced
    as [plays-exhausted] otherwise.  Any other error is dropped: nothing is
    announced and nothing is retried. *)
Theorem next_play_reply :
  forall w pr ajax response,
    pendingRequest (config w) = Some pr ->
    same_ajax (req_ajax pr) ajax = true ->
    let w0 := with_config (set_pendingRequest None) w in
    exec (Session._receiveNextPlay Player.listeners ajax response) w =
    match response, current (config w) with
    | play_success play, Some _ => with_config (set_pendingPlay (Some play)) w0
    | play_success play, None => activated play w0
    | play_failure (Some 9), Some _ => with_config (set_pendingPlay None) w0
    | play_failure (Some 9), None =>
        with_state (Player.set_paused false)
          (with_trace (fun t => t ++ [Trigger plays_exhausted]) w0)
    | play_failure _, _ => w0
    end.
Proof.
  intros w pr ajax response Hp Ha w0.
  unfold exec, Session._receiveNextPlay, bind at 1, getConfig.
  rewrite Hp, Ha. unfold bind at 1, modifyConfig at 1. fold w0.
  destruct response as [play | [[|code|code]|]]; try reflexivity.
  - destruct (current (config w)) as [c|] eqn:Hc; [reflexivity|].
    rewrite (@assign_on_idle w0 play Hc). reflexivity.
  - repeat match goal with
           | |- context [match ?p with xI _ => _ | xO _ => _ | xH => _ end] =>
               is_var p; destruct p
           end;
      try reflexivity; destruct (current (config w)); reflexivity.
Qed.

Lemma next_play_reply_witness :
  let w := Playing.acknowledged in
  let pr := {| req_ajax := Stranded.ajax 2%nat; req_retryCount := 0 |} in
  pendingRequest (config w) = Some pr /\
  exec (Session._receiveNextPlay Player.listeners (Stranded.ajax 2%nat)
          (play_success Stranded.play_b)) w =
  match current (config w) with
  | Some _ =>
      with_config (set_pendingPlay (Some Stranded.play_b))
        (with_config (set_pendingRequest None) w)
  | None => activated Stranded.play_b (with_config (set_pendingRequest None) w)
  end.
Proof.
  cbv zeta.
  assert (Hp : pendingRequest (config Playing.acknowledged) =
               Some {| req_ajax := Stranded.ajax 2%nat; req_retryCount := 0 |})
    by (vm_compute; reflexivity).
  split; [exact Hp|].
  exact (@next_play_reply Playing.acknowledged _ (Stranded.ajax 2%nat)
           (play_success Stranded.play_b) Hp eq_refl).
Defined.


(** ** Invalidating the current play *)






Lemma starts_with_http (p : string) :
  String.eqb (substring 0 4 p) "http" = true ->
  exists rest, p = ("http" ++ rest)%string.
Proof.
  intros H. apply String.eqb_eq in H.
  destruct p as [|a [|b [|c [|d rest]]]]; cbn in H; try discriminate H.
  injection H; intros; subst. eexists; reflexivity.
Qed.

Lemma addProtocol_has_scheme (p url : string) (secure : Secure) :
  String.eqb (substring 0 2 (addProtocol p url secure)) "//" = false.
Proof.
  unfold addProtocol.
  destruct (String.eqb (substring 0 2 url) "//") eqn:Hu; [|exact Hu].
  destruct secure; try reflexivity.
  destruct (String.eqb (substring 0 4 p) "http") eqn:Hp; [|reflexivity].
  destruct (starts_with_http p Hp) as [rest ->]. reflexivity.
Qed.

(** [util.addProtocol]: the result is never a protocol-relative url, applying
    the function again changes nothing, and the result is the url itself or
    the url behind a scheme, except on a page that is not served over http
    with [secure] left out, where a protocol-relative url is replaced by the
    bare word [http]. *)
Theorem addProtocol_adds_a_scheme_once :
  forall (p url : string) (secure secure' : Secure),
    String.eqb (substring 0 2 (addProtocol p url secure)) "//" = false /\
    addProtocol p (addProtocol p url secure) secure' = addProtocol p url secure /\
    (String.eqb (substring 0 2 url) "//" = false -> addProtocol p url secure = url) /\
    (String.eqb (substring 0 2 url) "//" = true ->
     match secure with
     | secure_true => addProtocol p url secure = ("https:" ++ url)%string
     | secure_false => addProtocol p url secure = ("http:" ++ url)%string
     | secure_unset =>
         if String.eqb (substring 0 4 p) "http"
         then addProtocol p url secure = (p ++ url)%string
         else addProtocol p url secure = "http"
     end).
Proof.
  intros p url secure secure'.
  split; [apply addProtocol_has_scheme|].
  split.
  - pose proof (addProtocol_has_scheme p url secure) as H.
    unfold addProtocol at 1. rewrite H. reflexivity.
  - split; intros Hu; unfold addProtocol; rewrite Hu; [reflexivity|].
    destruct secure; try reflexivity.
    destruct (String.eqb (substring 0 4 p) "http"); reflexivity.
Qed.

Lemma two_digits (n : nat) :
  (n < 60)%nat ->
  (if Z.of_nat n <? 10 then ("0" ++ toString (Z.of_nat n))%string else toString (Z.of_nat n))
  = (digit (Z.of_nat n / 10) ++ digit (Z.of_nat n mod 10))%string.
Proof.
  intros H.
  do 60 (destruct n as [|n]; [vm_compute; reflexivity|]).
  lia.
Qed.

Lemma toString_inj (a b : Z) : toString a = toString b -> a = b.
Proof.
  unfold toString. intros H.
  assert (Hn : forall n, Z.to_int n <> Decimal.Pos Decimal.Nil /\
                         Z.to_int n <> Decimal.Neg Decimal.Nil).
  { intros [|p|p]; cbn; split; try discriminate;
      intros E; injection E as E;
      exact (DecimalPos.Unsigned.to_uint_nonnil p E). }
  apply DecimalZ.to_int_inj.
  pose proof (DecimalString.NilZero.isi (Z.to_int a) (proj1 (Hn a)) (proj2 (Hn a))) as Ha.
  pose proof (DecimalString.NilZero.isi (Z.to_int b) (proj1 (Hn b)) (proj2 (Hn b))) as Hb.
  rewrite H in Ha. rewrite Ha in Hb. injection Hb as Hb. exact Hb.
Qed.

Lemma length_append (a b : string) :
  String.length (a ++ b) = (String.length a + String.length b)%nat.
Proof.
  induction a as [|c a IH]; cbn; [reflexivity | rewrite IH; reflexivity].
Qed.

Lemma append_same_tail_length (a b c d : string) :
  String.length c = String.length d ->
  (a ++ c)%string = (b ++ d)%string -> a = b /\ c = d.
Proof.
  intros Hl. revert b.
  induction a as [|x a IH]; intros [|y b] H; cbn in H.
  - split; [reflexivity | exact H].
  - apply (f_equal String.length) in H. cbn in H. rewrite length_append in H. lia.
  - apply (f_equal String.length) in H. cbn in H. rewrite length_append in H. lia.
  - injection H as -> H. destruct (IH b H) as [-> ->]. split; reflexivity.
Qed.

Lemma formatTime_shape (millis : Z) :
  0 <= millis ->
  formatTime millis
  = (toString (millis / 60000) ++ ":" ++
     digit ((millis / 1000) mod 60 / 10) ++ digit ((millis / 1000) mod 60 mod 10))%string.
Proof.
  intros Hm.
  assert (Hs : 0 <= millis / 1000) by (apply Z.div_pos; lia).
  assert (Hb : 0 <= (millis / 1000) mod 60 < 60) by (apply Z.mod_pos_bound; lia).
  assert (Hq : millis / 1000 / 60 = millis / 60000)
    by (rewrite Z.div_div by lia; reflexivity).
  unfold formatTime. cbv zeta.
  rewrite Z.rem_mod_nonneg by lia. rewrite Hq.
  pose proof (@two_digits (Z.to_nat ((millis / 1000) mod 60))) as H2.
  rewrite Z2Nat.id in H2 by lia.
  rewrite H2 by lia. reflexivity.
Qed.

(** [formatTime]: a time of less than [2 ^ 53] milliseconds is shown as the
    whole minutes, a colon and the seconds of the minute in exactly two
    digits, and two such times are shown alike exactly when they have the
    same number of whole seconds: the text determines the seconds. *)
Theorem formatTime_shows_the_whole_seconds :
  forall m m' : Z,
    0 <= m < 2 ^ 53 ->
    0 <= m' < 2 ^ 53 ->
    let seconds := (m / 1000) mod 60 in
    formatTime m
    = (toString (m / 60000) ++ ":" ++
       digit (seconds / 10) ++ digit (seconds mod 10))%string /\
    (formatTime m = formatTime m' <-> m / 1000 = m' / 1000).
Proof.
  intros m m' Hm Hm' seconds.
  split; [apply formatTime_shape; lia|].
  rewrite (@formatTime_shape m), (@formatTime_shape m') by lia.
  assert (Hq : forall x, 0 <= x -> x / 1000 = 60 * (x / 60000) + (x / 1000) mod 60).
  { intros x Hx. replace (x / 60000) with (x / 1000 / 60)
      by (rewrite Z.div_div by lia; reflexivity).
    apply Z.div_mod. lia. }
  assert (Hb : forall x, 0 <= (x / 1000) mod 60 < 60)
    by (intros x; apply Z.mod_pos_bound; lia).
  split.
  - intros H.
    apply append_same_tail_length in H; [|reflexivity].
    destruct H as [Hmin Hsec].
    apply toString_inj in Hmin.
    pose proof (Hb m) as B. pose proof (Hb m') as B'.
    assert (Ht0 : 0 <= (m / 1000) mod 60 / 10 < 10)
      by (split; [apply Z.div_pos; lia | apply Z.div_lt_upper_bound; lia]).
    assert (Ht0' : 0 <= (m' / 1000) mod 60 / 10 < 10)
      by (split; [apply Z.div_pos; lia | apply Z.div_lt_upper_bound; lia]).
    pose proof (Z.mod_pos_bound ((m / 1000) mod 60) 10 ltac:(lia)) as Hu0.
    pose proof (Z.mod_pos_bound ((m' / 1000) mod 60) 10 ltac:(lia)) as Hu0'.
    rewrite (Hq m), (Hq m') by lia. rewrite Hmin. f_equal.
    rewrite (Z.div_mod ((m / 1000) mod 60) 10) by lia.
    rewrite (Z.div_mod ((m' / 1000) mod 60) 10) by lia.
    revert Hsec Ht0 Ht0' Hu0 Hu0'.
    generalize ((m / 1000) mod 60 / 10) ((m' / 1000) mod 60 / 10)
               ((m / 1000) mod 60 mod 10) ((m' / 1000) mod 60 mod 10).
    intros t t' u u' Hsec Ht0 Ht0' Hu0 Hu0'.
    unfold digit in Hsec. cbn [String.append] in Hsec.
    injection Hsec as Ht Hu.
    apply (f_equal Ascii.nat_of_ascii) in Ht, Hu.
    rewrite !Ascii.nat_ascii_embedding in Ht, Hu by lia.
    lia.
  - intros H.
    replace (m / 60000) with (m / 1000 / 60)
      by (rewrite Z.div_div by lia; reflexivity).
    replace (m' / 60000) with (m' / 1000 / 60)
      by (rewrite Z.div_div by lia; reflexivity).
    rewrite H. reflexivity.
Qed.

Lemma formatTime_shows_the_whole_seconds_witness :
  0 <= 754321 < 2 ^ 53 /\ 0 <= 754999 < 2 ^ 53 /\
  formatTime 754321 = "12:34" /\
  formatTime 754321 = formatTime 754999.
Proof.
  assert (H1 : 0 <= 754321 < 2 ^ 53) by (cbn; lia).
  assert (H2 : 0 <= 754999 < 2 ^ 53) by (cbn; lia).
  destruct (@formatTime_shows_the_whole_seconds 754321 754999 H1 H2) as (Hs & Hi).
  split; [exact H1 | split; [exact H2 | split]].
  - rewrite Hs. vm_compute. reflexivity.
  - apply Hi. vm_compute. reflexivity.
Defined.

Lemma no_repeat_snoc (l : list SoundObject.Event) (e : SoundObject.Event) :
  SoundObject.no_repeat l -> last l e <> e \/ l = [] ->
  SoundObject.no_repeat (l ++ [e]).
Proof.
  induction l as [|a [|b l] IH]; intros Hl He.
  - exact I.
  - cbn. split; [|exact I].
    destruct He as [He | He]; [exact He | discriminate He].
  - destruct Hl as [Hab Hl].
    change (a <> b /\ SoundObject.no_repeat ((b :: l) ++ [e])).
    split; [exact Hab|].
    apply IH; [exact Hl|].
    destruct He as [He | He]; [left; exact He | discriminate He].
Qed.

Lemma transitions_trigger (e : SoundObject.Event) (failed : bool) (s : SoundObject.State) :
  SoundObject.transitions (SoundObject.trigger e failed s)
  = SoundObject.transitions s ++ (if SoundObject.event_eqb e SoundObject.ev_elapse then [] else [e]).
Proof.
  unfold SoundObject.transitions, SoundObject.trigger. cbn [SoundObject.triggered].
  rewrite map_app, filter_app. cbn.
  destruct (SoundObject.event_eqb e SoundObject.ev_elapse); reflexivity.
Qed.

Lemma event_eqb_eq (a b : SoundObject.Event) :
  SoundObject.event_eqb a b = true <-> a = b.
Proof.
  destruct a, b; cbn; split; intros H; try reflexivity; discriminate H.
Qed.

Lemma nonRepeat_keeps (e : SoundObject.Event) (failed : bool) (s : SoundObject.State) :
  e <> SoundObject.ev_elapse ->
  SoundObject.no_repeat (SoundObject.transitions s) /\ SoundObject.remembers s ->
  SoundObject.no_repeat (SoundObject.transitions (SoundObject._nonRepeatTrigger e failed s)) /\
  SoundObject.remembers (SoundObject._nonRepeatTrigger e failed s).
Proof.
  intros He [Hn Hr].
  assert (Hne : SoundObject.event_eqb e SoundObject.ev_elapse = false).
  { destruct (SoundObject.event_eqb e SoundObject.ev_elapse) eqn:E; [|reflexivity].
    apply event_eqb_eq in E. contradiction. }
  assert (Hfresh :
    SoundObject.transitions
      (SoundObject.trigger e failed
         {| SoundObject.lastTrigger := Some e; SoundObject.sm2Sound := SoundObject.sm2Sound s;
            SoundObject.triggered := SoundObject.triggered s |})
    = SoundObject.transitions s ++ [e]).
  { rewrite transitions_trigger, Hne. reflexivity. }
  unfold SoundObject._nonRepeatTrigger, SoundObject.remembers in *.
  destruct (SoundObject.lastTrigger s) as [last_e|] eqn:Hl.
  - destruct (SoundObject.event_eqb last_e e) eqn:E.
    + rewrite Hl. split; assumption.
    + rewrite Hfresh. cbn [SoundObject.lastTrigger SoundObject.trigger].
      split.
      * apply no_repeat_snoc; [exact Hn|].
        left. rewrite Hr. intros ->.
        assert (SoundObject.event_eqb e e = true) by (apply event_eqb_eq; reflexivity).
        congruence.
      * intros d. apply last_last.
  - rewrite Hfresh. cbn [SoundObject.lastTrigger SoundObject.trigger].
    rewrite Hr. cbn.
    split; [exact I | intros d; reflexivity].
Qed.

Lemma destroy_keeps (s : SoundObject.State) :
  SoundObject.no_repeat (SoundObject.transitions s) /\ SoundObject.remembers s ->
  SoundObject.no_repeat (SoundObject.transitions (SoundObject.destroy s)) /\
  SoundObject.remembers (SoundObject.destroy s).
Proof.
  intros H. exact H.
Qed.

Lemma callback_keeps (cb : SoundObject.Callback) (s : SoundObject.State) :
  SoundObject.no_repeat (SoundObject.transitions s) /\ SoundObject.remembers s ->
  SoundObject.no_repeat (SoundObject.transitions (SoundObject.callback cb s)) /\
  SoundObject.remembers (SoundObject.callback cb s).
Proof.
  intros H.
  destruct cb as [| | | | [|] | |]; cbn [SoundObject.callback];
    try apply destroy_keeps;
    try (apply nonRepeat_keeps; [discriminate | exact H]).
  - exact H.
  - unfold SoundObject.remembers. rewrite transitions_trigger. cbn.
    rewrite app_nil_r. exact H.
Qed.

Lemma callbacks_keep (cbs : list SoundObject.Callback) (s : SoundObject.State) :
  SoundObject.no_repeat (SoundObject.transitions s) /\ SoundObject.remembers s ->
  SoundObject.no_repeat (SoundObject.transitions (SoundObject.callbacks cbs s)) /\
  SoundObject.remembers (SoundObject.callbacks cbs s).
Proof.
  revert s. induction cbs as [|cb cbs IH]; intros s H; [exact H|].
  apply (IH (SoundObject.callback cb s)). apply callback_keeps. exact H.
Qed.


Lemma elapses_trigger (e : SoundObject.Event) (failed : bool) (s : SoundObject.State) :
  SoundObject.elapses (SoundObject.trigger e failed s)
  = (SoundObject.elapses s + (if SoundObject.event_eqb e SoundObject.ev_elapse then 1 else 0))%nat.
Proof.
  unfold SoundObject.elapses, SoundObject.trigger. cbn [SoundObject.triggered].
  rewrite map_app, filter_app, length_app. cbn.
  destruct (SoundObject.event_eqb e SoundObject.ev_elapse); reflexivity.
Qed.

Lemma elapses_nonRepeat (e : SoundObject.Event) (failed : bool) (s : SoundObject.State) :
  e <> SoundObject.ev_elapse ->
  SoundObject.elapses (SoundObject._nonRepeatTrigger e failed s) = SoundObject.elapses s.
Proof.
  intros He.
  assert (Hne : SoundObject.event_eqb e SoundObject.ev_elapse = false).
  { destruct (SoundObject.event_eqb e SoundObject.ev_elapse) eqn:E; [|reflexivity].
    apply event_eqb_eq in E. contradiction. }
  unfold SoundObject._nonRepeatTrigger.
  destruct (SoundObject.lastTrigger s) as [last_e|];
    [destruct (SoundObject.event_eqb last_e e); [reflexivity|]|];
    rewrite elapses_trigger, Hne; unfold SoundObject.elapses; cbn [SoundObject.triggered]; lia.
Qed.

Lemma elapses_callback (cb : SoundObject.Callback) (s : SoundObject.State) :
  SoundObject.elapses (SoundObject.callback cb s)
  = (SoundObject.elapses s + (if SoundObject.is_whileplaying cb then 1 else 0))%nat.
Proof.
  destruct cb as [| | | | [|] | |]; cbn [SoundObject.callback SoundObject.is_whileplaying];
    try (change (SoundObject.elapses (SoundObject.destroy ?x)) with (SoundObject.elapses x));
    try (rewrite elapses_nonRepeat by discriminate; lia).
  - lia.
  - rewrite elapses_trigger. reflexivity.
Qed.

Lemma elapses_callbacks (cbs : list SoundObject.Callback) (s : SoundObject.State) :
  SoundObject.elapses (SoundObject.callbacks cbs s)
  = (SoundObject.elapses s + length (filter SoundObject.is_whileplaying cbs))%nat.
Proof.
  revert s. induction cbs as [|cb cbs IH]; intros s; [cbn; lia|].
  change (SoundObject.callbacks (cb :: cbs) s)
    with (SoundObject.callbacks cbs (SoundObject.callback cb s)).
  rewrite IH, elapses_callback. cbn [filter].
  destruct (SoundObject.is_whileplaying cb); cbn [length]; lia.
Qed.

(** A sound never triggers the same of [play], [pause] and [finish] twice in
    a row, whatever SoundManager calls back and however often; [elapse] is
    not filtered: it is triggered once for every [whileplaying] callback. *)
Theorem sound_transitions_never_repeat :
  forall cbs : list SoundObject.Callback,
    SoundObject.no_repeat (SoundObject.transitions (SoundObject.callbacks cbs SoundObject.created)) /\
    SoundObject.elapses (SoundObject.callbacks cbs SoundObject.created)
    = length (filter SoundObject.is_whileplaying cbs).
Proof.
  intros cbs. split.
  - apply callbacks_keep. split; [exact I | reflexivity].
  - rewrite elapses_callbacks. reflexivity.
Qed.
